(** * BufferLayerConsumer: a shallow embedding and its verified properties

    The development follows services/surfaceflinger/BufferLayerConsumer.cpp.
    Fixed-width integers are integers of [Z] with their wrap-around written
    out, [float] is IEEE-754 binary32 (the Standard Library's executable
    [SpecFloat] operations at precision 24), [mat4] is the column-major 4x4
    matrix of math/mat4.h, and the consumer object is a record of its
    fields threaded through the member functions together with the calls
    they make on their collaborators. *)

From Stdlib Require Import ZArith Lia Bool List.
From Stdlib Require Import Floats.SpecFloat.
From stdpp Require Import base list.
Import ListNotations.

Local Open Scope Z_scope.

(** ** Fixed-width integers *)

(** Conversion to [uint32_t]: reduction modulo 2^32. *)
Definition to_uint32 (z : Z) : Z := z mod 4294967296.

(** Conversion to [int32_t]: two's complement wrap-around. *)
Definition to_int32 (z : Z) : Z := (z + 2147483648) mod 4294967296 - 2147483648.

Definition is_uint32 (z : Z) : Prop := 0 <= z < 4294967296.
Definition is_int32 (z : Z) : Prop := -2147483648 <= z < 2147483648.

(** ** ui/Rect.h *)

Module Rect.

(** Modelled from the spec: ui/Rect.h is not among the sources; a rect is
    its four [int32_t] edges, its width and height are the differences of
    opposite edges taken as [int32_t], it is empty when one of them is
    not positive and valid when none is negative. *)
Record t : Type := mk { left : Z; top : Z; right : Z; bottom : Z }.

(** [Rect::EMPTY_RECT] is [Rect(0, 0, 0, 0)]. *)
Definition EMPTY_RECT : t := mk 0 0 0 0.

(** [getWidth]: [static_cast<int32_t>(right - left)]. *)
Definition width (r : t) : Z := to_int32 (right r - left r).
Definition height (r : t) : Z := to_int32 (bottom r - top r).

Definition isValid (r : t) : bool := (0 <=? width r) && (0 <=? height r).
Definition isEmpty (r : t) : bool := (width r <=? 0) || (height r <=? 0).

Definition makeInvalid (r : t) : t := mk 0 0 (-1) (-1).

Definition eqb (a b : t) : bool :=
  (left a =? left b) && (top a =? top b) &&
  (right a =? right b) && (bottom a =? bottom b).

(** Every coordinate is an [int32_t]. *)
Definition wf (r : t) : Prop :=
  is_int32 (left r) /\ is_int32 (top r) /\
  is_int32 (right r) /\ is_int32 (bottom r).

End Rect.

(** ** scaleDownCrop (lines 499-537)

    All the arithmetic is [uint32_t]; [outCrop.left += halfdw] adds an
    [int32_t] and a [uint32_t] in [uint32_t] and stores the sum back as
    [int32_t]. *)
Definition scaleDownCrop (crop : Rect.t) (bufferWidth bufferHeight : Z) : Rect.t :=
  let outCrop := crop in
  let newWidth := to_uint32 (Rect.width crop) in
  let newHeight := to_uint32 (Rect.height crop) in
  let '(newWidth, newHeight) :=
    if to_uint32 (newWidth * bufferHeight) >? to_uint32 (newHeight * bufferWidth)
    then (to_uint32 (newHeight * bufferWidth) / bufferHeight, newHeight)
    else if to_uint32 (newWidth * bufferHeight) <? to_uint32 (newHeight * bufferWidth)
    then (newWidth, to_uint32 (newWidth * bufferHeight) / bufferWidth)
    else (newWidth, newHeight) in
  let currentWidth := to_uint32 (Rect.width crop) in
  let currentHeight := to_uint32 (Rect.height crop) in
  if newWidth <? currentWidth then
    let dw := to_uint32 (currentWidth - newWidth) in
    let halfdw := dw / 2 in
    Rect.mk (to_int32 (to_uint32 (to_uint32 (Rect.left outCrop) + halfdw)))
            (Rect.top outCrop)
            (to_int32 (to_uint32 (to_uint32 (Rect.right outCrop) - to_uint32 (dw - halfdw))))
            (Rect.bottom outCrop)
  else if newHeight <? currentHeight then
    let dh := to_uint32 (currentHeight - newHeight) in
    let halfdh := dh / 2 in
    Rect.mk (Rect.left outCrop)
            (to_int32 (to_uint32 (to_uint32 (Rect.top outCrop) + halfdh)))
            (Rect.right outCrop)
            (to_int32 (to_uint32 (to_uint32 (Rect.bottom outCrop) - to_uint32 (dh - halfdh))))
  else outCrop.

(** The divisor of each of the two divisions of [scaleDownCrop], at the
    place where it is evaluated: the branch is only taken when the product
    with that divisor is non-zero. *)
Definition scaleDownCrop_divisor (crop : Rect.t) (bufferWidth bufferHeight : Z) : option Z :=
  let newWidth := to_uint32 (Rect.width crop) in
  let newHeight := to_uint32 (Rect.height crop) in
  if to_uint32 (newWidth * bufferHeight) >? to_uint32 (newHeight * bufferWidth)
  then Some bufferHeight
  else if to_uint32 (newWidth * bufferHeight) <? to_uint32 (newHeight * bufferWidth)
  then Some bufferWidth
  else None.

(** *** What the scale-to-crop helper is said to guarantee

    The target is [bw] x [bh]; [w], [h] are the true extents of a rect. *)
Definition ext_w (r : Rect.t) : Z := Rect.right r - Rect.left r.
Definition ext_h (r : Rect.t) : Z := Rect.bottom r - Rect.top r.

(** Only the axis that is oversized relative to the target is shrunk. *)
Definition shrinks_oversized_axis_only (crop out : Rect.t) (bw bh : Z) : Prop :=
  (ext_w crop * bh > ext_h crop * bw ->
     Rect.top out = Rect.top crop /\ Rect.bottom out = Rect.bottom crop) /\
  (ext_w crop * bh < ext_h crop * bw ->
     Rect.left out = Rect.left crop /\ Rect.right out = Rect.right crop) /\
  (ext_w crop * bh = ext_h crop * bw -> out = crop).

Definition contained_in (out crop : Rect.t) : Prop :=
  Rect.left crop <= Rect.left out /\ Rect.left out <= Rect.right out /\
  Rect.right out <= Rect.right crop /\
  Rect.top crop <= Rect.top out /\ Rect.top out <= Rect.bottom out /\
  Rect.bottom out <= Rect.bottom crop.

(** The output has the target's aspect ratio up to the rounding of one
    integer division: one extent is the floor of the other scaled by the
    target ratio. *)
Definition aspect_within_rounding (out : Rect.t) (bw bh : Z) : Prop :=
  (ext_w out * bh <= ext_h out * bw < (ext_w out + 1) * bh) \/
  (ext_h out * bw <= ext_w out * bh < (ext_h out + 1) * bw).

(** A shrink of delta moves the leading edge by floor(delta/2) and the
    trailing edge by the rest. *)
Definition split_floor_half (crop out : Rect.t) : Prop :=
  let dw := ext_w crop - ext_w out in
  let dh := ext_h crop - ext_h out in
  0 <= dw /\ 0 <= dh /\
  Rect.left out = Rect.left crop + dw / 2 /\
  Rect.right out = Rect.right crop - (dw - dw / 2) /\
  Rect.top out = Rect.top crop + dh / 2 /\
  Rect.bottom out = Rect.bottom crop - (dh - dh / 2).

Definition scaleDownCrop_spec (crop : Rect.t) (bw bh : Z) : Prop :=
  let out := scaleDownCrop crop bw bh in
  shrinks_oversized_axis_only crop out bw bh /\
  contained_in out crop /\
  aspect_within_rounding out bw bh /\
  split_floor_half crop out.

(** The inputs on which the 32-bit arithmetic of [scaleDownCrop] is exact:
    a valid crop, a target with positive extents, and cross products that
    fit [uint32_t]. *)
Definition scaleDownCrop_exact (crop : Rect.t) (bw bh : Z) : Prop :=
  Rect.wf crop /\
  Rect.left crop <= Rect.right crop /\ Rect.top crop <= Rect.bottom crop /\
  0 < bw /\ 0 < bh /\
  ext_w crop * bh < 4294967296 /\ ext_h crop * bw < 4294967296.

(** ** [float]: IEEE-754 binary32

    Precision 24, infinities at exponent 128, round to nearest even. A
    finite value is [S754_finite s m e], standing for (-1)^s * m * 2^e. *)
Definition float32 : Type := spec_float.

Definition fadd : float32 -> float32 -> float32 := SFadd 24 128.
Definition fsub : float32 -> float32 -> float32 := SFsub 24 128.
Definition fmul : float32 -> float32 -> float32 := SFmul 24 128.
Definition fdiv : float32 -> float32 -> float32 := SFdiv 24 128.
Definition flt : float32 -> float32 -> bool := SFltb.

(** Conversion of an integer ([int32_t] or [uint32_t]) to [float]. *)
Definition float_of_Z (z : Z) : float32 := binary_normalize 24 128 z 0 false.

Definition f0 : float32 := S754_zero false.
Definition f1 : float32 := Eval vm_compute in float_of_Z 1.
Definition f2 : float32 := Eval vm_compute in float_of_Z 2.
Definition fm1 : float32 := Eval vm_compute in float_of_Z (-1).
Definition fhalf : float32 := Eval vm_compute in fdiv f1 f2.

(** *** The integer a conversion to [float] yields

    Round to nearest even at [n] dropped bits: the quotient goes up when
    the remainder is above one half, or is one half and the quotient is
    odd. *)
Definition round_up (x n : Z) : bool :=
  Z.odd (x / 2 ^ (n - 1)) && (negb (x mod 2 ^ (n - 1) =? 0) || Z.odd (x / 2 ^ n)).

Definition rounded (x n : Z) : Z := x / 2 ^ n + (if round_up x n then 1 else 0).

(** Mantissa and exponent of the [float] nearest to the positive integer
    [p]: 24 significant bits. *)
Definition round24 (p : positive) : Z * Z :=
  let d := Zpos (digits2_pos p) in
  if d <=? 24 then (Zpos p * 2 ^ (24 - d), d - 24)
  else
    let m := rounded (Zpos p) (d - 24) in
    if m =? 16777216 then (8388608, d - 24 + 1) else (m, d - 24).

Definition float_of_round (sx : bool) (me : Z * Z) : float32 :=
  if snd me <=? 104 then S754_finite sx (Z.to_pos (fst me)) (snd me)
  else S754_infinity sx.

(** The state of the shift register after [k >= 1] steps on [x >= 0]. *)
Definition shifted (x k : Z) : shr_record :=
  Build_shr_record (x / 2 ^ k) (Z.odd (x / 2 ^ (k - 1))) (negb (x mod 2 ^ (k - 1) =? 0)).

(** The exponent first, then the mantissa. *)
Definition round_le (a b : Z * Z) : Prop :=
  snd a < snd b \/ (snd a = snd b /\ fst a <= fst b).

(** ** math/mat4.h *)

(** Modelled from the spec: math/mat4.h (with TMatHelpers.h) is not among
    the sources; the 4x4 [float] matrix of the transform matrix computer
    is taken as the platform's [mat4]: four column vectors, a constructor
    that reads its sixteen scalars column by column, the identity as the
    default value, [m * v] accumulating [m[col] * v[col]] onto a zero
    vector, [a * b] multiplying [a] with each column of [b], and the
    compound assignment [a *= b] storing [a * b] in [a]. *)
Record vec4 : Type := mkvec4 { vx : float32; vy : float32; vz : float32; vw : float32 }.
Record mat4 : Type := mkmat4 { col0 : vec4; col1 : vec4; col2 : vec4; col3 : vec4 }.

Definition mat4_of_scalars
    (m00 m01 m02 m03 m10 m11 m12 m13 m20 m21 m22 m23 m30 m31 m32 m33 : float32) : mat4 :=
  mkmat4 (mkvec4 m00 m01 m02 m03) (mkvec4 m10 m11 m12 m13)
         (mkvec4 m20 m21 m22 m23) (mkvec4 m30 m31 m32 m33).

Definition vec_zero : vec4 := mkvec4 f0 f0 f0 f0.

Definition vec_add (a b : vec4) : vec4 :=
  mkvec4 (fadd (vx a) (vx b)) (fadd (vy a) (vy b))
         (fadd (vz a) (vz b)) (fadd (vw a) (vw b)).

Definition vec_scale (v : vec4) (s : float32) : vec4 :=
  mkvec4 (fmul (vx v) s) (fmul (vy v) s) (fmul (vz v) s) (fmul (vw v) s).

Definition mat_vec (m : mat4) (v : vec4) : vec4 :=
  let result := vec_zero in
  let result := vec_add result (vec_scale (col0 m) (vx v)) in
  let result := vec_add result (vec_scale (col1 m) (vy v)) in
  let result := vec_add result (vec_scale (col2 m) (vz v)) in
  let result := vec_add result (vec_scale (col3 m) (vw v)) in
  result.

Definition mat_mul (a b : mat4) : mat4 :=
  mkmat4 (mat_vec a (col0 b)) (mat_vec a (col1 b))
         (mat_vec a (col2 b)) (mat_vec a (col3 b)).

(** [asArray]: the sixteen scalars, column after column. *)
Definition asArray (m : mat4) : list float32 :=
  [ vx (col0 m); vy (col0 m); vz (col0 m); vw (col0 m);
    vx (col1 m); vy (col1 m); vz (col1 m); vw (col1 m);
    vx (col2 m); vy (col2 m); vz (col2 m); vw (col2 m);
    vx (col3 m); vy (col3 m); vz (col3 m); vw (col3 m) ].

Definition mtxIdentity : mat4 :=
  mat4_of_scalars f1 f0 f0 f0  f0 f1 f0 f0  f0 f0 f1 f0  f0 f0 f0 f1.

(** The three orientation matrices of [computeTransformMatrix]
    (lines 428-430). *)
Definition mtxFlipH : mat4 :=
  mat4_of_scalars fm1 f0 f0 f0  f0 f1 f0 f0  f0 f0 f1 f0  f1 f0 f0 f1.
Definition mtxFlipV : mat4 :=
  mat4_of_scalars f1 f0 f0 f0  f0 fm1 f0 f0  f0 f0 f1 f0  f0 f1 f0 f1.
Definition mtxRot90 : mat4 :=
  mat4_of_scalars f0 f1 f0 f0  fm1 f0 f0 f0  f0 f0 f1 f0  f1 f0 f0 f1.

(** ** Constants of headers that are not among the sources *)

(** Modelled from the spec: system/window.h, ui/PixelFormat.h,
    utils/Errors.h and gui/BufferQueue.h are not among the sources; the
    transform bits, scaling modes, pixel formats, status codes and the
    invalid-slot sentinel carry the platform's values. No theorem below
    depends on the numbers beyond their being distinct. *)
Definition NATIVE_WINDOW_TRANSFORM_FLIP_H : Z := 1.
Definition NATIVE_WINDOW_TRANSFORM_FLIP_V : Z := 2.
Definition NATIVE_WINDOW_TRANSFORM_ROT_90 : Z := 4.

Definition NATIVE_WINDOW_SCALING_MODE_FREEZE : Z := 0.
Definition NATIVE_WINDOW_SCALING_MODE_SCALE_TO_WINDOW : Z := 1.
Definition NATIVE_WINDOW_SCALING_MODE_SCALE_CROP : Z := 2.
Definition NATIVE_WINDOW_SCALING_MODE_NO_SCALE_CROP : Z := 3.

Definition PIXEL_FORMAT_RGBA_8888 : Z := 1.
Definition PIXEL_FORMAT_RGBX_8888 : Z := 2.
Definition PIXEL_FORMAT_RGB_888 : Z := 3.
Definition PIXEL_FORMAT_RGB_565 : Z := 4.
Definition PIXEL_FORMAT_BGRA_8888 : Z := 5.
Definition PIXEL_FORMAT_RGBA_FP16 : Z := 22.
Definition PIXEL_FORMAT_RGBA_1010102 : Z := 43.

Definition NO_ERROR : Z := 0.
Definition OK : Z := 0.
Definition UNKNOWN_ERROR : Z := -2147483648.
Definition NO_INIT : Z := -19.
Definition INVALID_OPERATION : Z := -38.
Definition NO_BUFFER_AVAILABLE : Z := -42.

Definition INVALID_BUFFER_SLOT : Z := -1.
Definition NUM_BUFFER_SLOTS : Z := 64.

Definition HAL_DATASPACE_UNKNOWN : Z := 0.
Definition DEFAULT_USAGE_FLAGS : Z := 256.

(** ** ui/GraphicBuffer.h *)

(** Modelled from the spec: ui/GraphicBuffer.h is not among the sources;
    of a buffer the consumer reads the native handle, the dimensions, the
    stride, the usage flags and the pixel format. *)
Record GraphicBuffer : Type := mkGraphicBuffer {
  handle : Z;
  getWidth : Z;
  getHeight : Z;
  getStride : Z;
  getUsage : Z;
  getPixelFormat : Z
}.

Definition GraphicBuffer_wf (b : GraphicBuffer) : Prop :=
  is_uint32 (getWidth b) /\ is_uint32 (getHeight b).

(** ** computeTransformMatrix (lines 424-497) *)

(** The pixel formats of the [case] labels at lines 456-462. *)
Definition nonSubsampledFormats : list Z :=
  [ PIXEL_FORMAT_RGBA_8888; PIXEL_FORMAT_RGBX_8888; PIXEL_FORMAT_RGBA_FP16;
    PIXEL_FORMAT_RGBA_1010102; PIXEL_FORMAT_RGB_888; PIXEL_FORMAT_RGB_565;
    PIXEL_FORMAT_BGRA_8888 ].

(** Lines 447-474: the local [shrinkAmount]. *)
Definition shrinkAmount (filtering : bool) (format : Z) : float32 :=
  let shrinkAmount := f0 in
  if filtering then
    if (format =? PIXEL_FORMAT_RGBA_8888) || (format =? PIXEL_FORMAT_RGBX_8888)
       || (format =? PIXEL_FORMAT_RGBA_FP16) || (format =? PIXEL_FORMAT_RGBA_1010102)
       || (format =? PIXEL_FORMAT_RGB_888) || (format =? PIXEL_FORMAT_RGB_565)
       || (format =? PIXEL_FORMAT_BGRA_8888)
    then fhalf
    else f1
  else shrinkAmount.

(** The tests of lines 477 and 481: the [int32_t] extent of the crop is
    converted to [float] and compared with the [float] buffer extent. *)
Definition cropNarrower (buf : GraphicBuffer) (cropRect : Rect.t) : bool :=
  flt (float_of_Z (Rect.width cropRect)) (float_of_Z (getWidth buf)).
Definition cropShorter (buf : GraphicBuffer) (cropRect : Rect.t) : bool :=
  flt (float_of_Z (Rect.height cropRect)) (float_of_Z (getHeight buf)).

(** Lines 444-484: the locals [tx], [ty], [sx], [sy] when the crop stage
    is done with them. *)
Record CropParams : Type := mkCropParams {
  tx : float32; ty : float32; sx : float32; sy : float32
}.

Definition cropParams (buf : GraphicBuffer) (cropRect : Rect.t) (filtering : bool)
    : CropParams :=
  let bufferWidth := float_of_Z (getWidth buf) in
  let bufferHeight := float_of_Z (getHeight buf) in
  let shrinkAmount := shrinkAmount filtering (getPixelFormat buf) in
  let '(tx, sx) :=
    if cropNarrower buf cropRect then
      (fdiv (fadd (float_of_Z (Rect.left cropRect)) shrinkAmount) bufferWidth,
       fdiv (fsub (float_of_Z (Rect.width cropRect)) (fmul f2 shrinkAmount)) bufferWidth)
    else (f0, f1) in
  let '(ty, sy) :=
    if cropShorter buf cropRect then
      (fdiv (fadd (fsub bufferHeight (float_of_Z (Rect.bottom cropRect))) shrinkAmount)
            bufferHeight,
       fdiv (fsub (float_of_Z (Rect.height cropRect)) (fmul f2 shrinkAmount)) bufferHeight)
    else (f0, f1) in
  mkCropParams tx ty sx sy.

(** Line 486: [mat4 crop(sx, 0, 0, 0, 0, sy, 0, 0, 0, 0, 1, 0, tx, ty, 0, 1)]. *)
Definition cropMatrix (buf : GraphicBuffer) (cropRect : Rect.t) (filtering : bool) : mat4 :=
  let p := cropParams buf cropRect filtering in
  mat4_of_scalars (sx p) f0 f0 f0  f0 (sy p) f0 f0  f0 f0 f1 f0  (tx p) (ty p) f0 f1.

Definition has_bit (transform flag : Z) : bool := negb (Z.land transform flag =? 0).

(** The function itself. [buf] is a strong pointer that may be null; it is
    dereferenced only in the crop stage, and [None] stands for the
    dereference of a null [buf]. The result is the [float[16]] written to
    [outTransform]. *)
Definition computeTransformMatrix (buf : option GraphicBuffer) (cropRect : Rect.t)
    (transform : Z) (filtering : bool) : option (list float32) :=
  let xform := mtxIdentity in
  let xform :=
    if has_bit transform NATIVE_WINDOW_TRANSFORM_FLIP_H
    then mat_mul xform mtxFlipH else xform in
  let xform :=
    if has_bit transform NATIVE_WINDOW_TRANSFORM_FLIP_V
    then mat_mul xform mtxFlipV else xform in
  let xform :=
    if has_bit transform NATIVE_WINDOW_TRANSFORM_ROT_90
    then mat_mul xform mtxRot90 else xform in
  let cropped :=
    if negb (Rect.isEmpty cropRect) then
      match buf with
      | None => None
      | Some b => Some (mat_mul (cropMatrix b cropRect filtering) xform)
      end
    else Some xform in
  match cropped with
  | None => None
  | Some xform => Some (asArray (mat_mul mtxFlipV xform))
  end.

(** *** The pipeline of the transform matrix computer, stage by stage

    The orientation matrices selected by the bitmask, in the order flip-H,
    flip-V, rot-90. *)
Definition orientationFactors (transform : Z) : list mat4 :=
  (if has_bit transform NATIVE_WINDOW_TRANSFORM_FLIP_H then [mtxFlipH] else []) ++
  (if has_bit transform NATIVE_WINDOW_TRANSFORM_FLIP_V then [mtxFlipV] else []) ++
  (if has_bit transform NATIVE_WINDOW_TRANSFORM_ROT_90 then [mtxRot90] else []).

(** The two ways of multiplying a stage's matrix [m] into the running
    transform [xform]. *)
Definition multiply_left (xform m : mat4) : mat4 := mat_mul m xform.
Definition multiply_right (xform m : mat4) : mat4 := mat_mul xform m.

(** Identity, then the orientation factors multiplied in by [orient], then
    the crop matrix multiplied in by [stage] when the crop is not empty,
    then the vertical flip multiplied in by [stage]. *)
Definition pipeline (orient stage : mat4 -> mat4 -> mat4) (buf : GraphicBuffer)
    (cropRect : Rect.t) (transform : Z) (filtering : bool) : mat4 :=
  let oriented := fold_left orient (orientationFactors transform) mtxIdentity in
  let cropped :=
    if Rect.isEmpty cropRect then oriented
    else stage oriented (cropMatrix buf cropRect filtering) in
  stage cropped mtxFlipV.

(** The full bounds of a buffer as a crop rect. *)
Definition fullBounds (b : GraphicBuffer) : Rect.t :=
  Rect.mk 0 0 (getWidth b) (getHeight b).

Definition identityCropParams : CropParams := mkCropParams f0 f0 f1 f1.

(** ** The consumer object and its collaborators *)

(** Modelled from the spec: EGL/egl.h, EGL/eglext.h, GLES2/gl2.h and
    hardware/gralloc.h are not among the sources; EGL and GL handles are
    integers and the constants carry the platform's values. *)
Definition EGL_NO_DISPLAY : Z := 0.
Definition EGL_NO_CONTEXT : Z := 0.
Definition EGL_NO_IMAGE_KHR : Z := 0.
Definition EGL_NO_SYNC_KHR : Z := 0.
Definition EGL_NO_NATIVE_FENCE_FD_ANDROID : Z := -1.
Definition EGL_SUCCESS : Z := 12288.
Definition GL_NO_ERROR : Z := 0.
Definition GRALLOC_USAGE_PROTECTED : Z := 16384.
Definition sTexTarget : Z := 36197.

(** Modelled from the spec: ui/Fence.h is not among the sources; a fence
    is known by its file descriptor, [Fence::NO_FENCE] wraps the invalid
    descriptor, and a fence is valid when its descriptor is. *)
Definition Fence : Type := Z.
Definition NO_FENCE : Fence := -1.
Definition Fence_isValid (f : Fence) : bool := negb (f =? -1).

(** Modelled from the spec: ui/FenceTime.h is not among the sources; a
    [std::shared_ptr<FenceTime>] is known by an identifier. *)
Definition FenceTime : Type := Z.
Definition FenceTime_NO_FENCE : FenceTime := 0.

Module BufferItem.

(** Modelled from the spec: gui/BufferItem.h is not among the sources; the
    item of an acquire carries the buffer (null when the slot's buffer is
    already known), the slot, the crop rect, the transform bits, the
    scaling mode, the timestamp, the dataspace, the fence, the fence-time
    and the frame number. *)
Record t : Type := mk {
  mGraphicBuffer : option GraphicBuffer;
  mSlot : Z;
  mCrop : Rect.t;
  mTransform : Z;
  mScalingMode : Z;
  mTimestamp : Z;
  mDataSpace : Z;
  mFence : Fence;
  mFenceTime : FenceTime;
  mFrameNumber : Z
}.
End BufferItem.

Module EglImage.

(** The members of the nested class [BufferLayerConsumer::EglImage], as
    its constructor initialises them (lines 675-679). *)
Record t : Type := mk {
  mGraphicBuffer : GraphicBuffer;
  mEglImage : Z;
  mEglDisplay : Z;
  mCropRect : Rect.t
}.
End EglImage.

(** [sp<EglImage>] is a reference into the store of [EglImage] objects;
    [None] is the null pointer. *)
Definition ref : Type := nat.

(** The out-parameter [PendingRelease* pendingRelease]. *)
Record PendingRelease : Type := mkPendingRelease {
  isPending : bool;
  currentTexture : Z;
  graphicBuffer : option GraphicBuffer
}.

(** The calls the consumer makes on its base class, on the queue behind
    it, and on EGL and GL, in the order they are made. *)
Inductive Call : Type :=
| ConsumerBase_acquireBufferLocked
| ConsumerBase_releaseBufferLocked (slot : Z) (buf : option GraphicBuffer)
| ConsumerBase_addReleaseFence (slot : Z) (buf : GraphicBuffer) (fence : Fence)
| ConsumerBase_freeBufferLocked (slot : Z)
| ConsumerBase_abandonLocked
| ConsumerBase_setConsumerUsageBits (usage : Z)
| mConsumer_setDefaultBufferSize (w h : Z)
| mConsumer_setConsumerUsageBits (usage : Z)
| glBindTexture (target tex : Z)
| glGetError
| glFlush
| glEGLImageTargetTexture2DOES (target image : Z)
| eglInitialize (dpy : Z)
| eglTerminate (dpy : Z)
| eglCreateImageKHR (dpy : Z) (buf : GraphicBuffer) (crop : option Rect.t) (protected : bool)
| eglDestroyImageKHR (dpy image : Z)
| eglGetError
| eglCreateSyncKHR (dpy : Z) (fenceFd : option Z)
| eglDupNativeFenceFDANDROID (dpy sync : Z)
| eglDestroySyncKHR (dpy sync : Z)
| eglWaitSyncKHR (dpy sync : Z)
| Fence_dup (f : Fence)
| Fence_waitForever (f : Fence)
| close (fd : Z).

(** What the collaborators answer during one call of a member function.
    The calling thread's current display and context do not change while
    the member function runs; every other answer is consulted at one call
    site only. The two capability probes (lines 64-102) are taken by
    their results, which are fixed for the process. *)
Record World : Type := mkWorld {
  eglGetCurrentDisplay : Z;
  eglGetCurrentContext : Z;
  hasEglAndroidImageCrop : bool;
  hasEglProtectedContent : bool;
  (* ConsumerBase and the queue behind it *)
  acquired : Z * BufferItem.t;
  baseSlotBuffer : Z -> option GraphicBuffer;
  released : Z -> Z;
  releaseFreesSlot : Z -> bool;
  addedReleaseFence : Z;
  setDefaultBufferSizeStatus : Z;
  setConsumerUsageBitsStatus : Z;
  (* image creation for the acquired slot, and again when binding *)
  createdImage : Z;
  createdImageAtBind : Z;
  (* release synchronisation *)
  useNativeFenceSync : bool;
  createdReleaseSync : Z;
  dupedNativeFenceFd : Z;
  (* binding and the wait for the incoming fence *)
  pendingGlErrors : list Z;
  useWaitSync : bool;
  dupedFenceFd : Z;
  errno : Z;
  createdWaitSync : Z;
  waitSyncError : Z;
  waitedForever : Z
}.

(** Modelled from the spec: BufferLayerConsumer.h is not among the
    sources; the members are those the constructor initialises and the
    member functions use. The current binding is the [mCurrent...]
    members. *)
Record Binding : Type := mkBinding {
  mCurrentTexture : Z;
  mCurrentTextureImage : option ref;
  mCurrentCrop : Rect.t;
  mCurrentTransform : Z;
  mCurrentScalingMode : Z;
  mCurrentTimestamp : Z;
  mCurrentDataSpace : Z;
  mCurrentFence : Fence;
  mCurrentFenceTime : FenceTime;
  mCurrentFrameNumber : Z;
  mCurrentTransformMatrix : list float32
}.

(** The consumer: the current binding, the other members, the [EglImage]
    objects allocated so far, which its pointers refer to, and the calls
    made so far. The store is not shrunk when an object is destroyed: the
    destructor runs when the last pointer to the object is dropped (see
    [decStrong]), and [images] keeps what the object held. *)
Record Consumer : Type := mkConsumer {
  cur : Binding;
  mAbandoned : bool;
  mDefaultWidth : Z;
  mDefaultHeight : Z;
  mFilteringEnabled : bool;
  mTexName : Z;
  mEglDisplay : Z;
  mEglContext : Z;
  mEglSlots : list (option ref);
  images : list EglImage.t;
  calls : list Call
}.

Definition set_cur (b : Binding) (s : Consumer) : Consumer :=
  mkConsumer b (mAbandoned s) (mDefaultWidth s) (mDefaultHeight s)
    (mFilteringEnabled s) (mTexName s) (mEglDisplay s) (mEglContext s)
    (mEglSlots s) (images s) (calls s).
Definition set_mAbandoned (a : bool) (s : Consumer) : Consumer :=
  mkConsumer (cur s) a (mDefaultWidth s) (mDefaultHeight s)
    (mFilteringEnabled s) (mTexName s) (mEglDisplay s) (mEglContext s)
    (mEglSlots s) (images s) (calls s).
Definition set_defaultSize (w h : Z) (s : Consumer) : Consumer :=
  mkConsumer (cur s) (mAbandoned s) w h
    (mFilteringEnabled s) (mTexName s) (mEglDisplay s) (mEglContext s)
    (mEglSlots s) (images s) (calls s).
Definition set_mFilteringEnabled (f : bool) (s : Consumer) : Consumer :=
  mkConsumer (cur s) (mAbandoned s) (mDefaultWidth s) (mDefaultHeight s)
    f (mTexName s) (mEglDisplay s) (mEglContext s)
    (mEglSlots s) (images s) (calls s).
Definition set_mEglDisplay (d : Z) (s : Consumer) : Consumer :=
  mkConsumer (cur s) (mAbandoned s) (mDefaultWidth s) (mDefaultHeight s)
    (mFilteringEnabled s) (mTexName s) d (mEglContext s)
    (mEglSlots s) (images s) (calls s).
Definition set_mEglContext (c : Z) (s : Consumer) : Consumer :=
  mkConsumer (cur s) (mAbandoned s) (mDefaultWidth s) (mDefaultHeight s)
    (mFilteringEnabled s) (mTexName s) (mEglDisplay s) c
    (mEglSlots s) (images s) (calls s).
Definition set_mEglSlots (l : list (option ref)) (s : Consumer) : Consumer :=
  mkConsumer (cur s) (mAbandoned s) (mDefaultWidth s) (mDefaultHeight s)
    (mFilteringEnabled s) (mTexName s) (mEglDisplay s) (mEglContext s)
    l (images s) (calls s).
Definition set_images (l : list EglImage.t) (s : Consumer) : Consumer :=
  mkConsumer (cur s) (mAbandoned s) (mDefaultWidth s) (mDefaultHeight s)
    (mFilteringEnabled s) (mTexName s) (mEglDisplay s) (mEglContext s)
    (mEglSlots s) l (calls s).
Definition set_calls (l : list Call) (s : Consumer) : Consumer :=
  mkConsumer (cur s) (mAbandoned s) (mDefaultWidth s) (mDefaultHeight s)
    (mFilteringEnabled s) (mTexName s) (mEglDisplay s) (mEglContext s)
    (mEglSlots s) (images s) l.

Definition set_mCurrentTexture (slot : Z) (b : Binding) : Binding :=
  mkBinding slot (mCurrentTextureImage b) (mCurrentCrop b) (mCurrentTransform b)
    (mCurrentScalingMode b) (mCurrentTimestamp b) (mCurrentDataSpace b)
    (mCurrentFence b) (mCurrentFenceTime b) (mCurrentFrameNumber b)
    (mCurrentTransformMatrix b).
Definition set_mCurrentTextureImage (i : option ref) (b : Binding) : Binding :=
  mkBinding (mCurrentTexture b) i (mCurrentCrop b) (mCurrentTransform b)
    (mCurrentScalingMode b) (mCurrentTimestamp b) (mCurrentDataSpace b)
    (mCurrentFence b) (mCurrentFenceTime b) (mCurrentFrameNumber b)
    (mCurrentTransformMatrix b).
Definition set_mCurrentTransformMatrix (m : list float32) (b : Binding) : Binding :=
  mkBinding (mCurrentTexture b) (mCurrentTextureImage b) (mCurrentCrop b)
    (mCurrentTransform b) (mCurrentScalingMode b) (mCurrentTimestamp b)
    (mCurrentDataSpace b) (mCurrentFence b) (mCurrentFenceTime b)
    (mCurrentFrameNumber b) m.

(** *** Member functions as state transformers

    A member function maps the consumer to a result and the consumer
    afterwards; [None] is undefined behaviour of the source (a null or
    dangling pointer dereferenced, an array indexed out of its bounds). *)
Definition M (A : Type) : Type := Consumer -> option (A * Consumer).

Definition ret {A} (a : A) : M A := fun s => Some (a, s).
Definition bind {A B} (m : M A) (k : A -> M B) : M B :=
  fun s => match m s with
           | None => None
           | Some (a, s') => k a s'
           end.
Definition undefined {A} : M A := fun _ => None.
Definition get : M Consumer := fun s => Some (s, s).
Definition modify (f : Consumer -> Consumer) : M unit := fun s => Some (tt, f s).
Definition invoke (c : Call) : M unit := modify (fun s => set_calls (calls s ++ [c]) s).
Definition when (b : bool) (m : M unit) : M unit := if b then m else ret tt.

Notation "'let*' x ':=' c1 'in' c2" := (bind c1 (fun x => c2))
  (at level 10, x pattern, c1 at level 100, c2 at level 200).

(** [mEglSlots[slot].mEglImage], an array of [NUM_BUFFER_SLOTS] entries. *)
Definition slot_in_bounds (slot : Z) : bool :=
  (0 <=? slot) && (slot <? NUM_BUFFER_SLOTS).

Definition read_mEglSlots (slot : Z) : M (option ref) :=
  fun s =>
    if slot_in_bounds slot then
      match mEglSlots s !! Z.to_nat slot with
      | Some r => Some (r, s)
      | None => None
      end
    else None.

Definition write_mEglSlots (slot : Z) (r : option ref) : M unit :=
  fun s =>
    if slot_in_bounds slot then
      match mEglSlots s !! Z.to_nat slot with
      | Some _ => Some (tt, set_mEglSlots (<[Z.to_nat slot := r]> (mEglSlots s)) s)
      | None => None
      end
    else None.

(** Access to an [EglImage] object through an [sp<EglImage>]. *)
Definition deref (r : ref) : M EglImage.t :=
  fun s => match images s !! r with
           | Some i => Some (i, s)
           | None => None
           end.

Definition store (r : ref) (i : EglImage.t) : M unit :=
  modify (fun s => set_images (<[r := i]> (images s)) s).

(** [new EglImage(graphicBuffer)] (lines 675-679). *)
Definition new_EglImage (graphicBuffer : GraphicBuffer) : M ref :=
  fun s =>
    Some (length (images s),
          set_images (images s ++
            [EglImage.mk graphicBuffer EGL_NO_IMAGE_KHR EGL_NO_DISPLAY Rect.EMPTY_RECT]) s).

(** [mCurrentTextureImage->graphicBuffer()]. *)
Definition currentGraphicBuffer : M GraphicBuffer :=
  let* s := get in
  match mCurrentTextureImage (cur s) with
  | None => undefined
  | Some r => let* img := deref r in ret (EglImage.mGraphicBuffer img)
  end.

(** Lines 104-106. *)
Definition isEglImageCroppable (w : World) (crop : Rect.t) : bool :=
  hasEglAndroidImageCrop w && ((Rect.left crop =? 0) && (Rect.top crop =? 0)).

(** [EglImage::createImage] (lines 730-775); [created] is what
    [eglCreateImageKHR] returns. *)
Definition createImage (w : World) (created : Z) (dpy : Z)
    (graphicBuffer : GraphicBuffer) (crop : Rect.t) : M Z :=
  let createProtectedImage :=
    has_bit (getUsage graphicBuffer) GRALLOC_USAGE_PROTECTED && hasEglProtectedContent w in
  let cropAttribute :=
    if negb (Rect.isValid crop) then None
    else if negb (isEglImageCroppable w crop) then None
    else Some crop in
  let* _ := invoke (eglInitialize dpy) in
  let* _ := invoke (eglCreateImageKHR dpy graphicBuffer cropAttribute createProtectedImage) in
  let image := created in
  let* _ := when (image =? EGL_NO_IMAGE_KHR)
                 (let* _ := invoke eglGetError in invoke (eglTerminate dpy)) in
  ret image.

(** [EglImage::createIfNeeded] (lines 690-724) on the object [r]. *)
Definition createIfNeeded (w : World) (created : Z) (r : ref)
    (eglDisplay : Z) (cropRect : Rect.t) : M Z :=
  let* img := deref r in
  let graphicBuffer := EglImage.mGraphicBuffer img in
  let haveImage := negb (EglImage.mEglImage img =? EGL_NO_IMAGE_KHR) in
  let displayInvalid := negb (EglImage.mEglDisplay img =? eglDisplay) in
  let cropInvalid :=
    hasEglAndroidImageCrop w && negb (Rect.eqb (EglImage.mCropRect img) cropRect) in
  let* img :=
    if haveImage && (displayInvalid || cropInvalid) then
      let* _ := invoke (eglDestroyImageKHR (EglImage.mEglDisplay img) (EglImage.mEglImage img)) in
      let* _ := invoke (eglTerminate (EglImage.mEglDisplay img)) in
      ret (EglImage.mk graphicBuffer EGL_NO_IMAGE_KHR EGL_NO_DISPLAY (EglImage.mCropRect img))
    else ret img in
  let* img :=
    if EglImage.mEglImage img =? EGL_NO_IMAGE_KHR then
      let* image := createImage w created eglDisplay graphicBuffer cropRect in
      ret (EglImage.mk graphicBuffer image eglDisplay cropRect)
    else ret img in
  if EglImage.mEglImage img =? EGL_NO_IMAGE_KHR then
    let* _ := store r (EglImage.mk graphicBuffer EGL_NO_IMAGE_KHR EGL_NO_DISPLAY
                         (Rect.makeInvalid (EglImage.mCropRect img))) in
    ret UNKNOWN_ERROR
  else
    let* _ := store r img in
    ret OK.

(** Lines 318-342. *)
Definition checkAndUpdateEglStateLocked (w : World) : M Z :=
  let dpy := eglGetCurrentDisplay w in
  let ctx := eglGetCurrentContext w in
  let* s := get in
  let* _ := when (mEglDisplay s =? EGL_NO_DISPLAY) (modify (set_mEglDisplay dpy)) in
  let* s := get in
  let* _ := when (mEglContext s =? EGL_NO_CONTEXT) (modify (set_mEglContext ctx)) in
  let* s := get in
  if negb (mEglDisplay s =? dpy) || (dpy =? EGL_NO_DISPLAY) then ret INVALID_OPERATION
  else if negb (mEglContext s =? ctx) || (ctx =? EGL_NO_CONTEXT) then ret INVALID_OPERATION
  else ret NO_ERROR.

(** The destructor of [EglImage] (lines 681-688), on the object [r]. *)
Definition EglImage_destructor (r : ref) : M unit :=
  let* img := deref r in
  when (negb (EglImage.mEglImage img =? EGL_NO_IMAGE_KHR))
       (let* _ := invoke (eglDestroyImageKHR (EglImage.mEglDisplay img)
                            (EglImage.mEglImage img)) in
        invoke (eglTerminate (EglImage.mEglDisplay img))).

(** Modelled from the spec: utils/StrongPointer.h and utils/LightRefBase.h
    are not among the sources. An [EglImage] is only destroyed when its
    last reference drops: the references are the strong pointers of the
    slots, [mCurrentTextureImage], and [held], the local pointer of a
    member function that is running (line 252), null for [None]. *)
Definition points_to (r : ref) (p : option ref) : bool :=
  match p with
  | Some r' => (r' =? r)%nat
  | None => false
  end.

Definition referenced (held : option ref) (r : ref) (s : Consumer) : bool :=
  points_to r held || points_to r (mCurrentTextureImage (cur s)) ||
  existsb (points_to r) (mEglSlots s).

(** A strong pointer that referred to [p] has been cleared, assigned to
    or has gone out of scope: the object is destroyed when nothing else
    refers to it. *)
Definition decStrong (held : option ref) (p : option ref) : M unit :=
  match p with
  | None => ret tt
  | Some r =>
      let* s := get in
      if referenced held r s then ret tt else EglImage_destructor r
  end.

(** The calls of the destructor of an object that reads [img], and the
    calls made in [s] when a pointer to [p] has been dropped. *)
Definition destructor_calls (img : EglImage.t) : list Call :=
  if EglImage.mEglImage img =? EGL_NO_IMAGE_KHR then []
  else [ eglDestroyImageKHR (EglImage.mEglDisplay img) (EglImage.mEglImage img);
         eglTerminate (EglImage.mEglDisplay img) ].

Definition decStrong_calls (held : option ref) (p : option ref) (s : Consumer) : list Call :=
  match p with
  | Some r =>
      if referenced held r s then []
      else match images s !! r with
           | Some img => destructor_calls img
           | None => []
           end
  | None => []
  end.

(** [freeBufferLocked] (lines 646-653), which the base class calls; with
    [held] the local pointer of the member function that is running. *)
Definition freeBufferLocked_holding (held : option ref) (slotIndex : Z) : M unit :=
  let* s := get in
  let* _ := when (slotIndex =? mCurrentTexture (cur s))
                 (modify (fun s => set_cur (set_mCurrentTexture INVALID_BUFFER_SLOT (cur s)) s)) in
  let* image := read_mEglSlots slotIndex in
  let* _ := write_mEglSlots slotIndex None in
  let* _ := decStrong held image in
  invoke (ConsumerBase_freeBufferLocked slotIndex).

Definition freeBufferLocked (slotIndex : Z) : M unit :=
  freeBufferLocked_holding None slotIndex.

(** Modelled from the spec: [ConsumerBase::releaseBufferLocked] is not
    among the sources. It is a call on the queue collaborator whose status
    is the collaborator's answer, and during which the collaborator may
    signal that the slot is being freed, which runs [freeBufferLocked]. *)
Definition releaseBufferLocked_holding (held : option ref) (w : World) (slot : Z)
    (buf : option GraphicBuffer) : M Z :=
  let* _ := invoke (ConsumerBase_releaseBufferLocked slot buf) in
  let* _ := when (releaseFreesSlot w slot) (freeBufferLocked_holding held slot) in
  ret (released w slot).

Definition releaseBufferLocked (w : World) (slot : Z) (buf : option GraphicBuffer) : M Z :=
  releaseBufferLocked_holding None w slot buf.

(** Lines 188-204. [ConsumerBase::acquireBufferLocked] is the call on the
    queue collaborator; its status and item are the collaborator's. The
    assignment of line 200 drops the pointer the slot held. *)
Definition acquireBufferLocked (w : World) : M (Z * BufferItem.t) :=
  let* _ := invoke ConsumerBase_acquireBufferLocked in
  let '(err, item) := acquired w in
  if negb (err =? NO_ERROR) then ret (err, item)
  else
    let* _ :=
      match BufferItem.mGraphicBuffer item with
      | Some graphicBuffer =>
          let slot := BufferItem.mSlot item in
          let* r := new_EglImage graphicBuffer in
          let* image := read_mEglSlots slot in
          let* _ := write_mEglSlots slot (Some r) in
          decStrong None image
      | None => ret tt
      end in
    ret (NO_ERROR, item).

(** Lines 354-386. *)
Definition syncForReleaseLocked (w : World) (dpy : Z) : M Z :=
  let* s := get in
  if negb (mCurrentTexture (cur s) =? INVALID_BUFFER_SLOT) then
    if useNativeFenceSync w then
      let* _ := invoke (eglCreateSyncKHR dpy None) in
      let sync := createdReleaseSync w in
      if sync =? EGL_NO_SYNC_KHR then
        let* _ := invoke eglGetError in ret UNKNOWN_ERROR
      else
        let* _ := invoke glFlush in
        let* _ := invoke (eglDupNativeFenceFDANDROID dpy sync) in
        let fenceFd := dupedNativeFenceFd w in
        let* _ := invoke (eglDestroySyncKHR dpy sync) in
        if fenceFd =? EGL_NO_NATIVE_FENCE_FD_ANDROID then
          let* _ := invoke eglGetError in ret UNKNOWN_ERROR
        else
          let fence : Fence := fenceFd in
          let* buf := currentGraphicBuffer in
          let* _ := invoke (ConsumerBase_addReleaseFence (mCurrentTexture (cur s)) buf fence) in
          let err := addedReleaseFence w in
          if negb (err =? OK) then ret err else ret OK
    else ret OK
  else ret OK.

(** Lines 411-422. *)
Definition computeCurrentTransformMatrixLocked (w : World) : M unit :=
  let* s := get in
  let* buf :=
    match mCurrentTextureImage (cur s) with
    | None => ret None
    | Some r => let* img := deref r in ret (Some (EglImage.mGraphicBuffer img))
    end in
  match computeTransformMatrix buf
          (if isEglImageCroppable w (mCurrentCrop (cur s))
           then Rect.EMPTY_RECT else mCurrentCrop (cur s))
          (mCurrentTransform (cur s)) (mFilteringEnabled s) with
  | None => undefined
  | Some m => modify (fun s => set_cur (set_mCurrentTransformMatrix m (cur s)) s)
  end.

(** Lines 272-282: the new state of the current binding; the matrix is
    recomputed right after (line 284). *)
Definition committed (slot : Z) (nextTextureImage : option ref)
    (item : BufferItem.t) (b : Binding) : Binding :=
  mkBinding slot nextTextureImage (BufferItem.mCrop item) (BufferItem.mTransform item)
    (BufferItem.mScalingMode item) (BufferItem.mTimestamp item)
    (BufferItem.mDataSpace item) (BufferItem.mFence item)
    (BufferItem.mFenceTime item) (BufferItem.mFrameNumber item)
    (mCurrentTransformMatrix b).

(** [updateAndReleaseLocked] (lines 206-287). [pendingRelease] is [None]
    for a null pointer; the structure pointed to is returned with the
    status. The local [nextTextureImage] holds its object from line 252
    to the end; the assignment of line 274 drops the pointer
    [mCurrentTextureImage] held. *)
Definition updateAndReleaseLocked (w : World) (item : BufferItem.t)
    (pendingRelease : option PendingRelease) : M (Z * option PendingRelease) :=
  let slot := BufferItem.mSlot item in
  (* Confirm state. *)
  let* err := checkAndUpdateEglStateLocked w in
  if negb (err =? NO_ERROR) then
    let* _ := releaseBufferLocked w slot (baseSlotBuffer w slot) in
    ret (err, pendingRelease)
  else
  let* image := read_mEglSlots slot in
  match image with
  | None => undefined
  | Some r =>
  let* s := get in
  let* err := createIfNeeded w (createdImage w) r (mEglDisplay s) (BufferItem.mCrop item) in
  if negb (err =? NO_ERROR) then
    let* _ := releaseBufferLocked w slot (baseSlotBuffer w slot) in
    ret (UNKNOWN_ERROR, pendingRelease)
  else
  (* Do whatever sync ops we need to do before releasing the old slot. *)
  let* s := get in
  let* err :=
    if negb (slot =? mCurrentTexture (cur s))
    then syncForReleaseLocked w (mEglDisplay s)
    else ret err in
  if negb (err =? NO_ERROR) then
    let* _ := releaseBufferLocked w slot (baseSlotBuffer w slot) in
    ret (err, pendingRelease)
  else
  let* nextTextureImage := read_mEglSlots slot in
  (* release old buffer *)
  let* s := get in
  let* (err, pendingRelease) :=
    if negb (mCurrentTexture (cur s) =? INVALID_BUFFER_SLOT) then
      match pendingRelease with
      | None =>
          let* buf := currentGraphicBuffer in
          let* status := releaseBufferLocked_holding nextTextureImage w
                           (mCurrentTexture (cur s)) (Some buf) in
          if status <? NO_ERROR then ret (status, pendingRelease)
          else ret (err, pendingRelease)
      | Some _ =>
          let* buf := currentGraphicBuffer in
          ret (err, Some (mkPendingRelease true (mCurrentTexture (cur s)) (Some buf)))
      end
    else ret (err, pendingRelease) in
  (* Update the BufferLayerConsumer state. *)
  let* s := get in
  let* _ := modify (fun s => set_cur (committed slot nextTextureImage item (cur s)) s) in
  let* _ := decStrong nextTextureImage (mCurrentTextureImage (cur s)) in
  let* _ := computeCurrentTransformMatrixLocked w in
  let* _ := decStrong None nextTextureImage in
  ret (err, pendingRelease)
  end.

(** The loop of lines 295-298: [glGetError] is called until it answers
    [GL_NO_ERROR]; [pending] are the answers still to come. *)
Fixpoint clearGlErrors (pending : list Z) : M unit :=
  let* _ := invoke glGetError in
  match pending with
  | [] => ret tt
  | error :: pending' =>
      if error =? GL_NO_ERROR then ret tt else clearGlErrors pending'
  end.

(** Lines 594-644. *)
Definition doGLFenceWaitLocked (w : World) : M Z :=
  let dpy := eglGetCurrentDisplay w in
  let ctx := eglGetCurrentContext w in
  let* s := get in
  if negb (mEglDisplay s =? dpy) || (mEglDisplay s =? EGL_NO_DISPLAY) then
    ret INVALID_OPERATION
  else if negb (mEglContext s =? ctx) || (mEglContext s =? EGL_NO_CONTEXT) then
    ret INVALID_OPERATION
  else if Fence_isValid (mCurrentFence (cur s)) then
    if useWaitSync w then
      let* _ := invoke (Fence_dup (mCurrentFence (cur s))) in
      let fenceFd := dupedFenceFd w in
      if fenceFd =? -1 then ret (- errno w)
      else
        let* _ := invoke (eglCreateSyncKHR dpy (Some fenceFd)) in
        let sync := createdWaitSync w in
        if sync =? EGL_NO_SYNC_KHR then
          let* _ := invoke (close fenceFd) in
          let* _ := invoke eglGetError in
          ret UNKNOWN_ERROR
        else
          let* _ := invoke (eglWaitSyncKHR dpy sync) in
          let* _ := invoke eglGetError in
          let eglErr := waitSyncError w in
          let* _ := invoke (eglDestroySyncKHR dpy sync) in
          if negb (eglErr =? EGL_SUCCESS) then ret UNKNOWN_ERROR else ret NO_ERROR
    else
      let* _ := invoke (Fence_waitForever (mCurrentFence (cur s))) in
      let err := waitedForever w in
      if negb (err =? NO_ERROR) then ret err else ret NO_ERROR
  else ret NO_ERROR.

(** Lines 289-316. *)
Definition bindTextureImageLocked (w : World) : M Z :=
  let* s := get in
  if mEglDisplay s =? EGL_NO_DISPLAY then ret INVALID_OPERATION
  else
    let* _ := clearGlErrors (pendingGlErrors w) in
    let* _ := invoke (glBindTexture sTexTarget (mTexName s)) in
    match mCurrentTextureImage (cur s) with
    | None =>
        if mCurrentTexture (cur s) =? INVALID_BUFFER_SLOT then ret NO_INIT
        else undefined
    | Some r =>
        let* err := createIfNeeded w (createdImageAtBind w) r (mEglDisplay s)
                      (mCurrentCrop (cur s)) in
        if negb (err =? NO_ERROR) then ret UNKNOWN_ERROR
        else
          let* img := deref r in
          let* _ := invoke (glEGLImageTargetTexture2DOES sTexTarget (EglImage.mEglImage img)) in
          (* Wait for the new buffer to be ready. *)
          doGLFenceWaitLocked w
    end.

(** [updateTexImage] (lines 142-186). *)
Definition updateTexImage (w : World) : M Z :=
  let* s := get in
  if mAbandoned s then ret NO_INIT
  else
  (* Make sure the EGL state is the same as in previous calls. *)
  let* err := checkAndUpdateEglStateLocked w in
  if negb (err =? NO_ERROR) then ret err
  else
  (* Acquire the next buffer. *)
  let* (err, item) := acquireBufferLocked w in
  if negb (err =? NO_ERROR) then
    if err =? NO_BUFFER_AVAILABLE then
      (* We always bind the texture even if we don't update its contents. *)
      let* _ := invoke (glBindTexture sTexTarget (mTexName s)) in
      ret NO_ERROR
    else ret err
  else
  (* Release the previous buffer. *)
  let* (err, _) := updateAndReleaseLocked w item None in
  if negb (err =? NO_ERROR) then
    (* We always bind the texture. *)
    let* _ := invoke (glBindTexture sTexTarget (mTexName s)) in
    ret err
  else
  (* Bind the new buffer to the GL texture, and wait until it's ready. *)
  bindTextureImageLocked w.

(** Lines 131-140. *)
Definition setDefaultBufferSize (w : World) (width height : Z) : M Z :=
  let* s := get in
  if mAbandoned s then ret NO_INIT
  else
    let* _ := modify (set_defaultSize width height) in
    let* _ := invoke (mConsumer_setDefaultBufferSize width height) in
    ret (setDefaultBufferSizeStatus w).

(** Lines 344-352. [addReleaseFence] is the base class's. *)
Definition setReleaseFence (w : World) (fence : Fence) : M unit :=
  let* s := get in
  if Fence_isValid fence && negb (mCurrentTexture (cur s) =? INVALID_BUFFER_SLOT) then
    let* buf := currentGraphicBuffer in
    invoke (ConsumerBase_addReleaseFence (mCurrentTexture (cur s)) buf fence)
  else ret tt.

(** Lines 388-391. *)
Definition getTransformMatrix : M (list float32) :=
  let* s := get in ret (mCurrentTransformMatrix (cur s)).

(** Lines 393-409. *)
Definition setFilteringEnabled (w : World) (enabled : bool) : M unit :=
  let* s := get in
  if mAbandoned s then ret tt
  else
    let needsRecompute := negb (Bool.eqb (mFilteringEnabled s) enabled) in
    let* _ := modify (set_mFilteringEnabled enabled) in
    match mCurrentTextureImage (cur s) with
    | Some _ => if needsRecompute then computeCurrentTransformMatrixLocked w else ret tt
    | None => ret tt
    end.

(** Lines 539-592: the accessors. *)
Definition getTimestamp : M Z := let* s := get in ret (mCurrentTimestamp (cur s)).
Definition getCurrentDataSpace : M Z := let* s := get in ret (mCurrentDataSpace (cur s)).
Definition getFrameNumber : M Z := let* s := get in ret (mCurrentFrameNumber (cur s)).

(** The result is the buffer (null for [None]) and the value stored
    through [outSlot]. *)
Definition getCurrentBuffer : M (option GraphicBuffer * Z) :=
  let* s := get in
  let outSlot := mCurrentTexture (cur s) in
  match mCurrentTextureImage (cur s) with
  | None => ret (None, outSlot)
  | Some r => let* img := deref r in ret (Some (EglImage.mGraphicBuffer img), outSlot)
  end.

Definition getCurrentCrop : M Rect.t :=
  let* s := get in
  if mCurrentScalingMode (cur s) =? NATIVE_WINDOW_SCALING_MODE_SCALE_CROP
  then ret (scaleDownCrop (mCurrentCrop (cur s)) (mDefaultWidth s) (mDefaultHeight s))
  else ret (mCurrentCrop (cur s)).

Definition getCurrentTransform : M Z := let* s := get in ret (mCurrentTransform (cur s)).
Definition getCurrentScalingMode : M Z := let* s := get in ret (mCurrentScalingMode (cur s)).
Definition getCurrentFence : M Fence := let* s := get in ret (mCurrentFence (cur s)).
Definition getCurrentFenceTime : M FenceTime :=
  let* s := get in ret (mCurrentFenceTime (cur s)).

(** Lines 655-659. *)
Definition abandonLocked : M unit :=
  let* s := get in
  let* _ := modify (fun s => set_cur (set_mCurrentTextureImage None (cur s)) s) in
  let* _ := decStrong None (mCurrentTextureImage (cur s)) in
  invoke ConsumerBase_abandonLocked.

(** Lines 661-663. *)
Definition setConsumerUsageBits (w : World) (usage : Z) : M Z :=
  let* _ := invoke (ConsumerBase_setConsumerUsageBits (Z.lor usage DEFAULT_USAGE_FLAGS)) in
  ret (setConsumerUsageBitsStatus w).

(** The constructor (lines 108-129): the members after construction and
    the one call it makes on the queue. *)
Definition BufferLayerConsumer (tex : Z) : Consumer :=
  mkConsumer
    (mkBinding INVALID_BUFFER_SLOT None Rect.EMPTY_RECT 0
       NATIVE_WINDOW_SCALING_MODE_FREEZE 0 HAL_DATASPACE_UNKNOWN NO_FENCE
       FenceTime_NO_FENCE 0 (asArray mtxIdentity))
    false 1 1 true tex EGL_NO_DISPLAY EGL_NO_CONTEXT
    (replicate (Z.to_nat NUM_BUFFER_SLOTS) None) []
    [mConsumer_setConsumerUsageBits DEFAULT_USAGE_FLAGS].

(** *** The public operations, uniformly *)
Inductive Op : Type :=
| op_setDefaultBufferSize (w h : Z)
| op_updateTexImage
| op_setReleaseFence (fence : Fence)
| op_getTransformMatrix
| op_setFilteringEnabled (enabled : bool)
| op_getTimestamp
| op_getCurrentDataSpace
| op_getFrameNumber
| op_getCurrentBuffer
| op_getCurrentCrop
| op_getCurrentTransform
| op_getCurrentScalingMode
| op_getCurrentFence
| op_getCurrentFenceTime
| op_setConsumerUsageBits (usage : Z).

(** What an operation hands back to its caller. *)
Inductive Ret : Type :=
| r_status (err : Z)
| r_void
| r_matrix (mtx : list float32)
| r_int (value : Z)
| r_buffer (buf : option GraphicBuffer) (slot : Z)
| r_rect (crop : Rect.t)
| r_fence (fence : Fence)
| r_fenceTime (fenceTime : FenceTime).

Definition fmapM {A B} (f : A -> B) (m : M A) : M B := let* a := m in ret (f a).

Definition perform (w : World) (op : Op) : M Ret :=
  match op with
  | op_setDefaultBufferSize width height => fmapM r_status (setDefaultBufferSize w width height)
  | op_updateTexImage => fmapM r_status (updateTexImage w)
  | op_setReleaseFence fence => fmapM (fun _ => r_void) (setReleaseFence w fence)
  | op_getTransformMatrix => fmapM r_matrix getTransformMatrix
  | op_setFilteringEnabled enabled => fmapM (fun _ => r_void) (setFilteringEnabled w enabled)
  | op_getTimestamp => fmapM r_int getTimestamp
  | op_getCurrentDataSpace => fmapM r_int getCurrentDataSpace
  | op_getFrameNumber => fmapM r_int getFrameNumber
  | op_getCurrentBuffer => fmapM (fun p => r_buffer (fst p) (snd p)) getCurrentBuffer
  | op_getCurrentCrop => fmapM r_rect getCurrentCrop
  | op_getCurrentTransform => fmapM r_int getCurrentTransform
  | op_getCurrentScalingMode => fmapM r_int getCurrentScalingMode
  | op_getCurrentFence => fmapM r_fence getCurrentFence
  | op_getCurrentFenceTime => fmapM r_fenceTime getCurrentFenceTime
  | op_setConsumerUsageBits usage => fmapM r_status (setConsumerUsageBits w usage)
  end.

(** A sequence of operations, each in its own world, with their results. *)
Fixpoint performAll (l : list (World * Op)) : M (list Ret) :=
  match l with
  | [] => ret []
  | (w, op) :: l' =>
      let* r := perform w op in
      let* rs := performAll l' in
      ret (r :: rs)
  end.

(** *** Well-formed consumers

    The slot array has its [NUM_BUFFER_SLOTS] entries, every [sp<EglImage>]
    refers to an object of the store, and a bound slot is a slot of the
    array with an image. *)
Definition ref_ok (s : Consumer) (r : option ref) : bool :=
  match r with
  | None => true
  | Some r => (r <? length (images s))%nat
  end.

Definition well_formed (s : Consumer) : bool :=
  (length (mEglSlots s) =? Z.to_nat NUM_BUFFER_SLOTS)%nat &&
  forallb (ref_ok s) (mEglSlots s) &&
  ref_ok s (mCurrentTextureImage (cur s)) &&
  ((mCurrentTexture (cur s) =? INVALID_BUFFER_SLOT) ||
   (slot_in_bounds (mCurrentTexture (cur s)) &&
    match mCurrentTextureImage (cur s) with Some _ => true | None => false end)).

(** The consumer of the examples: texture name 7, after one update that
    bound slot 3 (a 100x100 RGBA buffer, transform rot-90, frame 7). *)
Definition example_buffer : GraphicBuffer :=
  mkGraphicBuffer 77 100 100 100 0 PIXEL_FORMAT_RGBA_8888.

Definition example_item (slot frame : Z) : BufferItem.t :=
  BufferItem.mk (Some example_buffer) slot (Rect.mk 0 0 100 100)
    NATIVE_WINDOW_TRANSFORM_ROT_90 NATIVE_WINDOW_SCALING_MODE_FREEZE
    1000 HAL_DATASPACE_UNKNOWN 5 9 frame.

(** A world in which every collaborator succeeds: display and context 1,
    legacy fence waits, no crop extension. *)
Definition example_world (acq : Z * BufferItem.t) : World :=
  mkWorld 1 1 false false acq (fun _ => Some example_buffer) (fun _ => NO_ERROR)
    (fun _ => false) OK NO_ERROR NO_ERROR 11 12 true 21 22 [] false 31 0 41
    EGL_SUCCESS NO_ERROR.

Definition after (m : M Z) (s : Consumer) : Consumer :=
  match m s with
  | Some (_, s') => s'
  | None => s
  end.

Definition example_bound : Consumer :=
  Eval vm_compute in
    after (updateTexImage (example_world (NO_ERROR, example_item 3 7)))
          (BufferLayerConsumer 7).

(** The example consumer with a scale-to-crop binding: crop 100x101,
    default size 1x1. *)
Definition example_scale_crop : Consumer :=
  set_cur (mkBinding 3 (Some 0%nat) (Rect.mk 0 0 100 101) 0
             NATIVE_WINDOW_SCALING_MODE_SCALE_CROP 1000 HAL_DATASPACE_UNKNOWN 5 9 7
             (mCurrentTransformMatrix (cur example_bound)))
          example_bound.

(** The example consumer abandoned: [abandonLocked] has run, the base
    class has freed the bound slot during it and has set its Abandoned
    flag. *)
Definition example_abandoned : Consumer :=
  Eval vm_compute in
    set_mAbandoned true
      (after (let* _ := abandonLocked in
              let* _ := freeBufferLocked 3 in
              ret 0)
             example_bound).

(** What an operation of an abandoned consumer does: the operations
    that test the flag refuse, the accessors answer from the stored
    binding, and the two remaining setters, which do not test the flag,
    go to the base class as they always do. *)
Definition abandoned_outcome (w : World) (op : Op) (s : Consumer) : option (Ret * Consumer) :=
  match op with
  | op_updateTexImage | op_setDefaultBufferSize _ _ => Some (r_status NO_INIT, s)
  | op_setFilteringEnabled _ => Some (r_void, s)
  | op_getTransformMatrix => Some (r_matrix (mCurrentTransformMatrix (cur s)), s)
  | op_getTimestamp => Some (r_int (mCurrentTimestamp (cur s)), s)
  | op_getCurrentDataSpace => Some (r_int (mCurrentDataSpace (cur s)), s)
  | op_getFrameNumber => Some (r_int (mCurrentFrameNumber (cur s)), s)
  | op_getCurrentBuffer =>
      match mCurrentTextureImage (cur s) with
      | None => Some (r_buffer None (mCurrentTexture (cur s)), s)
      | Some r =>
          match images s !! r with
          | Some img =>
              Some (r_buffer (Some (EglImage.mGraphicBuffer img)) (mCurrentTexture (cur s)), s)
          | None => None
          end
      end
  | op_getCurrentCrop =>
      Some (r_rect
              (if mCurrentScalingMode (cur s) =? NATIVE_WINDOW_SCALING_MODE_SCALE_CROP
               then scaleDownCrop (mCurrentCrop (cur s)) (mDefaultWidth s) (mDefaultHeight s)
               else mCurrentCrop (cur s)), s)
  | op_getCurrentTransform => Some (r_int (mCurrentTransform (cur s)), s)
  | op_getCurrentScalingMode => Some (r_int (mCurrentScalingMode (cur s)), s)
  | op_getCurrentFence => Some (r_fence (mCurrentFence (cur s)), s)
  | op_getCurrentFenceTime => Some (r_fenceTime (mCurrentFenceTime (cur s)), s)
  | op_setReleaseFence fence =>
      if Fence_isValid fence && negb (mCurrentTexture (cur s) =? INVALID_BUFFER_SLOT) then
        match mCurrentTextureImage (cur s) with
        | None => None
        | Some r =>
            match images s !! r with
            | Some img =>
                Some (r_void,
                      set_calls (calls s ++
                        [ConsumerBase_addReleaseFence (mCurrentTexture (cur s))
                           (EglImage.mGraphicBuffer img) fence]) s)
            | None => None
            end
        end
      else Some (r_void, s)
  | op_setConsumerUsageBits usage =>
      Some (r_status (setConsumerUsageBitsStatus w),
            set_calls (calls s ++
              [ConsumerBase_setConsumerUsageBits (Z.lor usage DEFAULT_USAGE_FLAGS)]) s)
  end.

(** The members outside the current binding, the slot array and the
    store are the same in [s] and [s']. *)
Definition same_settings (s s' : Consumer) : Prop :=
  mAbandoned s' = mAbandoned s /\ mDefaultWidth s' = mDefaultWidth s /\
  mDefaultHeight s' = mDefaultHeight s /\ mFilteringEnabled s' = mFilteringEnabled s /\
  mTexName s' = mTexName s /\ mEglDisplay s' = mEglDisplay s /\
  mEglContext s' = mEglContext s.

(** The answers with which the release synchronisation of lines 358-382
    fails, and those with which it succeeds. *)
Definition releaseSyncFails (w : World) : Prop :=
  useNativeFenceSync w = true /\
  (createdReleaseSync w = EGL_NO_SYNC_KHR \/
   dupedNativeFenceFd w = EGL_NO_NATIVE_FENCE_FD_ANDROID \/
   addedReleaseFence w <> OK).

Definition releaseSyncSucceeds (w : World) : Prop :=
  useNativeFenceSync w = false \/
  (createdReleaseSync w <> EGL_NO_SYNC_KHR /\
   dupedNativeFenceFd w <> EGL_NO_NATIVE_FENCE_FD_ANDROID /\
   addedReleaseFence w = OK).

(** The calls of the release synchronisation. *)
Definition is_sync_call (c : Call) : bool :=
  match c with
  | eglCreateSyncKHR _ _ | eglDupNativeFenceFDANDROID _ _ | eglDestroySyncKHR _ _
  | glFlush | ConsumerBase_addReleaseFence _ _ _ => true
  | _ => false
  end.

(** The binding an update commits for [item], whose slot holds the image
    object [r] of buffer [buf]: the item's fields and the matrix computed
    from them (lines 272-284, 411-422). *)
Definition committedBinding (w : World) (item : BufferItem.t) (r : ref)
    (buf : GraphicBuffer) (filtering : bool) : Binding :=
  mkBinding (BufferItem.mSlot item) (Some r) (BufferItem.mCrop item)
    (BufferItem.mTransform item) (BufferItem.mScalingMode item)
    (BufferItem.mTimestamp item) (BufferItem.mDataSpace item)
    (BufferItem.mFence item) (BufferItem.mFenceTime item)
    (BufferItem.mFrameNumber item)
    (asArray (pipeline multiply_right multiply_left buf
                (if isEglImageCroppable w (BufferItem.mCrop item)
                 then Rect.EMPTY_RECT else BufferItem.mCrop item)
                (BufferItem.mTransform item) filtering)).

(** The world [w] with other answers to the release synchronisation. *)
Definition with_release_sync (w : World) (native : bool) (sync fd status : Z) : World :=
  mkWorld (eglGetCurrentDisplay w) (eglGetCurrentContext w)
    (hasEglAndroidImageCrop w) (hasEglProtectedContent w) (acquired w)
    (baseSlotBuffer w) (released w) (releaseFreesSlot w) status
    (setDefaultBufferSizeStatus w) (setConsumerUsageBitsStatus w)
    (createdImage w) (createdImageAtBind w) native sync fd
    (pendingGlErrors w) (useWaitSync w) (dupedFenceFd w) (errno w)
    (createdWaitSync w) (waitSyncError w) (waitedForever w).

(** The example consumer in the middle of a second update: the context
    check has passed and slot 4 has been acquired. *)
Definition example_acquired : Consumer :=
  Eval vm_compute in
    match acquireBufferLocked (example_world (NO_ERROR, example_item 4 8)) example_bound with
    | Some (_, s) => s
    | None => example_bound
    end.

(** The collaborators of the second update: the queue refuses the release
    of the old buffer with status -5, or the release fence cannot be
    created. *)
Definition example_world_release_fails : World :=
  mkWorld 1 1 false false (NO_ERROR, example_item 4 8) (fun _ => Some example_buffer)
    (fun _ => -5) (fun _ => false) OK NO_ERROR NO_ERROR 11 12 true 21 22 [] false 31 0 41
    EGL_SUCCESS NO_ERROR.

Definition example_world_sync_fails : World :=
  with_release_sync (example_world (NO_ERROR, example_item 4 8))
    true EGL_NO_SYNC_KHR 22 OK.





(** ** The extension probes (lines 48-102) *)

From Stdlib Require Ascii String.
Import Ascii.AsciiSyntax String.StringSyntax.
Local Delimit Scope string_scope with string.
Local Delimit Scope char_scope with char.

(** A C string is the list of its characters before the terminator; a
    pointer into it is the rest of the string from that position. *)
Definition c_string : Type := list Ascii.ascii.

(** Lines 49-50. *)
Definition CROP_EXT_STR : c_string :=
  String.list_ascii_of_string "EGL_ANDROID_image_crop"%string.
Definition PROT_CONTENT_EXT_STR : c_string :=
  String.list_ascii_of_string "EGL_EXT_protected_content"%string.

(** Modelled from the spec: string.h is not among the sources; [strlen]
    counts the characters, [strcmp] and [strncmp] answer 0 for equal
    strings (the latter looking at no more than [n] characters) and the
    sign of the first difference otherwise, and [strstr] answers the
    position of the first occurrence of the needle, or null. *)
Definition strlen (s : c_string) : Z := Z.of_nat (length s).

Fixpoint strcmp (a b : c_string) : Z :=
  match a, b with
  | [], [] => 0
  | [], _ :: _ => -1
  | _ :: _, [] => 1
  | x :: a', y :: b' =>
      if Ascii.eqb x y then strcmp a' b'
      else if (Ascii.N_of_ascii x <? Ascii.N_of_ascii y)%N then -1 else 1
  end.

Fixpoint strncmp (a b : c_string) (n : nat) {struct n} : Z :=
  match n with
  | O => 0
  | S n' =>
      match a, b with
      | [], [] => 0
      | [], _ :: _ => -1
      | _ :: _, [] => 1
      | x :: a', y :: b' =>
          if Ascii.eqb x y then strncmp a' b' n'
          else if (Ascii.N_of_ascii x <? Ascii.N_of_ascii y)%N then -1 else 1
      end
  end.

Fixpoint starts_with (s needle : c_string) {struct needle} : bool :=
  match needle, s with
  | [], _ => true
  | _ :: _, [] => false
  | x :: needle', y :: s' => Ascii.eqb x y && starts_with s' needle'
  end.

Fixpoint strstr (haystack needle : c_string) : option c_string :=
  if starts_with haystack needle then Some haystack
  else match haystack with
       | [] => None
       | _ :: haystack' => strstr haystack' needle
       end.

(** The conversion of a pointer to [bool]. *)
Definition non_null {A} (p : option A) : bool :=
  match p with Some _ => true | None => false end.

(** Lines 64-75. [queried] is the string EGL answers, null for [None];
    the result is [None] when the null string is measured. *)
Definition hasEglAndroidImageCropImpl (queried : option c_string) : option bool :=
  match queried with
  | None => None
  | Some exts =>
      let cropExtLen := strlen CROP_EXT_STR in
      let extsLen := strlen exts in
      let equal := strcmp CROP_EXT_STR exts =? 0 in
      let atStart :=
        strncmp (CROP_EXT_STR ++ [" "%char]) exts (Z.to_nat (cropExtLen + 1)) =? 0 in
      let atEnd :=
        (cropExtLen + 1 <? extsLen) &&
        (strcmp (" "%char :: CROP_EXT_STR)
                (drop (Z.to_nat (extsLen - (cropExtLen + 1))) exts) =? 0) in
      let inMiddle := non_null (strstr exts (" "%char :: CROP_EXT_STR ++ [" "%char])) in
      Some (equal || atStart || atEnd || inMiddle)
  end.

(** Lines 84-95. *)
Definition hasEglProtectedContentImpl (queried : option c_string) : option bool :=
  match queried with
  | None => None
  | Some exts =>
      let cropExtLen := strlen PROT_CONTENT_EXT_STR in
      let extsLen := strlen exts in
      let equal := strcmp PROT_CONTENT_EXT_STR exts =? 0 in
      let atStart :=
        strncmp (PROT_CONTENT_EXT_STR ++ [" "%char]) exts (Z.to_nat (cropExtLen + 1)) =? 0 in
      let atEnd :=
        (cropExtLen + 1 <? extsLen) &&
        (strcmp (" "%char :: PROT_CONTENT_EXT_STR)
                (drop (Z.to_nat (extsLen - (cropExtLen + 1))) exts) =? 0) in
      let inMiddle :=
        non_null (strstr exts (" "%char :: PROT_CONTENT_EXT_STR ++ [" "%char])) in
      Some (equal || atStart || atEnd || inMiddle)
  end.

(** The entries of an extension string: the pieces between its spaces. *)
Fixpoint entries (exts : c_string) : list c_string :=
  match exts with
  | [] => [[]]
  | c :: exts' =>
      if Ascii.eqb c " "%char then [] :: entries exts'
      else match entries exts' with
           | first :: others => (c :: first) :: others
           | [] => [[c]]
           end
  end.

(** The probe of an extension named [name], as both probes are written. *)
Definition probe (name exts : c_string) : bool :=
  (strcmp name exts =? 0)
  || (strncmp (name ++ [" "%char]) exts (Z.to_nat (strlen name + 1)) =? 0)
  || ((strlen name + 1 <? strlen exts) &&
      (strcmp (" "%char :: name)
              (drop (Z.to_nat (strlen exts - (strlen name + 1))) exts) =? 0))
  || non_null (strstr exts (" "%char :: name ++ [" "%char])).

(** ** The attribute array of [EglImage::createImage] (lines 736-765) *)

(** Modelled from the spec: EGL/egl.h and EGL/eglext.h are not among the
    sources; the attribute names carry the platform's values, and an
    attribute list is read as name and value pairs up to the first
    [EGL_NONE] in the place of a name. [EGL_PROTECTED_CONTENT_EXT] is
    line 51. *)
Definition EGL_NONE : Z := 12344.
Definition EGL_TRUE : Z := 1.
Definition EGL_IMAGE_PRESERVED_KHR : Z := 12498.
Definition EGL_IMAGE_CROP_LEFT_ANDROID : Z := 12616.
Definition EGL_IMAGE_CROP_TOP_ANDROID : Z := 12617.
Definition EGL_IMAGE_CROP_RIGHT_ANDROID : Z := 12618.
Definition EGL_IMAGE_CROP_BOTTOM_ANDROID : Z := 12619.
Definition EGL_PROTECTED_CONTENT_EXT : Z := 12992.

Fixpoint attribList (attrs : list Z) : list (Z * Z) :=
  match attrs with
  | name :: rest =>
      if name =? EGL_NONE then []
      else match rest with
           | value :: attrs' => (name, value) :: attribList attrs'
           | [] => []
           end
  | [] => []
  end.

(** Lines 734-765: the local [attrs] when it is handed to
    [eglCreateImageKHR]. The array has thirteen entries; an assignment
    to [attrs[i]] is an update at [i]. *)
Definition createImage_attrs (w : World) (graphicBuffer : GraphicBuffer)
    (crop : Rect.t) : list Z :=
  let createProtectedImage :=
    has_bit (getUsage graphicBuffer) GRALLOC_USAGE_PROTECTED && hasEglProtectedContent w in
  let attrs :=
    [ EGL_IMAGE_PRESERVED_KHR; EGL_TRUE;
      EGL_IMAGE_CROP_LEFT_ANDROID; Rect.left crop;
      EGL_IMAGE_CROP_TOP_ANDROID; Rect.top crop;
      EGL_IMAGE_CROP_RIGHT_ANDROID; Rect.right crop;
      EGL_IMAGE_CROP_BOTTOM_ANDROID; Rect.bottom crop;
      if createProtectedImage then EGL_PROTECTED_CONTENT_EXT else EGL_NONE;
      if createProtectedImage then EGL_TRUE else EGL_NONE;
      EGL_NONE ] in
  let leave_out_crop (attrs : list Z) : list Z :=
    let attrs := <[2%nat := attrs !!! 10%nat]> attrs in
    let attrs := <[3%nat := attrs !!! 11%nat]> attrs in
    <[4%nat := EGL_NONE]> attrs in
  if negb (Rect.isValid crop) then leave_out_crop attrs
  else if negb (isEglImageCroppable w crop) then leave_out_crop attrs
  else attrs.

(** The attribute list that stands for a crop attribute and a protected
    flag, as the call [eglCreateImageKHR] of [createImage] records
    them. *)
Definition attributes_of (cropAttribute : option Rect.t) (protected : bool) : list (Z * Z) :=
  (EGL_IMAGE_PRESERVED_KHR, EGL_TRUE) ::
  match cropAttribute with
  | Some crop =>
      [ (EGL_IMAGE_CROP_LEFT_ANDROID, Rect.left crop);
        (EGL_IMAGE_CROP_TOP_ANDROID, Rect.top crop);
        (EGL_IMAGE_CROP_RIGHT_ANDROID, Rect.right crop);
        (EGL_IMAGE_CROP_BOTTOM_ANDROID, Rect.bottom crop) ]
  | None => []
  end ++
  (if protected then [(EGL_PROTECTED_CONTENT_EXT, EGL_TRUE)] else []).

(** The space between two entries. *)
Definition sp : Ascii.ascii := " "%char.

(** The first entry of an extension string, and the entries after it. *)
Definition first_entry (n s : c_string) : Prop :=
  ~ In sp n /\ (s = n \/ exists r, s = n ++ sp :: r).

Definition later_entry (n s : c_string) : Prop :=
  ~ In sp n /\ ((exists l, s = l ++ sp :: n) \/ exists l r, s = l ++ sp :: n ++ sp :: r).

(** ** Frames of the member functions *)

(** Whenever [m] returns, the consumer before and after are related by
    [R]. *)
Definition framed {A} (R : Consumer -> Consumer -> Prop) (m : M A) : Prop :=
  forall s a s', m s = Some (a, s') -> R s s'.

(** Every object of the store, destroyed or not, reads the buffer it
    read: no member function assigns to [mGraphicBuffer]. *)
Definition buffers_kept (s s' : Consumer) : Prop :=
  forall r img, images s !! r = Some img ->
    exists img', images s' !! r = Some img' /\
                 EglImage.mGraphicBuffer img' = EglImage.mGraphicBuffer img.

(** What no member function of this file changes: the abandoned flag,
    which is the base class's to set, and the texture name, a display
    and a context once they are set, the number of slots, and the
    buffers of the image objects. *)
Definition latched (s s' : Consumer) : Prop :=
  mAbandoned s' = mAbandoned s /\ mTexName s' = mTexName s /\
  (mEglDisplay s <> EGL_NO_DISPLAY -> mEglDisplay s' = mEglDisplay s) /\
  (mEglContext s <> EGL_NO_CONTEXT -> mEglContext s' = mEglContext s) /\
  length (mEglSlots s') = length (mEglSlots s) /\
  buffers_kept s s'.

(** The settings of the setters are the same. *)
Definition settled (s s' : Consumer) : Prop :=
  mFilteringEnabled s' = mFilteringEnabled s /\
  mDefaultWidth s' = mDefaultWidth s /\ mDefaultHeight s' = mDefaultHeight s.

(** The bindings of the texture. *)
Definition is_glBindTexture (c : Call) : bool :=
  match c with glBindTexture _ _ => true | _ => false end.

(** The calls are those of before followed by calls that all satisfy
    [ok]. *)
Definition calls_added (ok : Call -> bool) (s s' : Consumer) : Prop :=
  exists cs, calls s' = calls s ++ cs /\ forallb ok cs = true.

(** The calls on EGL and GL of the steps of an update, the binding of
    the texture apart, and the release fences, which are only added for
    a slot. *)
Definition quiet_ok (c : Call) : bool :=
  match c with
  | glGetError | glFlush | glEGLImageTargetTexture2DOES _ _
  | eglInitialize _ | eglTerminate _ | eglCreateImageKHR _ _ _ _
  | eglDestroyImageKHR _ _ | eglGetError | eglCreateSyncKHR _ _
  | eglDupNativeFenceFDANDROID _ _ | eglDestroySyncKHR _ _ | eglWaitSyncKHR _ _
  | Fence_dup _ | Fence_waitForever _ | close _ => true
  | ConsumerBase_addReleaseFence slot _ _ => negb (slot =? INVALID_BUFFER_SLOT)
  | _ => false
  end.

(** The calls of the steps of an update, the binding of the texture
    apart: no call that belongs to a setter, and a release fence only
    for a slot. *)
Definition inner_ok (c : Call) : bool :=
  match c with
  | glBindTexture _ _ | ConsumerBase_setConsumerUsageBits _
  | mConsumer_setConsumerUsageBits _ | mConsumer_setDefaultBufferSize _ _
  | ConsumerBase_abandonLocked => false
  | ConsumerBase_addReleaseFence slot _ _ => negb (slot =? INVALID_BUFFER_SLOT)
  | _ => true
  end.

(** The frame of a step whose calls all satisfy [ok]. *)
Definition frame (ok : Call -> bool) (s s' : Consumer) : Prop :=
  latched s s' /\ settled s s' /\ calls_added ok s s'.

(** The calls of every operation: a usage that includes the default
    usage flags, and a release fence only for a slot. *)
Definition call_ok (c : Call) : bool :=
  match c with
  | ConsumerBase_setConsumerUsageBits usage | mConsumer_setConsumerUsageBits usage =>
      Z.land usage DEFAULT_USAGE_FLAGS =? DEFAULT_USAGE_FLAGS
  | ConsumerBase_addReleaseFence slot _ _ => negb (slot =? INVALID_BUFFER_SLOT)
  | _ => true
  end.

(** What a public operation keeps: the latched members, and calls that
    are all allowed. *)
Definition stable (s s' : Consumer) : Prop :=
  latched s s' /\ calls_added call_ok s s'.

(** ** Well-formed consumers, as a proposition *)
Definition wf (s : Consumer) : Prop :=
  length (mEglSlots s) = Z.to_nat NUM_BUFFER_SLOTS /\
  (forall i r, mEglSlots s !! i = Some (Some r) -> (r < length (images s))%nat) /\
  (forall r, mCurrentTextureImage (cur s) = Some r -> (r < length (images s))%nat) /\
  (mCurrentTexture (cur s) = INVALID_BUFFER_SLOT \/
   (slot_in_bounds (mCurrentTexture (cur s)) = true /\
    exists r, mCurrentTextureImage (cur s) = Some r)).

(** The image object [new EglImage(buffer)] constructs. *)
Definition fresh_EglImage (buffer : GraphicBuffer) : EglImage.t :=
  EglImage.mk buffer EGL_NO_IMAGE_KHR EGL_NO_DISPLAY Rect.EMPTY_RECT.

(** What the queue owes the consumer when it hands out a buffer: the slot
    is a slot of the array, and an item without a buffer is for a slot
    whose image the consumer still holds. *)
Definition queue_contract (w : World) (s : Consumer) : Prop :=
  fst (acquired w) = NO_ERROR ->
  slot_in_bounds (BufferItem.mSlot (snd (acquired w))) = true /\
  (BufferItem.mGraphicBuffer (snd (acquired w)) = None ->
   exists r, mEglSlots s !! Z.to_nat (BufferItem.mSlot (snd (acquired w))) = Some (Some r)).

(** ** The outcomes of an update *)

(** The frame was dropped: the binding is the one of before, except that
    the bound slot is forgotten when the queue has freed it. *)
Definition dropped (s s' : Consumer) : Prop :=
  cur s' = cur s \/ cur s' = set_mCurrentTexture INVALID_BUFFER_SLOT (cur s).

(** The frame [item], whose slot holds the image object [r], was
    committed: the binding is the item's with the matrix computed from
    it, and the image object holds an image of the slot's buffer on the
    consumer's display, which is the current one. *)
Definition committed_to (w : World) (item : BufferItem.t) (r : ref) (s' : Consumer) : Prop :=
  exists img',
    images s' !! r = Some img' /\
    cur s' = committedBinding w item r (EglImage.mGraphicBuffer img') (mFilteringEnabled s') /\
    EglImage.mEglImage img' <> EGL_NO_IMAGE_KHR /\
    EglImage.mEglDisplay img' = mEglDisplay s' /\
    (hasEglAndroidImageCrop w = true -> EglImage.mCropRect img' = BufferItem.mCrop item) /\
    mEglDisplay s' = eglGetCurrentDisplay w /\ mEglDisplay s' <> EGL_NO_DISPLAY /\
    mEglContext s' = eglGetCurrentContext w /\ mEglContext s' <> EGL_NO_CONTEXT.

(** The calls on the queue and on the base class. *)
Definition is_release (c : Call) : bool :=
  match c with ConsumerBase_releaseBufferLocked _ _ => true | _ => false end.

(** What became of the buffer that was bound when a frame was committed:
    with nothing bound there is nothing to hand back; without a pending
    release record the buffer is released to the queue and a negative
    status is the result; with a record the release is left to the
    caller, and the record names the slot and the buffer. *)
Definition handed_back (w : World) (p : option PendingRelease) (s : Consumer)
    (e : Z) (p' : option PendingRelease) (s' : Consumer) : Prop :=
  if mCurrentTexture (cur s) =? INVALID_BUFFER_SLOT then
    e = NO_ERROR /\ p' = p /\ calls_added quiet_ok s s'
  else
    exists r0 old,
      mCurrentTextureImage (cur s) = Some r0 /\ images s !! r0 = Some old /\
      match p with
      | None =>
          p' = None /\
          e = (if released w (mCurrentTexture (cur s)) <? NO_ERROR
               then released w (mCurrentTexture (cur s)) else NO_ERROR) /\
          exists cs cs',
            calls s' = calls s ++ cs ++
              ConsumerBase_releaseBufferLocked (mCurrentTexture (cur s))
                (Some (EglImage.mGraphicBuffer old)) :: cs' /\
            forallb quiet_ok cs = true /\ existsb is_release cs' = false
      | Some _ =>
          e = NO_ERROR /\
          p' = Some (mkPendingRelease true (mCurrentTexture (cur s))
                       (Some (EglImage.mGraphicBuffer old))) /\
          calls_added quiet_ok s s'
      end.

(** Nothing but the calls has changed. *)
Definition only_calls (s s' : Consumer) : Prop :=
  cur s' = cur s /\ images s' = images s /\ mEglSlots s' = mEglSlots s /\
  same_settings s s'.

(** The image object of the slot of the item the queue hands out: a new
    object when the item carries a buffer, the one the slot holds
    otherwise; and the buffer it wraps. *)
Definition acquired_image (w : World) (s : Consumer) (r : ref) : Prop :=
  match BufferItem.mGraphicBuffer (snd (acquired w)) with
  | Some _ => r = length (images s)
  | None => mEglSlots s !! Z.to_nat (BufferItem.mSlot (snd (acquired w))) = Some (Some r)
  end.

Definition acquired_buffer (w : World) (s : Consumer) (r : ref) (b : GraphicBuffer) : Prop :=
  match BufferItem.mGraphicBuffer (snd (acquired w)) with
  | Some buffer => b = buffer
  | None => exists img, images s !! r = Some img /\ b = EglImage.mGraphicBuffer img
  end.

(** The matrix of the binding is the one computed from the buffer, the
    crop, the transform and the filtering flag of the consumer. *)
Definition matrix_fresh (w : World) (s : Consumer) : Prop :=
  forall r, mCurrentTextureImage (cur s) = Some r ->
    exists img,
      images s !! r = Some img /\
      computeTransformMatrix (Some (EglImage.mGraphicBuffer img))
        (if isEglImageCroppable w (mCurrentCrop (cur s))
         then Rect.EMPTY_RECT else mCurrentCrop (cur s))
        (mCurrentTransform (cur s)) (mFilteringEnabled s) =
      Some (mCurrentTransformMatrix (cur s)).

(** The contract of the queue, as a test. *)
Definition queue_contract_holds (w : World) (s : Consumer) : bool :=
  let item := snd (acquired w) in
  negb (fst (acquired w) =? NO_ERROR) ||
  (slot_in_bounds (BufferItem.mSlot item) &&
   match BufferItem.mGraphicBuffer item with
   | Some _ => true
   | None =>
       match mEglSlots s !! Z.to_nat (BufferItem.mSlot item) with
       | Some (Some _) => true
       | _ => false
       end
   end).

(** The queue keeps its contract at every update of a sequence of
    operations that starts from [s]. *)
Fixpoint contract_kept (l : list (World * Op)) (s : Consumer) : bool :=
  match l with
  | [] => true
  | (w, op) :: l' =>
      match op with op_updateTexImage => queue_contract_holds w s | _ => true end &&
      match perform w op s with
      | Some (_, s') => contract_kept l' s'
      | None => true
      end
  end.

(** The crop extension is present in every world of the sequence, or in
    none. *)
Definition same_extension (w0 : World) (l : list (World * Op)) : Prop :=
  Forall (fun wo => hasEglAndroidImageCrop (fst wo) = hasEglAndroidImageCrop w0) l.

(** ** EGL references *)

(** The initialisations of the display [d] that the calls [cs] have not
    yet matched by a termination. *)
Fixpoint eglRefs (d : Z) (cs : list Call) : Z :=
  match cs with
  | [] => 0
  | c :: cs' =>
      match c with
      | eglInitialize d' => if d' =? d then 1 else 0
      | eglTerminate d' => if d' =? d then -1 else 0
      | _ => 0
      end + eglRefs d cs'
  end.

(** Whether the image object holds an image on the display [d]. *)
Definition holds (d : Z) (img : EglImage.t) : Z :=
  if negb (EglImage.mEglImage img =? EGL_NO_IMAGE_KHR) && (EglImage.mEglDisplay img =? d)
  then 1 else 0.

(** An item for a slot whose buffer the consumer has seen before. *)
Definition example_item_again (slot frame : Z) : BufferItem.t :=
  BufferItem.mk None slot (Rect.mk 0 0 100 100)
    NATIVE_WINDOW_TRANSFORM_ROT_90 NATIVE_WINDOW_SCALING_MODE_FREEZE
    2000 HAL_DATASPACE_UNKNOWN 6 10 frame.

(** The collaborators of the examples with the current display another
    one (display 2), with the fence wait done by the GPU
    (EGL_KHR_wait_sync and native fences), and with both image
    extensions present. *)
Definition example_world_other_display : World :=
  mkWorld 2 1 false false (NO_ERROR, example_item 4 8) (fun _ => Some example_buffer)
    (fun _ => NO_ERROR) (fun _ => false) OK NO_ERROR NO_ERROR 11 12 true 21 22 []
    false 31 0 41 EGL_SUCCESS NO_ERROR.

Definition example_world_wait_sync : World :=
  mkWorld 1 1 false false (NO_ERROR, example_item 4 8) (fun _ => Some example_buffer)
    (fun _ => NO_ERROR) (fun _ => false) OK NO_ERROR NO_ERROR 11 12 true 21 22 []
    true 31 0 41 EGL_SUCCESS NO_ERROR.

Definition example_world_extensions : World :=
  mkWorld 1 1 true true (NO_ERROR, example_item 4 8) (fun _ => Some example_buffer)
    (fun _ => NO_ERROR) (fun _ => false) OK NO_ERROR NO_ERROR 11 12 true 21 22 []
    false 31 0 41 EGL_SUCCESS NO_ERROR.

(** The state in which [m] leaves [s]. *)
Definition state_after {A : Type} (m : M A) (s : Consumer) : Consumer :=
  match m s with
  | Some (_, s') => s'
  | None => s
  end.

(** The example consumer after a second update, which has bound slot 4:
    slot 3 still holds its image object, which nothing else refers
    to. *)
Definition example_rebound : Consumer :=
  Eval vm_compute in
    after (updateTexImage (example_world (NO_ERROR, example_item 4 8))) example_bound.


(** ** Objects that nothing refers to *)

(** The object [r] has been allocated and no pointer refers to it, the
    local pointer [held] included: it has been destroyed. *)
Definition unreferenced (held : option ref) (r : ref) (s : Consumer) : Prop :=
  (r < length (images s))%nat /\ referenced held r s = false.

(** An object that is unreferenced before is unreferenced after. *)
Definition stays_unreferenced (held : option ref) (r : ref) (s s' : Consumer) : Prop :=
  unreferenced held r s -> unreferenced held r s'.
(** * Verified properties *)

(** ** Proof steps used throughout *)

(** Unfolds the plumbing of the state transformers. *)
Ltac run := cbv [bind ret get modify invoke when undefined fmapM].

Ltac split_ifs :=
  repeat match goal with
         | |- context [if ?b then _ else _] => destruct b
         end.

Ltac split_ifs_eqn :=
  repeat match goal with
         | |- context [if ?b then _ else _] => destruct b eqn:?
         end.

(** Turns the boolean tests of the hypotheses into propositions. *)
Ltac bool_facts :=
  repeat match goal with
         | H : _ || _ = false |- _ => apply orb_false_iff in H; destruct H
         | H : _ && _ = true |- _ => apply andb_true_iff in H; destruct H
         | H : negb _ = false |- _ => apply negb_false_iff in H
         | H : negb _ = true |- _ => apply negb_true_iff in H
         | H : (_ =? _) = true |- _ => apply Z.eqb_eq in H
         | H : (_ =? _) = false |- _ => apply Z.eqb_neq in H
         | H : (_ <? _) = true |- _ => apply Z.ltb_lt in H
         | H : (_ <? _) = false |- _ => apply Z.ltb_ge in H
         | H : (_ <=? _) = true |- _ => apply Z.leb_le in H
         end.

(** ** Fixed-width arithmetic *)

Lemma to_uint32_small z : 0 <= z < 4294967296 -> to_uint32 z = z.
Proof. intros H. unfold to_uint32. apply Z.mod_small. lia. Qed.

Lemma to_uint32_range z : 0 <= to_uint32 z < 4294967296.
Proof. unfold to_uint32. apply Z.mod_pos_bound. lia. Qed.

Lemma to_uint32_eq z : exists k, to_uint32 z = z + k * 4294967296.
Proof.
  exists (- (z / 4294967296)). unfold to_uint32.
  rewrite Z.mod_eq by lia. lia.
Qed.

Lemma to_uint32_congr x y k :
  x = y + k * 4294967296 -> 0 <= y < 4294967296 -> to_uint32 x = y.
Proof.
  intros -> Hy. unfold to_uint32.
  rewrite Z.mod_add by lia. apply Z.mod_small; lia.
Qed.

Lemma to_int32_eq z : exists k, to_int32 z = z + k * 4294967296.
Proof.
  exists (- ((z + 2147483648) / 4294967296)). unfold to_int32.
  rewrite Z.mod_eq by lia. lia.
Qed.

Lemma to_int32_congr x y k :
  x = y + k * 4294967296 -> is_int32 y -> to_int32 x = y.
Proof.
  intros -> Hy. unfold to_int32, is_int32 in *.
  replace (y + k * 4294967296 + 2147483648)
    with ((y + 2147483648) + k * 4294967296) by lia.
  rewrite Z.mod_add by lia. rewrite Z.mod_small; lia.
Qed.

Lemma to_int32_small z : is_int32 z -> to_int32 z = z.
Proof. intros H. apply (to_int32_congr z z 0); [lia | exact H]. Qed.

(** The unsigned extent of a valid rect is its true extent. *)
Lemma extent_uint32 a b :
  is_int32 a -> is_int32 b -> a <= b -> to_uint32 (to_int32 (b - a)) = b - a.
Proof.
  intros Ha Hb Hab. destruct (to_int32_eq (b - a)) as [k Hk].
  apply (to_uint32_congr _ _ k Hk). unfold is_int32 in *. lia.
Qed.

(** Moving an edge by an unsigned amount, through [uint32_t] and back, is exact when the result is an [int32_t]. *)
Lemma add_edge a d :
  is_int32 (a + d) -> to_int32 (to_uint32 (to_uint32 a + d)) = a + d.
Proof.
  intros H. destruct (to_uint32_eq a) as [k Hk].
  destruct (to_uint32_eq (to_uint32 a + d)) as [k' Hk'].
  apply (to_int32_congr _ _ (k + k')); [lia | exact H].
Qed.

Lemma sub_edge a d :
  is_int32 (a - d) ->
  to_int32 (to_uint32 (to_uint32 a - to_uint32 d)) = a - d.
Proof.
  intros H. destruct (to_uint32_eq a) as [k Hk].
  destruct (to_uint32_eq d) as [j Hj].
  destruct (to_uint32_eq (to_uint32 a - to_uint32 d)) as [k' Hk'].
  apply (to_int32_congr _ _ (k - j + k')); [lia | exact H].
Qed.

Lemma floor_div_bounds n d : 0 <= n -> 0 < d -> (n / d) * d <= n < (n / d + 1) * d.
Proof.
  intros Hn Hd. pose proof (Z.div_mod n d ltac:(lia)) as E.
  pose proof (Z.mod_pos_bound n d Hd). nia.
Qed.

(** ** scaleDownCrop *)

(** Neither division of [scaleDownCrop] divides by zero: the function is total. *)
Lemma scaleDownCrop_divisor_nonzero crop bw bh d :
  scaleDownCrop_divisor crop bw bh = Some d -> d <> 0.
Proof.
  unfold scaleDownCrop_divisor.
  set (nw := to_uint32 (Rect.width crop)). set (nh := to_uint32 (Rect.height crop)).
  pose proof (to_uint32_range (nw * bh)) as R1.
  pose proof (to_uint32_range (nh * bw)) as R2.
  rewrite Z.gtb_ltb.
  destruct (Z.ltb_spec (to_uint32 (nh * bw)) (to_uint32 (nw * bh))) as [Hgt | _].
  - intros [= <-] ->. rewrite Z.mul_0_r in Hgt. change (to_uint32 0) with 0 in Hgt. lia.
  - destruct (Z.ltb_spec (to_uint32 (nw * bh)) (to_uint32 (nh * bw))) as [Hlt | _];
      [| discriminate].
    intros [= <-] ->. rewrite Z.mul_0_r in Hlt. change (to_uint32 0) with 0 in Hlt. lia.
Qed.

(** C7 (as amended). For every valid crop rect and every target with
    positive extents whose cross products with the crop's extents fit
    [uint32_t], the scale-to-crop helper shrinks only the axis that is
    oversized relative to the target aspect ratio, its output lies inside
    the input crop, the output's aspect ratio is the target's up to the
    rounding of one integer division, and a shrink of delta moves the
    leading edge in by floor(delta/2) and the trailing edge by
    delta - floor(delta/2). *)
Theorem scaleDownCrop_exact_spec crop bw bh :
  scaleDownCrop_exact crop bw bh -> scaleDownCrop_spec crop bw bh.
Proof.
  destruct crop as [l t r b].
  unfold scaleDownCrop_exact, scaleDownCrop_spec, Rect.wf, ext_w, ext_h; simpl.
  intros ((Hl & Ht & Hr & Hb) & Hlr & Htb & Hbw & Hbh & Hpw & Hph).
  unfold scaleDownCrop, Rect.width, Rect.height; simpl.
  rewrite !(extent_uint32 l r), !(extent_uint32 t b) by assumption.
  set (W := r - l) in *. set (H := b - t) in *.
  assert (HW : 0 <= W) by (subst W; lia).
  assert (HH : 0 <= H) by (subst H; lia).
  assert (HWr : W < 4294967296) by nia.
  assert (HHr : H < 4294967296) by nia.
  rewrite !(to_uint32_small (W * bh)), !(to_uint32_small (H * bw)) by nia.
  rewrite Z.gtb_ltb.
  destruct (Z.ltb_spec (H * bw) (W * bh)) as [Hwide | Hnw].
  - (* too wide *)
    pose proof (floor_div_bounds (H * bw) bh ltac:(nia) Hbh) as [Q1 Q2].
    set (q := H * bw / bh) in *.
    assert (Hq0 : 0 <= q) by (subst q; apply Z.div_pos; nia).
    assert (HqW : q < W) by nia.
    destruct (Z.ltb_spec q W) as [_ | ?]; [| lia].
    rewrite (to_uint32_small (W - q)) by lia.
    set (dw := W - q) in *.
    pose proof (floor_div_bounds dw 2 ltac:(lia) ltac:(lia)) as [D1 D2].
    rewrite add_edge, sub_edge by (unfold is_int32 in *; subst W; lia).
    unfold shrinks_oversized_axis_only, contained_in, aspect_within_rounding,
      split_floor_half, ext_w, ext_h; simpl.
    replace (r - (dw - dw / 2) - (l + dw / 2)) with q by (subst dw W; lia).
    fold W H. replace (W - q) with dw by reflexivity.
    replace (H - H) with 0 by lia. change (0 / 2) with 0.
    repeat split; try lia; try (subst dw W; lia).
  - destruct (Z.ltb_spec (W * bh) (H * bw)) as [Htall | Hnt].
    + (* too tall *)
      pose proof (floor_div_bounds (W * bh) bw ltac:(nia) Hbw) as [Q1 Q2].
      set (q := W * bh / bw) in *.
      assert (Hq0 : 0 <= q) by (subst q; apply Z.div_pos; nia).
      assert (HqH : q < H) by nia.
      destruct (Z.ltb_spec W W) as [? | _]; [lia |].
      destruct (Z.ltb_spec q H) as [_ | ?]; [| lia].
      rewrite (to_uint32_small (H - q)) by lia.
      set (dh := H - q) in *.
      pose proof (floor_div_bounds dh 2 ltac:(lia) ltac:(lia)) as [D1 D2].
      rewrite add_edge, sub_edge by (unfold is_int32 in *; subst H; lia).
      unfold shrinks_oversized_axis_only, contained_in, aspect_within_rounding,
        split_floor_half, ext_w, ext_h; simpl.
      replace (b - (dh - dh / 2) - (t + dh / 2)) with q by (subst dh H; lia).
      fold W H. replace (H - q) with dh by reflexivity.
      replace (W - W) with 0 by lia. change (0 / 2) with 0.
      repeat split; try lia; try (subst dh H; lia).
    + (* already at the target ratio *)
      destruct (Z.ltb_spec W W) as [? | _]; [lia |].
      destruct (Z.ltb_spec H H) as [? | _]; [lia |].
      unfold shrinks_oversized_axis_only, contained_in, aspect_within_rounding,
        split_floor_half, ext_w, ext_h; simpl.
      fold W H. replace (W - W) with 0 by lia. replace (H - H) with 0 by lia.
      change (0 / 2) with 0.
      repeat split; try lia; try (intros; f_equal; lia).
Qed.

(** C7, witness: a 100x101 crop scaled to a square target loses its last row. *)
Lemma scaleDownCrop_exact_spec_witness :
  scaleDownCrop_spec (Rect.mk 0 0 100 101) 1 1.
Proof.
  apply scaleDownCrop_exact_spec.
  unfold scaleDownCrop_exact, Rect.wf, is_int32, ext_w, ext_h; simpl; lia.
Defined.

(** C7, counterexample: for a 100000x100000 crop and a 100000x50000
    target the 32-bit products wrap around, and the output, 100000x7050,
    does not have the target's aspect ratio. *)
Lemma scaleDownCrop_overflow :
  ~ scaleDownCrop_spec (Rect.mk 0 0 100000 100000) 100000 50000.
Proof.
  unfold scaleDownCrop_spec.
  replace (scaleDownCrop (Rect.mk 0 0 100000 100000) 100000 50000)
    with (Rect.mk 0 46475 100000 53525) by (vm_compute; reflexivity).
  unfold aspect_within_rounding, ext_w, ext_h; simpl.
  intros (_ & _ & Hasp & _). lia.
Qed.

(** ** The conversion of integers to [float] is monotone *)

Lemma digits2_pos_bounds p :
  2 ^ (Zpos (digits2_pos p) - 1) <= Zpos p < 2 ^ Zpos (digits2_pos p).
Proof.
  induction p as [p IH | p IH |]; simpl digits2_pos.
  - rewrite Pos2Z.inj_succ. replace (Z.succ (Zpos (digits2_pos p)) - 1)
      with (Z.succ (Zpos (digits2_pos p) - 1)) by lia.
    rewrite !Z.pow_succ_r by lia. lia.
  - rewrite Pos2Z.inj_succ. replace (Z.succ (Zpos (digits2_pos p)) - 1)
      with (Z.succ (Zpos (digits2_pos p) - 1)) by lia.
    rewrite !Z.pow_succ_r by lia. lia.
  - simpl. lia.
Qed.

Lemma digits2_pos_unique p k :
  2 ^ (k - 1) <= Zpos p < 2 ^ k -> Zpos (digits2_pos p) = k.
Proof.
  intros [Hlo Hhi]. pose proof (digits2_pos_bounds p) as [Dlo Dhi].
  set (d := Zpos (digits2_pos p)) in *.
  assert (0 < k).
  { destruct (Z.ltb_spec 0 k); [assumption |].
    rewrite Z.pow_neg_r in Hlo by lia.
    destruct (Z.eqb_spec k 0) as [-> |]; [simpl in Hhi; lia |].
    rewrite Z.pow_neg_r in Hhi by lia. lia. }
  destruct (Z.lt_trichotomy d k) as [Hlt | [Heq | Hgt]]; [| assumption |].
  - assert (2 ^ d <= 2 ^ (k - 1)) by (apply Z.pow_le_mono_r; lia). lia.
  - assert (2 ^ k <= 2 ^ (d - 1)) by (apply Z.pow_le_mono_r; lia). lia.
Qed.

Lemma digits2_pos_mono p q :
  (p <= q)%positive -> Zpos (digits2_pos p) <= Zpos (digits2_pos q).
Proof.
  intros Hpq. pose proof (digits2_pos_bounds p) as [Plo _].
  pose proof (digits2_pos_bounds q) as [_ Qhi].
  assert (H : 2 ^ (Zpos (digits2_pos p) - 1) < 2 ^ Zpos (digits2_pos q)) by lia.
  apply Z.pow_lt_mono_r_iff in H; lia.
Qed.

Lemma iter_xO p k : Zpos (Pos.iter xO p k) = Zpos p * 2 ^ Zpos k.
Proof.
  induction k as [| k IH] using Pos.peano_ind.
  - simpl. lia.
  - rewrite Pos.iter_succ, Pos2Z.inj_xO, IH, Pos2Z.inj_succ, Z.pow_succ_r by lia. lia.
Qed.

Lemma iter_pos_iter {A} (f : A -> A) k :
  forall x, SpecFloat.iter_pos f k x = Pos.iter f x k.
Proof.
  induction k as [k IH | k IH |]; intros x; simpl.
  - rewrite !IH. rewrite <- !Pos.iter_swap. reflexivity.
  - rewrite !IH. reflexivity.
  - reflexivity.
Qed.

Lemma shr_1_nonneg m r s :
  0 <= m -> shr_1 (Build_shr_record m r s) = Build_shr_record (m / 2) (Z.odd m) (r || s).
Proof.
  intros Hm. destruct m as [| p | p]; [reflexivity | | lia].
  destruct p as [p | p |]; simpl; try reflexivity.
  - f_equal. rewrite Pos2Z.inj_xI. apply Z.div_unique with 1; lia.
  - f_equal. rewrite Pos2Z.inj_xO. apply Z.div_unique with 0; lia.
Qed.

Lemma shifted_first x :
  0 <= x -> shr_1 (Build_shr_record x false false) = shifted x 1.
Proof.
  intros Hx. rewrite shr_1_nonneg by assumption. unfold shifted. simpl (1 - 1).
  rewrite Z.pow_0_r, Z.pow_1_r, Z.div_1_r, Z.mod_1_r. reflexivity.
Qed.

Lemma shifted_next x k :
  0 <= x -> 1 <= k -> shr_1 (shifted x k) = shifted x (k + 1).
Proof.
  intros Hx Hk. unfold shifted.
  rewrite shr_1_nonneg by (apply Z.div_pos; [lia | apply Z.pow_pos_nonneg; lia]).
  replace (k + 1 - 1) with k by lia.
  f_equal.
  - rewrite Z.pow_add_r, Z.pow_1_r by lia.
    rewrite Z.div_div by (try apply Z.pow_pos_nonneg; lia). reflexivity.
  - replace k with (Z.succ (k - 1)) at 3 by lia.
    rewrite Z.pow_succ_r by lia.
    rewrite (Z.mul_comm 2), Z.rem_mul_r by (try apply Z.pow_nonzero; lia).
    set (h := 2 ^ (k - 1)). assert (0 < h) by (apply Z.pow_pos_nonneg; lia).
    pose proof (Z.mod_pos_bound x h ltac:(lia)).
    rewrite Zodd_mod.
    pose proof (Z.mod_pos_bound (x / h) 2 ltac:(lia)).
    destruct (Z.eqb_spec ((x / h) mod 2) 1) as [E1 | E1];
      destruct (Z.eqb_spec (x mod h) 0) as [E2 | E2]; simpl;
      symmetry; rewrite ?negb_true_iff, ?negb_false_iff;
      first [apply Z.eqb_neq | apply Z.eqb_eq]; nia.
Qed.

Lemma shifted_iter x k :
  0 <= x -> SpecFloat.iter_pos shr_1 k (Build_shr_record x false false) = shifted x (Zpos k).
Proof.
  intros Hx. rewrite iter_pos_iter.
  induction k as [| k IH] using Pos.peano_ind.
  - simpl. apply shifted_first. assumption.
  - rewrite Pos.iter_succ, IH, Pos2Z.inj_succ. apply shifted_next; lia.
Qed.

Lemma rne_shifted x n :
  round_nearest_even (shr_m (shifted x n)) (loc_of_shr_record (shifted x n)) = rounded x n.
Proof.
  unfold rounded, round_up, shifted. simpl.
  destruct (Z.odd (x / 2 ^ (n - 1))), (negb (x mod 2 ^ (n - 1) =? 0)); simpl;
    rewrite ?Z.add_0_r; try reflexivity.
  rewrite <- Z.negb_odd. destruct (Z.odd (x / 2 ^ n)); simpl; lia.
Qed.

Lemma rounded_bounds x n :
  1 <= n -> 2 ^ (n + 23) <= x < 2 ^ (n + 24) ->
  8388608 <= rounded x n <= 16777216.
Proof.
  intros Hn [Hlo Hhi]. unfold rounded.
  assert (Hp : 0 < 2 ^ n) by (apply Z.pow_pos_nonneg; lia).
  rewrite Z.pow_add_r in Hlo, Hhi by lia.
  change (2 ^ 23) with 8388608 in Hlo. change (2 ^ 24) with 16777216 in Hhi.
  assert (8388608 <= x / 2 ^ n) by (apply Z.div_le_lower_bound; lia).
  assert (x / 2 ^ n < 16777216) by (apply Z.div_lt_upper_bound; lia).
  destruct (round_up x n); lia.
Qed.

Lemma second_shift sx r e :
  8388608 <= r <= 16777216 -> -125 <= e ->
  (let '(mrs, e') :=
     shr_fexp 24 128 r e loc_Exact in
   match shr_m mrs with
   | 0 => S754_zero sx
   | Z.pos m => if e' <=? 128 - 24 then S754_finite sx m e' else S754_infinity sx
   | Z.neg _ => S754_nan
   end) =
  if r =? 16777216 then float_of_round sx (8388608, e + 1) else float_of_round sx (r, e).
Proof.
  intros Hr He. destruct r as [| q | q]; try lia.
  unfold shr_fexp, fexp, emin. simpl Zdigits2.
  destruct (Z.eqb_spec (Z.pos q) 16777216) as [Heq | Hne].
  - injection Heq as ->.
    change (Z.pos (digits2_pos 16777216)) with 25.
    replace (Z.max (25 + e - 24) (3 - 128 - 24) - e) with 1 by lia.
    reflexivity.
  - rewrite (digits2_pos_unique q 24) by (simpl; lia).
    replace (Z.max (24 + e - 24) (3 - 128 - 24) - e) with 0 by lia.
    reflexivity.
Qed.

Lemma binary_round_aux_normal sx m e :
  let dz := Zpos (digits2_pos m) in
  24 <= dz -> -125 <= e ->
  binary_round_aux 24 128 sx (Zpos m) e loc_Exact =
  let n := dz - 24 in
  let r := if n =? 0 then Zpos m else rounded (Zpos m) n in
  if r =? 16777216 then float_of_round sx (8388608, e + n + 1)
  else float_of_round sx (r, e + n).
Proof.
  intros dz Hdz He. pose proof (digits2_pos_bounds m) as [Dlo Dhi]. fold dz in Dlo, Dhi.
  unfold binary_round_aux.
  unfold shr_fexp at 1. unfold fexp, emin. simpl Zdigits2. fold dz.
  replace (Z.max (dz + e - 24) (3 - 128 - 24) - e) with (dz - 24) by lia.
  cbv zeta.
  destruct (dz - 24) as [| k | k] eqn:Hn; [| | lia].
  - (* no bit is dropped *)
    assert (dz = 24) by lia.
    change (0 =? 0) with true. cbv iota.
    unfold shr, shr_record_of_loc. cbn [shr_m loc_of_shr_record round_nearest_even].
    rewrite second_shift; [| | exact He].
    + rewrite Z.add_0_r. reflexivity.
    + replace dz with 24 in * by lia. simpl in Dlo, Dhi. lia.
  - (* [k] bits are dropped *)
    change (Z.pos k =? 0) with false. cbv iota.
    unfold shr, shr_record_of_loc.
    rewrite shifted_iter by lia. rewrite rne_shifted.
    rewrite second_shift; [reflexivity | | lia].
    apply rounded_bounds; [lia |].
    replace (Z.pos k + 23) with (dz - 1) by lia.
    replace (Z.pos k + 24) with dz by lia. split; assumption.
Qed.

(** The conversion of a positive integer computes [round24]. *)
Lemma binary_round_round24 sx p :
  binary_round 24 128 sx p 0 = float_of_round sx (round24 p).
Proof.
  pose proof (digits2_pos_bounds p) as [Dlo Dhi].
  unfold binary_round, round24, fexp, emin.
  set (d := Zpos (digits2_pos p)) in *.
  assert (Hd : 1 <= d) by (subst d; lia).
  rewrite Z.add_0_r.
  replace (Z.max (d - 24) (3 - 128 - 24)) with (d - 24) by lia.
  unfold shl_align. rewrite Z.sub_0_r.
  destruct (Z.leb_spec d 24) as [Hle | Hgt].
  - destruct (d - 24) as [| k | k] eqn:Hk; [| lia |].
    + (* exactly 24 bits *)
      rewrite binary_round_aux_normal; fold d; [| lia | lia].
      replace (d - 24) with 0 by lia. cbv zeta.
      change (0 =? 0) with true. cbv iota.
      replace (24 - d) with 0 by lia. rewrite Z.pow_0_r, Z.mul_1_r.
      replace d with 24 in Dhi by lia.
      destruct (Z.eqb_spec (Z.pos p) 16777216); [simpl in Dhi; lia | reflexivity].
    + (* fewer bits: the mantissa is shifted left *)
      assert (Hm : Z.pos (Pos.iter xO p k) = Z.pos p * 2 ^ (24 - d)).
      { rewrite iter_xO. f_equal. f_equal. lia. }
      assert (Hdm : Z.pos (digits2_pos (Pos.iter xO p k)) = 24).
      { apply digits2_pos_unique. rewrite Hm.
        assert (E1 : 2 ^ (24 - 1) = 2 ^ (d - 1) * 2 ^ (24 - d)).
        { rewrite <- Z.pow_add_r by lia. f_equal. lia. }
        assert (E2 : 2 ^ 24 = 2 ^ d * 2 ^ (24 - d)).
        { rewrite <- Z.pow_add_r by lia. f_equal. lia. }
        assert (0 < 2 ^ (24 - d)) by (apply Z.pow_pos_nonneg; lia).
        split.
        - rewrite E1. apply Z.mul_le_mono_nonneg_r; lia.
        - rewrite E2. apply Z.mul_lt_mono_pos_r; lia. }
      rewrite binary_round_aux_normal by (rewrite ?Hdm; lia). rewrite Hdm.
      cbv zeta. change (24 - 24 =? 0) with true. cbv iota.
      rewrite Hm.
      assert (Z.pos p * 2 ^ (24 - d) < 16777216).
      { rewrite <- Hm. pose proof (digits2_pos_bounds (Pos.iter xO p k)) as [_ B].
        rewrite Hdm in B. exact B. }
      destruct (Z.eqb_spec (Z.pos p * 2 ^ (24 - d)) 16777216); [lia |].
      rewrite Z.add_0_r. reflexivity.
  - destruct (d - 24) as [| k | k] eqn:Hk; [lia | | lia].
    rewrite binary_round_aux_normal; fold d; [| lia | lia].
    rewrite Hk. cbv zeta. change (Z.pos k =? 0) with false. cbv iota.
    rewrite !Z.add_0_l.
    destruct (rounded (Z.pos p) (Z.pos k) =? 16777216); reflexivity.
Qed.

Lemma round_up_iff x n :
  0 <= x -> 1 <= n ->
  round_up x n = true <->
  2 ^ (n - 1) < x mod 2 ^ n \/ (x mod 2 ^ n = 2 ^ (n - 1) /\ Z.odd (x / 2 ^ n) = true).
Proof.
  intros Hx Hn. unfold round_up.
  set (h := 2 ^ (n - 1)). assert (Hh : 0 < h) by (apply Z.pow_pos_nonneg; lia).
  assert (E : 2 ^ n = h * 2).
  { subst h. replace n with (Z.succ (n - 1)) at 1 by lia.
    rewrite Z.pow_succ_r by lia. lia. }
  rewrite E. rewrite Z.rem_mul_r by lia.
  rewrite <- (Z.div_div x h 2) by lia.
  pose proof (Z.mod_pos_bound x h Hh) as Hl.
  pose proof (Z.mod_pos_bound (x / h) 2 ltac:(lia)) as Hb.
  rewrite (Zodd_mod (x / h)).
  rewrite andb_true_iff, orb_true_iff, negb_true_iff, Z.eqb_eq, Z.eqb_neq.
  set (l := x mod h) in *. set (b := (x / h) mod 2) in *.
  split.
  - intros (Hb1 & [Hl0 | Hodd]).
    + left. nia.
    + destruct (Z.eq_dec l 0); [right | left]; split_and?; try nia; assumption.
  - intros [Hgt | (Heq & Hodd)].
    + assert (b = 1) by nia. split; [assumption |]. left. nia.
    + assert (b = 1) by nia. split; [assumption |]. right. assumption.
Qed.

Lemma rounded_mono x y n :
  0 <= x <= y -> 1 <= n -> rounded x n <= rounded y n.
Proof.
  intros [Hx Hxy] Hn. unfold rounded.
  assert (Hp : 0 < 2 ^ n) by (apply Z.pow_pos_nonneg; lia).
  pose proof (Z.div_le_mono x y (2 ^ n) Hp Hxy) as Hq.
  destruct (Z.eq_dec (x / 2 ^ n) (y / 2 ^ n)) as [Heq | Hne].
  - rewrite Heq. apply Z.add_le_mono_l.
    destruct (round_up x n) eqn:Hux; [| destruct (round_up y n); lia].
    assert (Huy : round_up y n = true).
    { apply round_up_iff in Hux; [| lia | lia]. apply round_up_iff; [lia | lia |].
      pose proof (Z.div_mod x (2 ^ n) ltac:(lia)) as Dx.
      pose proof (Z.div_mod y (2 ^ n) ltac:(lia)) as Dy.
      rewrite Heq in Dx, Hux.
      assert (x mod 2 ^ n <= y mod 2 ^ n) by lia.
      destruct Hux as [Hgt | (He & Hodd)].
      - left. lia.
      - destruct (Z.eq_dec (y mod 2 ^ n) (2 ^ (n - 1))); [right | left]; split_and?;
          try lia; assumption. }
    rewrite Huy. lia.
  - destruct (round_up x n), (round_up y n); lia.
Qed.

Lemma round24_normal p :
  8388608 <= fst (round24 p) < 16777216.
Proof.
  pose proof (digits2_pos_bounds p) as [Dlo Dhi].
  unfold round24. set (d := Zpos (digits2_pos p)) in *.
  assert (Hd : 1 <= d) by (subst d; lia).
  destruct (Z.leb_spec d 24) as [Hle | Hgt]; cbn [fst].
  - assert (E1 : 8388608 = 2 ^ (d - 1) * 2 ^ (24 - d)).
    { rewrite <- Z.pow_add_r by lia. replace (d - 1 + (24 - d)) with 23 by lia. reflexivity. }
    assert (E2 : 16777216 = 2 ^ d * 2 ^ (24 - d)).
    { rewrite <- Z.pow_add_r by lia. replace (d + (24 - d)) with 24 by lia. reflexivity. }
    assert (0 < 2 ^ (24 - d)) by (apply Z.pow_pos_nonneg; lia).
    split.
    + rewrite E1. apply Z.mul_le_mono_nonneg_r; lia.
    + rewrite E2. apply Z.mul_lt_mono_pos_r; lia.
  - pose proof (rounded_bounds (Zpos p) (d - 24) ltac:(lia)) as B.
    replace (d - 24 + 23) with (d - 1) in B by lia.
    replace (d - 24 + 24) with d in B by lia.
    specialize (B (conj Dlo Dhi)).
    destruct (Z.eqb_spec (rounded (Z.pos p) (d - 24)) 16777216); cbn [fst]; lia.
Qed.

Lemma round24_mono p q : (p <= q)%positive -> round_le (round24 p) (round24 q).
Proof.
  intros Hpq. pose proof (digits2_pos_mono p q Hpq) as Hd.
  pose proof (round24_normal p) as Np. pose proof (round24_normal q) as Nq.
  pose proof (digits2_pos_bounds p) as [Plo Phi].
  pose proof (digits2_pos_bounds q) as [Qlo Qhi].
  unfold round_le, round24 in *.
  set (dp := Zpos (digits2_pos p)) in *. set (dq := Zpos (digits2_pos q)) in *.
  assert (1 <= dp) by (subst dp; lia).
  destruct (Z.leb_spec dp 24) as [Hp24 | Hp24];
    destruct (Z.leb_spec dq 24) as [Hq24 | Hq24]; cbn [fst snd] in *.
  - destruct (Z.eq_dec dp dq) as [E | E]; [right | left; lia].
    rewrite <- E. split; [reflexivity |].
    apply Z.mul_le_mono_nonneg_r; [apply Z.pow_nonneg; lia | lia].
  - left. destruct (rounded (Z.pos q) (dq - 24) =? 16777216); cbn [snd]; lia.
  - lia.
  - pose proof (rounded_bounds (Zpos p) (dp - 24) ltac:(lia)) as Bp.
    replace (dp - 24 + 23) with (dp - 1) in Bp by lia.
    replace (dp - 24 + 24) with dp in Bp by lia.
    specialize (Bp (conj Plo Phi)).
    pose proof (rounded_bounds (Zpos q) (dq - 24) ltac:(lia)) as Bq.
    replace (dq - 24 + 23) with (dq - 1) in Bq by lia.
    replace (dq - 24 + 24) with dq in Bq by lia.
    specialize (Bq (conj Qlo Qhi)).
    destruct (Z.eq_dec dp dq) as [E | E].
    + rewrite <- E in *.
      pose proof (rounded_mono (Zpos p) (Zpos q) (dp - 24) ltac:(lia) ltac:(lia)) as Hm.
      destruct (Z.eqb_spec (rounded (Z.pos p) (dp - 24)) 16777216);
        destruct (Z.eqb_spec (rounded (Z.pos q) (dp - 24)) 16777216);
        cbn [fst snd] in *; lia.
    + destruct (Z.eqb_spec (rounded (Z.pos p) (dp - 24)) 16777216);
        destruct (Z.eqb_spec (rounded (Z.pos q) (dq - 24)) 16777216);
        cbn [fst snd] in *; lia.
Qed.

Lemma float_of_Z_pos p : float_of_Z (Zpos p) = float_of_round false (round24 p).
Proof. unfold float_of_Z, binary_normalize. apply binary_round_round24. Qed.

Lemma float_of_Z_neg p : float_of_Z (Zneg p) = float_of_round true (round24 p).
Proof. unfold float_of_Z, binary_normalize. apply binary_round_round24. Qed.

Lemma flt_float_of_round a b :
  round_le a b -> 0 < fst a -> 0 < fst b ->
  flt (float_of_round false b) (float_of_round false a) = false /\
  flt (float_of_round true a) (float_of_round true b) = false.
Proof.
  destruct a as [ma ea], b as [mb eb]. unfold round_le, float_of_round. cbn [fst snd].
  intros Hle Ha Hb.
  destruct ma as [| ma | ma]; try lia. destruct mb as [| mb | mb]; try lia.
  cbn [Z.to_pos].
  destruct (Z.leb_spec ea 104), (Z.leb_spec eb 104); unfold flt, SFltb; cbn [SFcompare];
    try (split; reflexivity); try lia.
  destruct Hle as [Hlt | [-> Hm]].
  - apply Z.compare_lt_iff in Hlt as C1. rewrite C1.
    rewrite Z.compare_antisym, C1. split; reflexivity.
  - rewrite Z.compare_refl.
    change (Pos.compare_cont Eq mb ma) with (mb ?= ma)%positive.
    change (Pos.compare_cont Eq ma mb) with (ma ?= mb)%positive.
    rewrite (Pos.compare_antisym ma mb).
    destruct (ma ?= mb)%positive eqn:C; cbn; try (split; reflexivity).
    apply Pos.compare_gt_iff in C. lia.
Qed.

(** A larger integer never converts to a smaller [float]. *)
Lemma float_of_Z_mono a b : a <= b -> flt (float_of_Z b) (float_of_Z a) = false.
Proof.
  intros Hab.
  destruct a as [| p | p], b as [| q | q]; try lia;
    rewrite ?float_of_Z_pos, ?float_of_Z_neg;
    change (float_of_Z 0) with (S754_zero false).
  - reflexivity.
  - unfold float_of_round. destruct (snd (round24 q) <=? 104); reflexivity.
  - apply flt_float_of_round.
    + apply round24_mono. lia.
    + pose proof (round24_normal p). lia.
    + pose proof (round24_normal q). lia.
  - unfold float_of_round. destruct (snd (round24 p) <=? 104); reflexivity.
  - unfold float_of_round.
    destruct (snd (round24 p) <=? 104), (snd (round24 q) <=? 104); reflexivity.
  - apply flt_float_of_round.
    + apply round24_mono. lia.
    + pose proof (round24_normal q). lia.
    + pose proof (round24_normal p). lia.
Qed.

Lemma flt_irrefl (x : float32) : flt x x = false.
Proof.
  unfold flt, SFltb. destruct x as [s | s | | s m e]; simpl; try reflexivity.
  - destruct s; reflexivity.
  - destruct s; rewrite Z.compare_refl, Pos.compare_cont_refl; reflexivity.
Qed.

(** ** The transform matrix computer *)

Example computeTransformMatrix_plain :
  computeTransformMatrix None Rect.EMPTY_RECT 0 true = Some (asArray mtxFlipV).
Proof. vm_compute. reflexivity. Qed.

Lemma computeTransformMatrix_null_buffer crop transform filtering :
  computeTransformMatrix None crop transform filtering =
  if Rect.isEmpty crop
  then Some (asArray (multiply_left
               (fold_left multiply_right (orientationFactors transform) mtxIdentity)
               mtxFlipV))
  else None.
Proof.
  unfold computeTransformMatrix, orientationFactors, multiply_left, multiply_right.
  destruct (has_bit transform NATIVE_WINDOW_TRANSFORM_FLIP_H),
           (has_bit transform NATIVE_WINDOW_TRANSFORM_FLIP_V),
           (has_bit transform NATIVE_WINDOW_TRANSFORM_ROT_90),
           (Rect.isEmpty crop); reflexivity.
Qed.

Lemma computeTransformMatrix_pipeline b crop transform filtering :
  computeTransformMatrix (Some b) crop transform filtering =
  Some (asArray (pipeline multiply_right multiply_left b crop transform filtering)).
Proof.
  unfold computeTransformMatrix, pipeline, orientationFactors,
    multiply_left, multiply_right.
  destruct (has_bit transform NATIVE_WINDOW_TRANSFORM_FLIP_H),
           (has_bit transform NATIVE_WINDOW_TRANSFORM_FLIP_V),
           (has_bit transform NATIVE_WINDOW_TRANSFORM_ROT_90),
           (Rect.isEmpty crop); reflexivity.
Qed.

(** C1 (as amended). For every transform bitmask, crop rect, buffer and
    filtering flag, the transform matrix computer starts from the identity
    and multiplies the flip-H, then the flip-V, then the rot-90 matrix
    onto the running transform from the right ([xform *= m] stores
    [xform * m]), each only if its bit is set; then, if the crop is not
    empty, it multiplies the crop matrix from the left; and last it
    multiplies the vertical flip from the left. With a null buffer only
    the empty crop has a result. *)
Theorem transform_matrix_stage_order crop transform filtering :
  (forall b,
     computeTransformMatrix (Some b) crop transform filtering =
     Some (asArray (pipeline multiply_right multiply_left b crop transform filtering))) /\
  computeTransformMatrix None crop transform filtering =
  (if Rect.isEmpty crop
   then Some (asArray (multiply_left
                (fold_left multiply_right (orientationFactors transform) mtxIdentity)
                mtxFlipV))
   else None).
Proof.
  split.
  - intros b. apply computeTransformMatrix_pipeline.
  - apply computeTransformMatrix_null_buffer.
Qed.

(** C1, counterexample: with the flip-H and rot-90 bits set and an empty
    crop, the matrix computed is not the one obtained by multiplying every
    stage from the left, nor the one obtained by multiplying every stage
    from the right (which is what "from the left" means if the sixteen
    scalars are read row by row): the orientation stages and the two last
    stages are on opposite sides. *)
Lemma computeTransformMatrix_not_left_multiplied :
  let b := mkGraphicBuffer 1 4 4 4 0 PIXEL_FORMAT_RGBA_8888 in
  let transform := Z.lor NATIVE_WINDOW_TRANSFORM_FLIP_H NATIVE_WINDOW_TRANSFORM_ROT_90 in
  computeTransformMatrix (Some b) Rect.EMPTY_RECT transform true <>
    Some (asArray (pipeline multiply_left multiply_left b Rect.EMPTY_RECT transform true)) /\
  computeTransformMatrix (Some b) Rect.EMPTY_RECT transform true <>
    Some (asArray (pipeline multiply_right multiply_right b Rect.EMPTY_RECT transform true)).
Proof. split; vm_compute; discriminate. Qed.

Lemma shrinkAmount_cases filtering format :
  (filtering = false -> shrinkAmount filtering format = f0) /\
  (filtering = true -> In format nonSubsampledFormats ->
     shrinkAmount filtering format = fhalf) /\
  (filtering = true -> ~ In format nonSubsampledFormats ->
     shrinkAmount filtering format = f1).
Proof.
  split_and!.
  - intros ->. reflexivity.
  - intros -> Hin. simpl in Hin.
    destruct Hin as [<- | [<- | [<- | [<- | [<- | [<- | [<- | []]]]]]]]; reflexivity.
  - intros -> Hnot. unfold shrinkAmount.
    destruct (format =? PIXEL_FORMAT_RGBA_8888) eqn:E1;
    destruct (format =? PIXEL_FORMAT_RGBX_8888) eqn:E2;
    destruct (format =? PIXEL_FORMAT_RGBA_FP16) eqn:E3;
    destruct (format =? PIXEL_FORMAT_RGBA_1010102) eqn:E4;
    destruct (format =? PIXEL_FORMAT_RGB_888) eqn:E5;
    destruct (format =? PIXEL_FORMAT_RGB_565) eqn:E6;
    destruct (format =? PIXEL_FORMAT_BGRA_8888) eqn:E7;
    try reflexivity; exfalso; apply Hnot; simpl; bool_facts; subst; tauto.
Qed.

Lemma cropParams_untouched b crop filtering :
  let p := cropParams b crop filtering in
  (cropNarrower b crop = false -> tx p = f0 /\ sx p = f1) /\
  (cropShorter b crop = false -> ty p = f0 /\ sy p = f1).
Proof.
  unfold cropParams. split; intros H; rewrite H;
    destruct (cropNarrower b crop), (cropShorter b crop); simpl; split; reflexivity.
Qed.

(** C2. In the crop stage the edge-shrink amount is 0 when filtering is
    disabled, one half when filtering is enabled and the buffer's pixel
    format is one of RGBA-8888, RGBX-8888, RGBA-FP16, RGBA-1010102,
    RGB-888, RGB-565, BGRA-8888, and 1 for every other format; the
    offset and scale of an axis differ from 0 and 1 only if the test of
    the source holds, which it does only if the crop's extent is strictly
    smaller than the buffer's on that axis; and on an axis whose test
    holds the amount is what the stage applies: the offset is the crop's
    edge moved in by the amount and the scale is the crop's extent
    reduced by twice the amount, both divided by the buffer's extent.
    These offsets and scales are the entries of the crop matrix that
    [computeTransformMatrix] multiplies in for a crop that is not
    empty. *)
Theorem crop_edge_shrink b crop filtering transform :
  let p := cropParams b crop filtering in
  let format := getPixelFormat b in
  let amount := shrinkAmount filtering format in
  (filtering = false -> amount = f0) /\
  (filtering = true -> In format nonSubsampledFormats -> amount = fhalf) /\
  (filtering = true -> ~ In format nonSubsampledFormats -> amount = f1) /\
  fadd fhalf fhalf = f1 /\
  (tx p <> f0 \/ sx p <> f1 ->
     cropNarrower b crop = true /\ Rect.width crop < getWidth b) /\
  (ty p <> f0 \/ sy p <> f1 ->
     cropShorter b crop = true /\ Rect.height crop < getHeight b) /\
  (cropNarrower b crop = true ->
     tx p = fdiv (fadd (float_of_Z (Rect.left crop)) amount) (float_of_Z (getWidth b)) /\
     sx p = fdiv (fsub (float_of_Z (Rect.width crop)) (fmul f2 amount))
                 (float_of_Z (getWidth b))) /\
  (cropShorter b crop = true ->
     ty p = fdiv (fadd (fsub (float_of_Z (getHeight b)) (float_of_Z (Rect.bottom crop)))
                       amount)
                 (float_of_Z (getHeight b)) /\
     sy p = fdiv (fsub (float_of_Z (Rect.height crop)) (fmul f2 amount))
                 (float_of_Z (getHeight b))) /\
  (Rect.isEmpty crop = false ->
     computeTransformMatrix (Some b) crop transform filtering =
     Some (asArray
             (mat_mul mtxFlipV
                (mat_mul
                   (mat4_of_scalars (sx p) f0 f0 f0  f0 (sy p) f0 f0  f0 f0 f1 f0
                                    (tx p) (ty p) f0 f1)
                   (fold_left multiply_right (orientationFactors transform) mtxIdentity))))).
Proof.
  intros p format amount.
  destruct (shrinkAmount_cases filtering format) as (S0 & S1 & S2).
  destruct (cropParams_untouched b crop filtering) as (Hx & Hy). fold p in Hx, Hy.
  split_and!; try assumption; try reflexivity.
  - intros Hadj. destruct (cropNarrower b crop) eqn:Hn.
    + split; [reflexivity |]. unfold cropNarrower in Hn.
      destruct (Z.lt_ge_cases (Rect.width crop) (getWidth b)) as [? | Hge]; [assumption |].
      rewrite (float_of_Z_mono _ _ Hge) in Hn. discriminate.
    + destruct (Hx eq_refl). tauto.
  - intros Hadj. destruct (cropShorter b crop) eqn:Hn.
    + split; [reflexivity |]. unfold cropShorter in Hn.
      destruct (Z.lt_ge_cases (Rect.height crop) (getHeight b)) as [? | Hge]; [assumption |].
      rewrite (float_of_Z_mono _ _ Hge) in Hn. discriminate.
    + destruct (Hy eq_refl). tauto.
  - intros Hn. unfold p, cropParams. rewrite Hn.
    destruct (cropShorter b crop); split; reflexivity.
  - intros Hn. unfold p, cropParams. rewrite Hn.
    destruct (cropNarrower b crop); split; reflexivity.
  - intros Hne. rewrite computeTransformMatrix_pipeline.
    unfold pipeline. rewrite Hne. reflexivity.
Qed.

(** C2, witness: a 40x50 crop of the 100x100 RGBA-8888 example buffer,
    filtering enabled; the offset of the horizontal axis is (10 + 0.5) /
    100, which is not the offset without filtering. *)
Lemma crop_edge_shrink_witness :
  shrinkAmount true (getPixelFormat example_buffer) = fhalf /\
  Rect.width (Rect.mk 10 10 50 60) < getWidth example_buffer /\
  Rect.height (Rect.mk 10 10 50 60) < getHeight example_buffer /\
  tx (cropParams example_buffer (Rect.mk 10 10 50 60) true) =
    fdiv (fadd (float_of_Z 10) fhalf) (float_of_Z 100) /\
  tx (cropParams example_buffer (Rect.mk 10 10 50 60) true) <>
    tx (cropParams example_buffer (Rect.mk 10 10 50 60) false).
Proof.
  destruct (crop_edge_shrink example_buffer (Rect.mk 10 10 50 60) true 0)
    as (_ & Hhalf & _ & _ & Hx & Hy & Hsx & _).
  split_and!.
  - apply Hhalf; [reflexivity | simpl; tauto].
  - apply Hx. left. vm_compute. discriminate.
  - apply Hy. left. vm_compute. discriminate.
  - rewrite (proj1 (Hsx eq_refl)), Hhalf; [reflexivity | reflexivity | simpl; tauto].
  - vm_compute. discriminate.
Defined.

Lemma mat_mul_identity_oriented transform :
  let oriented := fold_left multiply_right (orientationFactors transform) mtxIdentity in
  mat_mul mtxIdentity oriented = oriented.
Proof.
  unfold orientationFactors.
  destruct (has_bit transform NATIVE_WINDOW_TRANSFORM_FLIP_H),
           (has_bit transform NATIVE_WINDOW_TRANSFORM_FLIP_V),
           (has_bit transform NATIVE_WINDOW_TRANSFORM_ROT_90);
    vm_compute; reflexivity.
Qed.

Lemma full_bounds_crop_params b filtering :
  GraphicBuffer_wf b -> Rect.wf (fullBounds b) ->
  cropParams b (fullBounds b) filtering = identityCropParams.
Proof.
  intros [Hw Hh] (_ & _ & Hr & Hb). simpl in Hr, Hb.
  unfold cropParams, cropNarrower, cropShorter, Rect.width, Rect.height, fullBounds.
  simpl. rewrite !Z.sub_0_r, !to_int32_small by assumption.
  rewrite !flt_irrefl. reflexivity.
Qed.

(** C8. For every filtering value and every transform bitmask, when the
    crop rect is the full bounds of the buffer the crop stage is the
    identity on both axes: offset 0 and scale 1 horizontally and
    vertically, the crop matrix is the identity matrix, and the matrix
    computed is the one computed without a crop. *)
Theorem full_bounds_crop_stage b filtering transform :
  GraphicBuffer_wf b -> Rect.wf (fullBounds b) ->
  cropParams b (fullBounds b) filtering = identityCropParams /\
  cropMatrix b (fullBounds b) filtering = mtxIdentity /\
  computeTransformMatrix (Some b) (fullBounds b) transform filtering =
    computeTransformMatrix (Some b) Rect.EMPTY_RECT transform filtering.
Proof.
  intros Hwf Hrect.
  pose proof (full_bounds_crop_params b filtering Hwf Hrect) as Hp.
  assert (Hm : cropMatrix b (fullBounds b) filtering = mtxIdentity).
  { unfold cropMatrix. rewrite Hp. reflexivity. }
  repeat split; [exact Hp | exact Hm |].
  rewrite !computeTransformMatrix_pipeline. unfold pipeline.
  change (Rect.isEmpty Rect.EMPTY_RECT) with true. cbv iota.
  destruct (Rect.isEmpty (fullBounds b)); [reflexivity |].
  unfold multiply_left at 2. rewrite Hm, mat_mul_identity_oriented. reflexivity.
Qed.

(** C8, witness: a 1920x1080 buffer cropped to its bounds, rot-90. *)
Lemma full_bounds_crop_stage_witness :
  let b := mkGraphicBuffer 1 1920 1080 1920 0 PIXEL_FORMAT_RGBA_8888 in
  cropParams b (fullBounds b) true = identityCropParams /\
  cropMatrix b (fullBounds b) true = mtxIdentity /\
  computeTransformMatrix (Some b) (fullBounds b) NATIVE_WINDOW_TRANSFORM_ROT_90 true =
    computeTransformMatrix (Some b) Rect.EMPTY_RECT NATIVE_WINDOW_TRANSFORM_ROT_90 true.
Proof.
  apply full_bounds_crop_stage.
  - unfold GraphicBuffer_wf, is_uint32; simpl; lia.
  - unfold Rect.wf, is_int32; simpl; lia.
Defined.

(** ** The accessors *)

Lemma getCurrentCrop_result s :
  getCurrentCrop s =
  Some (if mCurrentScalingMode (cur s) =? NATIVE_WINDOW_SCALING_MODE_SCALE_CROP
        then scaleDownCrop (mCurrentCrop (cur s)) (mDefaultWidth s) (mDefaultHeight s)
        else mCurrentCrop (cur s), s).
Proof.
  unfold getCurrentCrop. run.
  destruct (mCurrentScalingMode (cur s) =? NATIVE_WINDOW_SCALING_MODE_SCALE_CROP);
    reflexivity.
Qed.

(** C9. [getCurrentCrop] returns the stored crop rect unless the scaling
    mode is scale-to-crop, and then the scale-to-crop helper applied to
    the stored crop with the default width and height as target; the
    consumer, the stored crop included, is the same afterwards. *)
Theorem getCurrentCrop_by_scaling_mode s :
  (mCurrentScalingMode (cur s) <> NATIVE_WINDOW_SCALING_MODE_SCALE_CROP ->
     getCurrentCrop s = Some (mCurrentCrop (cur s), s)) /\
  (mCurrentScalingMode (cur s) = NATIVE_WINDOW_SCALING_MODE_SCALE_CROP ->
     getCurrentCrop s =
     Some (scaleDownCrop (mCurrentCrop (cur s)) (mDefaultWidth s) (mDefaultHeight s), s)).
Proof.
  rewrite getCurrentCrop_result. split; intros H.
  - apply Z.eqb_neq in H. rewrite H. reflexivity.
  - apply Z.eqb_eq in H. rewrite H. reflexivity.
Qed.

(** C9, witness: a 100x101 crop under scale-to-crop with default size 1x1, and the example binding under freeze. *)
Lemma getCurrentCrop_by_scaling_mode_witness :
  getCurrentCrop example_scale_crop =
  Some (Rect.mk 0 0 100 100, example_scale_crop) /\
  getCurrentCrop example_bound = Some (Rect.mk 0 0 100 100, example_bound).
Proof.
  split.
  - apply (proj2 (getCurrentCrop_by_scaling_mode example_scale_crop)). reflexivity.
  - apply (proj1 (getCurrentCrop_by_scaling_mode example_bound)). discriminate.
Defined.

(** ** An abandoned consumer *)

(** C3 (as amended). Once the Abandoned flag is set, [updateTexImage] and
    [setDefaultBufferSize] return NO_INIT and [setFilteringEnabled]
    returns at once, without any call and without changing the consumer;
    the accessors return the stored values, which are no status, also
    without any call; [setReleaseFence] and [setConsumerUsageBits] do not
    test the flag and go to the base class as they always do. *)
Theorem abandoned_operations w op s :
  mAbandoned s = true ->
  perform w op s = abandoned_outcome w op s.
Proof.
  intros Hab.
  destruct op; unfold perform, abandoned_outcome; run;
    try reflexivity.
  - unfold setDefaultBufferSize. run. rewrite Hab. reflexivity.
  - unfold updateTexImage. run. rewrite Hab. reflexivity.
  - unfold setReleaseFence, currentGraphicBuffer, deref. run.
    destruct (Fence_isValid fence && negb (mCurrentTexture (cur s) =? INVALID_BUFFER_SLOT));
      [| reflexivity].
    destruct (mCurrentTextureImage (cur s)) as [r |]; [| reflexivity].
    destruct (images s !! r); reflexivity.
  - unfold setFilteringEnabled. run. rewrite Hab. reflexivity.
  - unfold getCurrentBuffer, deref. run.
    destruct (mCurrentTextureImage (cur s)) as [r |]; [| reflexivity].
    destruct (images s !! r); reflexivity.
  - unfold getCurrentCrop. run.
    destruct (mCurrentScalingMode (cur s) =? NATIVE_WINDOW_SCALING_MODE_SCALE_CROP);
      reflexivity.
Qed.

(** C3, witness: an update of the abandoned example consumer. *)
Lemma abandoned_operations_witness :
  perform (example_world (NO_ERROR, example_item 4 8)) op_updateTexImage example_abandoned =
  Some (r_status NO_INIT, example_abandoned).
Proof.
  apply (abandoned_operations _ op_updateTexImage example_abandoned). reflexivity.
Defined.

(** C3, counterexample: on the abandoned example consumer [getTimestamp]
    returns the stored timestamp 1000, not the status NO_INIT. *)
Lemma abandoned_getTimestamp_is_no_status :
  let w := example_world (NO_ERROR, example_item 4 8) in
  ~ (forall op, exists s',
       perform w op example_abandoned = Some (r_status NO_INIT, s') /\
       calls s' = calls example_abandoned) /\
  perform w op_getTimestamp example_abandoned = Some (r_int 1000, example_abandoned).
Proof.
  split; [| reflexivity].
  intros H. destruct (H op_getTimestamp) as (s' & Hs' & _).
  vm_compute in Hs'. discriminate.
Qed.

(** ** The steps of an update *)

Lemma check_total w s :
  exists e s1, checkAndUpdateEglStateLocked w s = Some (e, s1).
Proof.
  unfold checkAndUpdateEglStateLocked. run. split_ifs; eauto.
Qed.

(** The EGL state check touches [mEglDisplay] and [mEglContext] only. *)
Lemma check_frame w s e s1 :
  checkAndUpdateEglStateLocked w s = Some (e, s1) ->
  cur s1 = cur s /\ calls s1 = calls s /\ images s1 = images s /\
  mEglSlots s1 = mEglSlots s /\ mAbandoned s1 = mAbandoned s /\
  mTexName s1 = mTexName s /\ mFilteringEnabled s1 = mFilteringEnabled s /\
  mDefaultWidth s1 = mDefaultWidth s /\ mDefaultHeight s1 = mDefaultHeight s.
Proof.
  unfold checkAndUpdateEglStateLocked. run.
  split_ifs; intros [= <- <-]; cbn; repeat split.
Qed.

Lemma check_ok w s s1 :
  checkAndUpdateEglStateLocked w s = Some (NO_ERROR, s1) ->
  mEglDisplay s1 = eglGetCurrentDisplay w /\ mEglDisplay s1 <> EGL_NO_DISPLAY /\
  mEglContext s1 = eglGetCurrentContext w /\ mEglContext s1 <> EGL_NO_CONTEXT.
Proof.
  unfold checkAndUpdateEglStateLocked. run.
  destruct (mEglDisplay s =? EGL_NO_DISPLAY) eqn:Hd;
  destruct (mEglContext s =? EGL_NO_CONTEXT) eqn:Hc; cbn; rewrite ?Hc;
  split_ifs_eqn; intros [= E]; try discriminate E; subst s1; cbn in *;
  bool_facts; repeat split; congruence.
Qed.

(** Once the check has passed it passes again and changes nothing. *)
Lemma check_again w s s1 :
  checkAndUpdateEglStateLocked w s = Some (NO_ERROR, s1) ->
  checkAndUpdateEglStateLocked w s1 = Some (NO_ERROR, s1).
Proof.
  intros H. destruct (check_ok w s s1 H) as (Hd & Hd' & Hc & Hc').
  unfold checkAndUpdateEglStateLocked. run.
  apply Z.eqb_neq in Hd', Hc'. rewrite Hd'. cbn. rewrite Hc'. cbn.
  rewrite Hd, Hc, !Z.eqb_refl. cbn.
  rewrite <- Hd, <- Hc, Hd', Hc'. reflexivity.
Qed.

Lemma check_pass w s :
  mEglDisplay s = eglGetCurrentDisplay w -> mEglDisplay s <> EGL_NO_DISPLAY ->
  mEglContext s = eglGetCurrentContext w -> mEglContext s <> EGL_NO_CONTEXT ->
  checkAndUpdateEglStateLocked w s = Some (NO_ERROR, s).
Proof.
  intros Hd Hd' Hc Hc'.
  unfold checkAndUpdateEglStateLocked. run.
  apply Z.eqb_neq in Hd', Hc'. rewrite Hd'. cbn. rewrite Hc'. cbn.
  rewrite <- Hd, <- Hc, !Z.eqb_refl, Hd', Hc'. reflexivity.
Qed.

Lemma same_settings_refl s : same_settings s s.
Proof. unfold same_settings. tauto. Qed.

Lemma bind_ext {A B} (m : M A) (k1 k2 : A -> M B) s :
  (forall a s', m s = Some (a, s') -> k1 a s' = k2 a s') ->
  bind m k1 s = bind m k2 s.
Proof.
  intros H. unfold bind. destruct (m s) as [[a s'] |]; [apply H |]; reflexivity.
Qed.

Lemma read_mEglSlots_frame slot s r s' :
  read_mEglSlots slot s = Some (r, s') -> s' = s.
Proof.
  unfold read_mEglSlots.
  destruct (slot_in_bounds slot); [| discriminate].
  destruct (mEglSlots s !! Z.to_nat slot); [| discriminate].
  congruence.
Qed.

(** [createIfNeeded] rewrites the image object it is called on and makes
    EGL calls; it succeeds whenever [eglCreateImageKHR] does. *)
Lemma createIfNeeded_result w created r d crop s img :
  images s !! r = Some img ->
  exists e s' img' cs,
    createIfNeeded w created r d crop s = Some (e, s') /\
    cur s' = cur s /\ mEglSlots s' = mEglSlots s /\ same_settings s s' /\
    images s' = <[r := img']> (images s) /\
    EglImage.mGraphicBuffer img' = EglImage.mGraphicBuffer img /\
    calls s' = calls s ++ cs /\
    (created <> EGL_NO_IMAGE_KHR -> e = OK) /\
    (e = OK \/ e = UNKNOWN_ERROR).
Proof.
  intros Himg.
  unfold createIfNeeded, createImage, deref, store. run. rewrite Himg.
  destruct (negb (EglImage.mEglImage img =? EGL_NO_IMAGE_KHR) &&
            (negb (EglImage.mEglDisplay img =? d)
             || hasEglAndroidImageCrop w && negb (Rect.eqb (EglImage.mCropRect img) crop)))
    eqn:Hstale; cbn.
  - destruct (created =? EGL_NO_IMAGE_KHR) eqn:Hcreated; cbn; rewrite Hcreated;
      (eexists _, _, _, _; split; [reflexivity |]); cbn;
      rewrite <- !app_assoc;
      (repeat split; try reflexivity); try (left; reflexivity); try (right; reflexivity).
    intros Hne. apply Z.eqb_eq in Hcreated. contradiction.
  - destruct (EglImage.mEglImage img =? EGL_NO_IMAGE_KHR) eqn:Hnone; cbn.
    + destruct (created =? EGL_NO_IMAGE_KHR) eqn:Hcreated; cbn; rewrite Hcreated;
        (eexists _, _, _, _; split; [reflexivity |]); cbn;
        rewrite <- !app_assoc;
        (repeat split; try reflexivity); try (left; reflexivity); try (right; reflexivity).
      intros Hne. apply Z.eqb_eq in Hcreated. contradiction.
    + rewrite Hnone.
      exists OK, (set_images (<[r := img]> (images s)) s), img, [].
      cbn. rewrite app_nil_r.
      repeat split; try reflexivity. left; reflexivity.
Qed.

Lemma createIfNeeded_frame w created r d crop s e s' :
  createIfNeeded w created r d crop s = Some (e, s') -> cur s' = cur s.
Proof.
  intros H. 
  destruct (images s !! r) as [img |] eqn:Himg.
  - destruct (createIfNeeded_result w created r d crop s img Himg)
      as (e' & s2 & _ & _ & Hrun & Hcur & _).
    rewrite Hrun in H. injection H as <- <-. exact Hcur.
  - unfold createIfNeeded, bind, deref in H. rewrite Himg in H. discriminate.
Qed.

Lemma ref_ok_lookup s (r : ref) :
  ref_ok s (Some r) = true -> exists img, images s !! r = Some img.
Proof.
  cbn. intros H. apply Nat.ltb_lt in H.
  apply lookup_lt_is_Some_2 in H as [img Himg]. eauto.
Qed.

Lemma decStrong_result held p s :
  ref_ok s p = true ->
  exists s',
    decStrong held p s = Some (tt, s') /\
    cur s' = cur s /\ images s' = images s /\ mEglSlots s' = mEglSlots s /\
    same_settings s s' /\ calls s' = calls s ++ decStrong_calls held p s.
Proof.
  intros Hok. destruct p as [r |]; cbn [decStrong decStrong_calls].
  - run. destruct (referenced held r s).
    + exists s. rewrite app_nil_r. split_and!; try reflexivity. apply same_settings_refl.
    + destruct (ref_ok_lookup s r Hok) as [img Himg].
      unfold EglImage_destructor, deref. run. rewrite Himg. unfold destructor_calls.
      destruct (EglImage.mEglImage img =? EGL_NO_IMAGE_KHR); cbn.
      * exists s. rewrite app_nil_r. split_and!; try reflexivity. apply same_settings_refl.
      * eexists. split; [reflexivity |]. cbn. rewrite <- app_assoc.
        split_and!; try reflexivity. unfold same_settings; cbn; tauto.
  - exists s. run. rewrite app_nil_r. split_and!; try reflexivity. apply same_settings_refl.
Qed.

Lemma decStrong_frame held p s u s' :
  decStrong held p s = Some (u, s') ->
  cur s' = cur s /\ images s' = images s /\ mEglSlots s' = mEglSlots s /\
  same_settings s s' /\ calls s' = calls s ++ decStrong_calls held p s.
Proof.
  destruct p as [r |]; cbn [decStrong decStrong_calls]; run.
  - destruct (referenced held r s).
    + intros [= _ <-]. rewrite app_nil_r. split_and!; try reflexivity.
      apply same_settings_refl.
    + unfold EglImage_destructor, deref. run.
      destruct (images s !! r) as [img |]; [| discriminate]. unfold destructor_calls.
      destruct (EglImage.mEglImage img =? EGL_NO_IMAGE_KHR); cbn; intros [= _ <-]; cbn.
      * rewrite app_nil_r. split_and!; try reflexivity. apply same_settings_refl.
      * rewrite <- app_assoc. split_and!; try reflexivity. unfold same_settings; cbn; tauto.
  - intros [= _ <-]. rewrite app_nil_r. split_and!; try reflexivity.
    apply same_settings_refl.
Qed.

Lemma decStrong_calls_same held p s s' :
  cur s' = cur s -> mEglSlots s' = mEglSlots s -> images s' = images s ->
  decStrong_calls held p s' = decStrong_calls held p s.
Proof.
  intros Hc Hs Hi. unfold decStrong_calls, referenced. rewrite Hc, Hs, Hi. reflexivity.
Qed.

Lemma freeBufferLocked_result held slot s x :
  slot_in_bounds slot = true ->
  mEglSlots s !! Z.to_nat slot = Some x ->
  ref_ok s x = true ->
  exists s',
    freeBufferLocked_holding held slot s = Some (tt, s') /\
    images s' = images s /\ same_settings s s' /\
    mEglSlots s' = <[Z.to_nat slot := None]> (mEglSlots s) /\
    calls s' = calls s ++ decStrong_calls held x s' ++ [ConsumerBase_freeBufferLocked slot] /\
    cur s' = (if slot =? mCurrentTexture (cur s)
              then set_mCurrentTexture INVALID_BUFFER_SLOT (cur s) else cur s).
Proof.
  intros Hb Hx Hok. unfold freeBufferLocked_holding, read_mEglSlots, write_mEglSlots. run.
  destruct (slot =? mCurrentTexture (cur s)); cbv beta iota; rewrite Hb; cbn [mEglSlots set_cur];
    rewrite Hx; cbv beta iota; cbn [mEglSlots set_cur]; rewrite ?Hx; cbv beta iota.
  all: match goal with
       | |- context [decStrong _ _ ?s2] =>
           destruct (decStrong_result held x s2) as (s3 & Hrun3 & D1 & D2 & D3 & D4 & D5);
             [destruct x as [r |]; [exact Hok | reflexivity] |];
             rewrite Hrun3; eexists; (split; [reflexivity |]);
             rewrite <- (decStrong_calls_same held x s2
                           (set_calls (calls s3 ++ [ConsumerBase_freeBufferLocked slot]) s3))
               in D5 by assumption;
             cbn [set_calls cur mEglSlots images calls mAbandoned mDefaultWidth mDefaultHeight
                    mFilteringEnabled mTexName mEglDisplay mEglContext];
             rewrite D2, D3, D5, D1; cbn; rewrite <- app_assoc; split_and!; try reflexivity;
             destruct D4 as (? & ? & ? & ? & ? & ? & ?);
             unfold same_settings; cbn in *; split_and!; congruence
       end.
Qed.

Lemma releaseBufferLocked_result held w slot buf s :
  (releaseFreesSlot w slot = true ->
   slot_in_bounds slot = true /\
   exists x, mEglSlots s !! Z.to_nat slot = Some x /\ ref_ok s x = true) ->
  exists s' cs,
    releaseBufferLocked_holding held w slot buf s = Some (released w slot, s') /\
    images s' = images s /\ same_settings s s' /\
    mEglSlots s' = (if releaseFreesSlot w slot
                    then <[Z.to_nat slot := None]> (mEglSlots s) else mEglSlots s) /\
    calls s' = calls s ++ ConsumerBase_releaseBufferLocked slot buf :: cs /\
    cur s' = (if releaseFreesSlot w slot && (slot =? mCurrentTexture (cur s))
              then set_mCurrentTexture INVALID_BUFFER_SLOT (cur s) else cur s) /\
    (cs = [] \/
     exists x, mEglSlots s !! Z.to_nat slot = Some x /\
               cs = decStrong_calls held x s' ++ [ConsumerBase_freeBufferLocked slot]).
Proof.
  intros Hfree. unfold releaseBufferLocked_holding. run.
  destruct (releaseFreesSlot w slot) eqn:Hf; cbv beta iota.
  - destruct (Hfree eq_refl) as [Hb (x & Hx & Hok)].
    destruct (freeBufferLocked_result held slot
                (set_calls (calls s ++ [ConsumerBase_releaseBufferLocked slot buf]) s) x Hb Hx Hok)
      as (s' & Hrun & Himg & Hset & Hslots & Hcalls & Hcur).
    rewrite Hrun.
    exists s', (decStrong_calls held x s' ++ [ConsumerBase_freeBufferLocked slot]).
    destruct Hset as (? & ? & ? & ? & ? & ? & ?).
    cbn in *. rewrite Hcalls, <- app_assoc. split_and!; try assumption; try reflexivity.
    + unfold same_settings. tauto.
    + right. exists x. split; [exact Hx | reflexivity].
  - eexists _, []. split; [reflexivity |]. cbn. split_and!; try reflexivity.
    + unfold same_settings; cbn; tauto.
    + left. reflexivity.
Qed.

Lemma syncForReleaseLocked_result w dpy s :
  (mCurrentTexture (cur s) <> INVALID_BUFFER_SLOT ->
   exists r img, mCurrentTextureImage (cur s) = Some r /\ images s !! r = Some img) ->
  exists e s' cs,
    syncForReleaseLocked w dpy s = Some (e, s') /\
    cur s' = cur s /\ images s' = images s /\ mEglSlots s' = mEglSlots s /\
    same_settings s s' /\ calls s' = calls s ++ cs /\
    (releaseSyncSucceeds w -> e = NO_ERROR) /\
    (releaseSyncFails w -> mCurrentTexture (cur s) <> INVALID_BUFFER_SLOT ->
     e <> NO_ERROR /\ existsb is_sync_call cs = true).
Proof.
  intros Himg. unfold syncForReleaseLocked, releaseSyncSucceeds, releaseSyncFails. run.
  destruct (mCurrentTexture (cur s) =? INVALID_BUFFER_SLOT) eqn:Hslot; cbv beta iota.
  { apply Z.eqb_eq in Hslot.
    exists OK, s, []. rewrite app_nil_r.
    repeat split; try reflexivity; intros; try reflexivity; contradiction. }
  apply Z.eqb_neq in Hslot. destruct (Himg Hslot) as (r & img & Hr & Hi).
  destruct (useNativeFenceSync w) eqn:Hnative; cbv beta iota.
  2:{ exists OK, s, []. rewrite app_nil_r.
      repeat split; try reflexivity; intros; try reflexivity;
        match goal with H : _ /\ _ |- _ => destruct H; discriminate end. }
  destruct (createdReleaseSync w =? EGL_NO_SYNC_KHR) eqn:Hsync; cbv beta iota.
  { eexists _, _, _. split; [reflexivity |]. cbn. rewrite <- !app_assoc.
    apply Z.eqb_eq in Hsync.
    repeat split; try reflexivity; try discriminate.
    intros [? | (? & _)]; [discriminate | contradiction]. }
  destruct (dupedNativeFenceFd w =? EGL_NO_NATIVE_FENCE_FD_ANDROID) eqn:Hdup; cbv beta iota.
  { eexists _, _, _. split; [reflexivity |]. cbn. rewrite <- !app_assoc.
    apply Z.eqb_eq in Hdup.
    repeat split; try reflexivity; try discriminate.
    intros [? | (_ & ? & _)]; [discriminate | contradiction]. }
  unfold currentGraphicBuffer, deref. run. cbn. rewrite Hr. cbn. rewrite Hi. cbn.
  apply Z.eqb_neq in Hsync, Hdup.
  destruct (addedReleaseFence w =? OK) eqn:Hadd; cbn.
  - apply Z.eqb_eq in Hadd.
    eexists _, _, _. split; [reflexivity |]. cbn. rewrite <- !app_assoc.
    repeat split; try reflexivity;
      match goal with
      | H : _ /\ (_ \/ _) |- _ => destruct H as (_ & [? | [? | ?]]); contradiction
      end.
  - apply Z.eqb_neq in Hadd.
    eexists _, _, _. split; [reflexivity |]. cbn. rewrite <- !app_assoc.
    repeat split; try reflexivity; try assumption.
    intros [? | (_ & _ & ?)]; [discriminate | contradiction].
Qed.

Lemma well_formed_facts s :
  well_formed s = true ->
  length (mEglSlots s) = Z.to_nat NUM_BUFFER_SLOTS /\
  (forall r, mCurrentTextureImage (cur s) = Some r -> (r < length (images s))%nat) /\
  (mCurrentTexture (cur s) <> INVALID_BUFFER_SLOT ->
   slot_in_bounds (mCurrentTexture (cur s)) = true /\
   exists r, mCurrentTextureImage (cur s) = Some r).
Proof.
  unfold well_formed. rewrite !andb_true_iff, orb_true_iff.
  intros (((Hlen & _) & Hcur) & Hbound).
  split; [apply Nat.eqb_eq, Hlen |]. split.
  - intros r Hr. rewrite Hr in Hcur. apply Nat.ltb_lt, Hcur.
  - intros Hne. destruct Hbound as [Hinv | Hb].
    + apply Z.eqb_eq in Hinv. contradiction.
    + apply andb_true_iff in Hb as [Hb Hi]. split; [exact Hb |].
      destruct (mCurrentTextureImage (cur s)) as [r |]; [eauto | discriminate].
Qed.

Lemma well_formed_slots s i x :
  well_formed s = true -> mEglSlots s !! i = Some x -> ref_ok s x = true.
Proof.
  unfold well_formed. rewrite !andb_true_iff. intros (((_ & Hslots) & _) & _) Hx.
  rewrite forallb_forall in Hslots. apply Hslots.
  apply list_elem_of_In. eapply list_elem_of_lookup_2. exact Hx.
Qed.

Lemma ref_ok_same s s' x :
  length (images s') = length (images s) -> ref_ok s' x = ref_ok s x.
Proof. intros H. destruct x as [r |]; cbn; [rewrite H |]; reflexivity. Qed.

Lemma slot_lookup s slot :
  length (mEglSlots s) = Z.to_nat NUM_BUFFER_SLOTS ->
  slot_in_bounds slot = true ->
  is_Some (mEglSlots s !! Z.to_nat slot).
Proof.
  intros Hlen Hb. apply lookup_lt_is_Some. rewrite Hlen.
  unfold slot_in_bounds in Hb. apply andb_true_iff in Hb as [H0 H1].
  apply Z.leb_le in H0. apply Z.ltb_lt in H1. lia.
Qed.

Lemma computeCurrentTransformMatrixLocked_result w s r img :
  mCurrentTextureImage (cur s) = Some r ->
  images s !! r = Some img ->
  computeCurrentTransformMatrixLocked w s =
  Some (tt, set_cur (set_mCurrentTransformMatrix
                       (asArray (pipeline multiply_right multiply_left (EglImage.mGraphicBuffer img)
                          (if isEglImageCroppable w (mCurrentCrop (cur s))
                           then Rect.EMPTY_RECT else mCurrentCrop (cur s))
                          (mCurrentTransform (cur s)) (mFilteringEnabled s)))
                       (cur s)) s).
Proof.
  intros Hr Hi. unfold computeCurrentTransformMatrixLocked, deref. run.
  rewrite Hr, Hi. rewrite computeTransformMatrix_pipeline. reflexivity.
Qed.

Lemma acquireBufferLocked_frame w s e item s' :
  acquireBufferLocked w s = Some ((e, item), s') ->
  acquired w = (e, item) /\ cur s' = cur s /\ same_settings s s' /\
  exists cs, calls s' = calls s ++ ConsumerBase_acquireBufferLocked :: cs.
Proof.
  unfold acquireBufferLocked, new_EglImage, read_mEglSlots, write_mEglSlots. run.
  destruct (acquired w) as [e0 item0].
  destruct (negb (e0 =? NO_ERROR)) eqn:He.
  - intros [= <- <- <-]. split_and!; try reflexivity.
    + unfold same_settings; cbn; tauto.
    + exists []. reflexivity.
  - apply negb_false_iff, Z.eqb_eq in He. subst e0.
    destruct (BufferItem.mGraphicBuffer item0); cbn.
    + destruct (slot_in_bounds (BufferItem.mSlot item0)); [| discriminate].
      cbn [mEglSlots set_images set_calls].
      destruct (mEglSlots s !! Z.to_nat (BufferItem.mSlot item0)) as [image |] eqn:Hslot;
        [| discriminate].
      cbv beta iota. cbn [mEglSlots set_images set_calls]. rewrite Hslot. cbv beta iota.
      match goal with
      | |- context [decStrong None image ?s2] =>
          destruct (decStrong None image s2) as [[[] s3] |] eqn:Hdrop; [| discriminate];
            apply decStrong_frame in Hdrop as (D1 & D2 & D3 & D4 & D5)
      end.
      intros [= <- <- <-]. cbn in D1, D5. destruct D4 as (? & ? & ? & ? & ? & ? & ?).
      split_and!; try reflexivity; try assumption.
      * unfold same_settings; cbn in *; tauto.
      * rewrite D5, <- app_assoc. eexists. reflexivity.
    + intros [= <- <- <-]. split_and!; try reflexivity.
      * unfold same_settings; cbn; tauto.
      * exists []. reflexivity.
Qed.

(** ** No buffer available *)

(** C6. When the consumer is not abandoned, the context check passes and
    the acquire step reports that no buffer is available, [updateTexImage]
    returns NO_ERROR, the current binding (slot, image, crop, transform,
    scaling mode, timestamp, dataspace, fence, frame number, transform
    matrix) is unchanged, as are the slot array and the image objects,
    and the calls made are the acquire and the re-binding of the
    consumer's texture. *)
Theorem updateTexImage_no_buffer_available w s s1 item :
  mAbandoned s = false ->
  checkAndUpdateEglStateLocked w s = Some (NO_ERROR, s1) ->
  acquired w = (NO_BUFFER_AVAILABLE, item) ->
  exists s',
    updateTexImage w s = Some (NO_ERROR, s') /\
    cur s' = cur s /\
    calls s' = calls s ++ [ConsumerBase_acquireBufferLocked;
                           glBindTexture sTexTarget (mTexName s)] /\
    mEglSlots s' = mEglSlots s /\ images s' = images s.
Proof.
  intros Hab Hcheck Hacq.
  destruct (check_frame w s _ s1 Hcheck) as (C1 & C2 & C3 & C4 & _).
  unfold updateTexImage, acquireBufferLocked. run.
  rewrite Hab, Hcheck. cbv beta iota.
  change (negb (NO_ERROR =? NO_ERROR)) with false. cbv beta iota.
  rewrite Hacq. cbv beta iota.
  change (negb (NO_BUFFER_AVAILABLE =? NO_ERROR)) with true. cbv beta iota.
  change (NO_BUFFER_AVAILABLE =? NO_BUFFER_AVAILABLE) with true. cbv beta iota.
  eexists. split; [reflexivity |]. cbn.
  rewrite C1, C2, C3, C4, <- app_assoc. split_and!; reflexivity.
Qed.

(** C6, witness: the example consumer, bound to slot 3, finds no buffer. *)
Lemma updateTexImage_no_buffer_available_witness :
  exists s',
    updateTexImage (example_world (NO_BUFFER_AVAILABLE, example_item 4 8)) example_bound =
      Some (NO_ERROR, s') /\
    cur s' = cur example_bound /\
    calls s' = calls example_bound ++ [ConsumerBase_acquireBufferLocked;
                                       glBindTexture sTexTarget (mTexName example_bound)] /\
    mEglSlots s' = mEglSlots example_bound /\ images s' = images example_bound.
Proof.
  apply (updateTexImage_no_buffer_available
           (example_world (NO_BUFFER_AVAILABLE, example_item 4 8))
           example_bound example_bound (example_item 4 8)); reflexivity.
Defined.

(** ** A release failure during commit *)

Lemma updateAndReleaseLocked_release_failure w item s s1 r img :
  well_formed s = true ->
  checkAndUpdateEglStateLocked w s = Some (NO_ERROR, s1) ->
  slot_in_bounds (BufferItem.mSlot item) = true ->
  mEglSlots s !! Z.to_nat (BufferItem.mSlot item) = Some (Some r) ->
  images s !! r = Some img ->
  createdImage w <> EGL_NO_IMAGE_KHR ->
  releaseSyncSucceeds w ->
  mCurrentTexture (cur s) <> INVALID_BUFFER_SLOT ->
  released w (mCurrentTexture (cur s)) < NO_ERROR ->
  exists s',
    updateAndReleaseLocked w item None s =
      Some ((released w (mCurrentTexture (cur s)), None), s') /\
    cur s' = committedBinding w item r (EglImage.mGraphicBuffer img) (mFilteringEnabled s).
Proof.
  intros Hwf Hcheck Hb Hslot Himg Hcreated Hsync Hbound Hrel.
  destruct (well_formed_facts s Hwf) as (Hlen & Hcurref & Hcurslot).
  destruct (Hcurslot Hbound) as (Hcb & cr & Hcr).
  pose proof (Hcurref cr Hcr) as Hcrlt.
  destruct (check_frame w s _ s1 Hcheck)
    as (C1 & C2 & C3 & C4 & C5 & C6 & C7 & C8 & C9).
  unfold updateAndReleaseLocked. run. rewrite Hcheck. cbv beta iota.
  change (negb (NO_ERROR =? NO_ERROR)) with false. cbv beta iota.
  unfold read_mEglSlots at 1. rewrite Hb, C4, Hslot.
  destruct (createIfNeeded_result w (createdImage w) r (mEglDisplay s1)
              (BufferItem.mCrop item) s1 img ltac:(rewrite C3; exact Himg))
    as (e & s2 & img' & cs & Hrun & D1 & D2 & D3 & D4 & D5 & D6 & D7 & D8).
  rewrite Hrun. rewrite (D7 Hcreated). cbv beta iota.
  change (negb (OK =? NO_ERROR)) with false. cbv beta iota.
  assert (Hcri : exists cimg, images s2 !! cr = Some cimg).
  { apply lookup_lt_is_Some_2. rewrite D4, length_insert, C3. exact Hcrlt. }
  destruct Hcri as [cimg Hcimg].
  assert (Hstep : exists s3,
             (if negb (BufferItem.mSlot item =? mCurrentTexture (cur s2))
              then syncForReleaseLocked w (mEglDisplay s2)
              else fun s0 : Consumer => Some (OK, s0)) s2 = Some (NO_ERROR, s3) /\
             cur s3 = cur s2 /\ images s3 = images s2 /\
             mEglSlots s3 = mEglSlots s2 /\ same_settings s2 s3).
  { destruct (negb (BufferItem.mSlot item =? mCurrentTexture (cur s2))).
    - destruct (syncForReleaseLocked_result w (mEglDisplay s2) s2)
        as (e3 & s3 & cs3 & Hrun3 & E1 & E2 & E3 & E4 & _ & E6 & _).
      { intros _. exists cr, cimg. rewrite D1, C1. split; assumption. }
      exists s3. rewrite Hrun3, (E6 Hsync). split_and!; try assumption; reflexivity.
    - exists s2. split_and!; try reflexivity. apply same_settings_refl. }
  destruct Hstep as (s3 & Hrun3 & E1 & E2 & E3 & E4).
  rewrite Hrun3. cbv beta iota.
  change (negb (NO_ERROR =? NO_ERROR)) with false. cbv beta iota.
  unfold read_mEglSlots. rewrite Hb, E3, D2, C4, Hslot.
  rewrite E1, D1, C1.
  apply Z.eqb_neq in Hbound as Hbound'. rewrite Hbound'. cbv beta iota.
  change (negb false) with true. cbv beta iota.
  unfold currentGraphicBuffer, deref. run.
  rewrite E1, D1, C1, Hcr, E2, Hcimg.
  assert (Hlen3 : length (images s3) = length (images s)).
  { rewrite E2, D4, length_insert, C3. reflexivity. }
  destruct (releaseBufferLocked_result (Some r) w (mCurrentTexture (cur s))
              (Some (EglImage.mGraphicBuffer cimg)) s3)
    as (s4 & cs4 & Hrun4 & F1 & F2 & F3 & F4 & F5 & _).
  { intros _. split; [exact Hcb |].
    destruct (slot_lookup s (mCurrentTexture (cur s)) Hlen Hcb) as [x Hx].
    exists x. rewrite E3, D2, C4. split; [exact Hx |].
    rewrite (ref_ok_same s s3 x Hlen3). exact (well_formed_slots s _ x Hwf Hx). }
  rewrite Hrun4.
  apply Z.ltb_lt in Hrel as Hrel'. rewrite Hrel'. cbv beta iota.
  assert (Hold : mCurrentTextureImage (cur s4) = Some cr).
  { rewrite F5, E1, D1, C1.
    destruct (releaseFreesSlot w (mCurrentTexture (cur s)) &&
              (mCurrentTexture (cur s) =? mCurrentTexture (cur s))); exact Hcr. }
  rewrite Hold.
  assert (Hr2 : images s4 !! r = Some img').
  { rewrite F1, E2, D4. apply list_lookup_insert_eq.
    rewrite C3. apply lookup_lt_is_Some. eauto. }
  set (s5 := set_cur (committed (BufferItem.mSlot item) (Some r) item (cur s4)) s4).
  destruct (decStrong_result (Some r) (Some cr) s5) as (s6 & Hrun6 & G1 & G2 & G3 & G4 & G5).
  { cbn. apply Nat.ltb_lt. rewrite F1, Hlen3. exact Hcrlt. }
  rewrite Hrun6. cbv beta iota.
  assert (Hc6 : mCurrentTextureImage (cur s6) = Some r) by (rewrite G1; reflexivity).
  assert (Hi6 : images s6 !! r = Some img') by (rewrite G2; exact Hr2).
  rewrite (computeCurrentTransformMatrixLocked_result w s6 r img' Hc6 Hi6).
  cbv beta iota.
  match goal with
  | |- context [decStrong None (Some r) ?s7] =>
      destruct (decStrong_result None (Some r) s7) as (s8 & Hrun8 & K1 & K2 & K3 & K4 & K5);
        [cbn; rewrite G2; apply Nat.ltb_lt, lookup_lt_is_Some; cbn; eauto |]
  end.
  rewrite Hrun8. eexists. split; [reflexivity |].
  rewrite K1. cbn. rewrite G1. cbn. unfold committedBinding.
  destruct F2 as (_ & _ & _ & F2 & _). destruct E4 as (_ & _ & _ & E4 & _).
  destruct D3 as (_ & _ & _ & D3 & _). destruct G4 as (_ & _ & _ & G4 & _).
  rewrite D5, G4. cbn. rewrite F2, E4, D3, C7. reflexivity.
Qed.

Lemma updateTexImage_reports w s0 s1 s item e p s' :
  mAbandoned s0 = false ->
  checkAndUpdateEglStateLocked w s0 = Some (NO_ERROR, s1) ->
  acquireBufferLocked w s1 = Some ((NO_ERROR, item), s) ->
  updateAndReleaseLocked w item None s = Some ((e, p), s') ->
  e <> NO_ERROR ->
  updateTexImage w s0 =
  Some (e, set_calls (calls s' ++ [glBindTexture sTexTarget (mTexName s0)]) s').
Proof.
  intros Hab Hcheck Hacq Hupd He.
  unfold updateTexImage. run.
  rewrite Hab, Hcheck. cbv beta iota.
  change (negb (NO_ERROR =? NO_ERROR)) with false. cbv beta iota.
  rewrite Hacq. cbv beta iota.
  change (negb (NO_ERROR =? NO_ERROR)) with false. cbv beta iota.
  rewrite Hupd. cbv beta iota.
  apply Z.eqb_neq in He. rewrite He. reflexivity.
Qed.

(** C4. In an update that has acquired [item] and reaches the commit step
    (context check passed, image of the slot created, release
    synchronisation succeeded) with a buffer bound, if the release of the
    previously bound buffer fails then the new state is committed all the
    same: slot, image reference, crop, transform, scaling mode,
    timestamp, dataspace, fence, fence-time and frame number are the
    item's and the transform matrix is recomputed from them; and both
    [updateAndReleaseLocked] and [updateTexImage] return the release
    error. *)
Theorem release_failure_still_commits w item s0 s1 s r img :
  mAbandoned s0 = false ->
  checkAndUpdateEglStateLocked w s0 = Some (NO_ERROR, s1) ->
  acquireBufferLocked w s1 = Some ((NO_ERROR, item), s) ->
  well_formed s = true ->
  slot_in_bounds (BufferItem.mSlot item) = true ->
  mEglSlots s !! Z.to_nat (BufferItem.mSlot item) = Some (Some r) ->
  images s !! r = Some img ->
  createdImage w <> EGL_NO_IMAGE_KHR ->
  releaseSyncSucceeds w ->
  mCurrentTexture (cur s) <> INVALID_BUFFER_SLOT ->
  released w (mCurrentTexture (cur s)) < NO_ERROR ->
  exists s' s'',
    updateAndReleaseLocked w item None s =
      Some ((released w (mCurrentTexture (cur s)), None), s') /\
    cur s' = committedBinding w item r (EglImage.mGraphicBuffer img) (mFilteringEnabled s) /\
    updateTexImage w s0 = Some (released w (mCurrentTexture (cur s)), s'') /\
    cur s'' = cur s'.
Proof.
  intros Hab Hcheck Hacq Hwf Hb Hslot Himg Hcreated Hsync Hbound Hrel.
  destruct (check_ok w s0 s1 Hcheck) as (Hd & Hd' & Hc & Hc').
  destruct (acquireBufferLocked_frame w s1 _ _ s Hacq)
    as (_ & _ & (_ & _ & _ & _ & _ & Sd & Sc) & _).
  assert (Hcheck' : checkAndUpdateEglStateLocked w s = Some (NO_ERROR, s)).
  { apply check_pass; congruence. }
  destruct (updateAndReleaseLocked_release_failure w item s s r img
              Hwf Hcheck' Hb Hslot Himg Hcreated Hsync Hbound Hrel)
    as (s' & Hupd & Hcur).
  exists s'. eexists. split; [exact Hupd |]. split; [exact Hcur |]. split.
  - apply (updateTexImage_reports w s0 s1 s item _ None s' Hab Hcheck Hacq Hupd).
    unfold NO_ERROR in *. lia.
  - reflexivity.
Qed.

(** C4, witness: the example consumer acquires slot 4 and the queue refuses the release of slot 3 with status -5. *)
Lemma release_failure_still_commits_witness :
  exists s' s'',
    updateAndReleaseLocked example_world_release_fails (example_item 4 8) None example_acquired =
      Some ((-5, None), s') /\
    cur s' = committedBinding example_world_release_fails (example_item 4 8) 1%nat
               example_buffer true /\
    updateTexImage example_world_release_fails example_bound = Some (-5, s'') /\
    cur s'' = cur s'.
Proof.
  apply (release_failure_still_commits example_world_release_fails (example_item 4 8)
           example_bound example_bound example_acquired 1%nat
           (EglImage.mk example_buffer EGL_NO_IMAGE_KHR EGL_NO_DISPLAY Rect.EMPTY_RECT)).
  all: try reflexivity.
  - discriminate.
  - right. repeat split; discriminate.
  - discriminate.
Defined.

(** ** Release synchronisation *)

Lemma same_slot_skips_sync w item p s native sync fd status :
  BufferItem.mSlot item = mCurrentTexture (cur s) ->
  updateAndReleaseLocked (with_release_sync w native sync fd status) item p s =
  updateAndReleaseLocked w item p s.
Proof.
  intros Hsame. unfold updateAndReleaseLocked.
  apply bind_ext. intros e s1 Hcheck.
  destruct (check_frame _ s e s1 Hcheck) as (C1 & _).
  destruct (negb (e =? NO_ERROR)); [reflexivity |].
  apply bind_ext. intros [r |] s1' Hread; [| reflexivity].
  apply read_mEglSlots_frame in Hread. subst s1'.
  apply bind_ext. intros sa sb Hget. unfold get in Hget. injection Hget as <- <-.
  apply bind_ext. intros e2 s2 Hcreate.
  apply createIfNeeded_frame in Hcreate.
  destruct (negb (e2 =? NO_ERROR)); [reflexivity |].
  apply bind_ext. intros sa sb Hget. unfold get in Hget. injection Hget as <- <-.
  rewrite Hcreate, C1, <- Hsame, Z.eqb_refl.
  reflexivity.
Qed.

Lemma updateAndReleaseLocked_sync_failure w item p s s1 r img :
  well_formed s = true ->
  checkAndUpdateEglStateLocked w s = Some (NO_ERROR, s1) ->
  slot_in_bounds (BufferItem.mSlot item) = true ->
  mEglSlots s !! Z.to_nat (BufferItem.mSlot item) = Some (Some r) ->
  images s !! r = Some img ->
  createdImage w <> EGL_NO_IMAGE_KHR ->
  BufferItem.mSlot item <> mCurrentTexture (cur s) ->
  mCurrentTexture (cur s) <> INVALID_BUFFER_SLOT ->
  releaseSyncFails w ->
  exists e s' cs cs',
    updateAndReleaseLocked w item p s = Some ((e, p), s') /\
    e <> NO_ERROR /\
    cur s' = cur s /\
    calls s' = calls s ++ cs ++
      ConsumerBase_releaseBufferLocked (BufferItem.mSlot item)
        (baseSlotBuffer w (BufferItem.mSlot item)) :: cs' /\
    existsb is_sync_call cs = true /\
    (forall cr, mCurrentTextureImage (cur s) = Some cr -> cr <> r ->
                images s' !! cr = images s !! cr).
Proof.
  intros Hwf Hcheck Hb Hslot Himg Hcreated Hdiff Hbound Hfail.
  destruct (well_formed_facts s Hwf) as (Hlen & Hcurref & Hcurslot).
  destruct (Hcurslot Hbound) as (Hcb & cr & Hcr).
  pose proof (Hcurref cr Hcr) as Hcrlt.
  destruct (check_frame w s _ s1 Hcheck)
    as (C1 & C2 & C3 & C4 & C5 & C6 & C7 & C8 & C9).
  unfold updateAndReleaseLocked. run. rewrite Hcheck. cbv beta iota.
  change (negb (NO_ERROR =? NO_ERROR)) with false. cbv beta iota.
  unfold read_mEglSlots at 1. rewrite Hb, C4, Hslot.
  destruct (createIfNeeded_result w (createdImage w) r (mEglDisplay s1)
              (BufferItem.mCrop item) s1 img ltac:(rewrite C3; exact Himg))
    as (e & s2 & img' & cs & Hrun & D1 & D2 & D3 & D4 & D5 & D6 & D7 & D8).
  rewrite Hrun. rewrite (D7 Hcreated). cbv beta iota.
  change (negb (OK =? NO_ERROR)) with false. cbv beta iota.
  assert (Hcri : exists cimg, images s2 !! cr = Some cimg).
  { apply lookup_lt_is_Some_2. rewrite D4, length_insert, C3. exact Hcrlt. }
  destruct Hcri as [cimg Hcimg].
  rewrite D1, C1. apply Z.eqb_neq in Hdiff as Hdiff'. rewrite Hdiff'.
  change (negb false) with true. cbv beta iota.
  destruct (syncForReleaseLocked_result w (mEglDisplay s2) s2)
    as (e3 & s3 & cs3 & Hrun3 & E1 & E2 & E3 & E4 & E5 & _ & E7).
  { intros _. exists cr, cimg. rewrite D1, C1. split; assumption. }
  destruct (E7 Hfail ltac:(rewrite D1, C1; exact Hbound)) as [He3 Hcs3].
  rewrite Hrun3. cbv beta iota.
  apply Z.eqb_neq in He3 as He3'. rewrite He3'.
  change (negb false) with true. cbv beta iota.
  destruct (releaseBufferLocked_result None w (BufferItem.mSlot item)
              (baseSlotBuffer w (BufferItem.mSlot item)) s3)
    as (s4 & cs4 & Hrun4 & F1 & F2 & F3 & F4 & F5 & _).
  { intros _. split; [exact Hb |]. rewrite E3, D2, C4, Hslot.
    exists (Some r). split; [reflexivity |]. cbn. apply Nat.ltb_lt.
    rewrite E2, D4, length_insert, C3. apply lookup_lt_is_Some. eauto. }
  unfold releaseBufferLocked. rewrite Hrun4.
  exists e3, s4, (cs ++ cs3), cs4.
  split; [reflexivity |]. split; [exact He3 |]. split_and!.
  - rewrite F5, E1, D1, C1, Hdiff', andb_false_r. reflexivity.
  - rewrite F4, E5, D6, C2, <- !app_assoc. reflexivity.
  - rewrite existsb_app, Hcs3, orb_true_r. reflexivity.
  - intros cr' _ Hne. rewrite F1, E2, D4, C3.
    apply list_lookup_insert_ne. congruence.
Qed.

(** C5. The release synchronisation runs only when the acquired slot
    differs from the bound one: for the same slot the update does not
    depend on what the synchronisation would answer. When the slots
    differ, a buffer is bound and the synchronisation fails, its calls
    are made, the acquired buffer is released back to the queue, the
    update returns the error, and every field of the current binding, as
    well as the image object it refers to, is unchanged. *)
Theorem release_sync_only_on_slot_change w item p s :
  (forall native sync fd status,
     BufferItem.mSlot item = mCurrentTexture (cur s) ->
     updateAndReleaseLocked (with_release_sync w native sync fd status) item p s =
     updateAndReleaseLocked w item p s) /\
  (forall s1 r img,
     well_formed s = true ->
     checkAndUpdateEglStateLocked w s = Some (NO_ERROR, s1) ->
     slot_in_bounds (BufferItem.mSlot item) = true ->
     mEglSlots s !! Z.to_nat (BufferItem.mSlot item) = Some (Some r) ->
     images s !! r = Some img ->
     createdImage w <> EGL_NO_IMAGE_KHR ->
     BufferItem.mSlot item <> mCurrentTexture (cur s) ->
     mCurrentTexture (cur s) <> INVALID_BUFFER_SLOT ->
     releaseSyncFails w ->
     exists e s' cs cs',
       updateAndReleaseLocked w item p s = Some ((e, p), s') /\
       e <> NO_ERROR /\
       cur s' = cur s /\
       calls s' = calls s ++ cs ++
         ConsumerBase_releaseBufferLocked (BufferItem.mSlot item)
           (baseSlotBuffer w (BufferItem.mSlot item)) :: cs' /\
       existsb is_sync_call cs = true /\
       (forall cr, mCurrentTextureImage (cur s) = Some cr -> cr <> r ->
                   images s' !! cr = images s !! cr)).
Proof.
  split.
  - intros. apply same_slot_skips_sync. assumption.
  - intros. eapply updateAndReleaseLocked_sync_failure; eassumption.
Qed.

(** C5, witness: the example consumer re-acquires slot 3, and acquires slot 4 when the release fence cannot be created. *)
Lemma release_sync_only_on_slot_change_witness :
  updateAndReleaseLocked
    (with_release_sync (example_world (NO_ERROR, example_item 3 8)) true EGL_NO_SYNC_KHR 22 OK)
    (example_item 3 8) None example_bound =
  updateAndReleaseLocked (example_world (NO_ERROR, example_item 3 8))
    (example_item 3 8) None example_bound /\
  exists e s' cs cs',
    updateAndReleaseLocked example_world_sync_fails (example_item 4 8) None example_acquired =
      Some ((e, None), s') /\
    e <> NO_ERROR /\
    cur s' = cur example_acquired /\
    calls s' = calls example_acquired ++ cs ++
      ConsumerBase_releaseBufferLocked 4 (Some example_buffer) :: cs' /\
    existsb is_sync_call cs = true /\
    (forall cr, mCurrentTextureImage (cur example_acquired) = Some cr -> cr <> 1%nat ->
                images s' !! cr = images example_acquired !! cr).
Proof.
  split.
  - apply (proj1 (release_sync_only_on_slot_change
                    (example_world (NO_ERROR, example_item 3 8)) (example_item 3 8)
                    None example_bound)).
    reflexivity.
  - apply (proj2 (release_sync_only_on_slot_change example_world_sync_fails
                    (example_item 4 8) None example_acquired)
             example_acquired
             1%nat
             (EglImage.mk example_buffer EGL_NO_IMAGE_KHR EGL_NO_DISPLAY Rect.EMPTY_RECT)).
    all: try reflexivity.
    + discriminate.
    + discriminate.
    + discriminate.
    + split; [reflexivity | left; reflexivity].
Defined.

(** ** The binding before the first buffer *)





(** * Further properties of the code *)

(** ** The extension probes *)

Lemma strcmp_eq a : forall b, strcmp a b = 0 <-> a = b.
Proof.
  induction a as [| x a IH]; intros [| y b]; cbn; try (split; [lia | discriminate]).
  - easy.
  - destruct (Ascii.eqb_spec x y) as [-> | Hne].
    + rewrite IH. split; congruence.
    + split; [| congruence].
      destruct (Ascii.N_of_ascii x <? Ascii.N_of_ascii y)%N; lia.
Qed.

Lemma strncmp_eq n : forall a b, strncmp a b n = 0 <-> take n a = take n b.
Proof.
  induction n as [| n IH]; intros a b; cbn; [easy |].
  destruct a as [| x a], b as [| y b]; cbn; try (split; [lia | discriminate]).
  - easy.
  - destruct (Ascii.eqb_spec x y) as [-> | Hne].
    + rewrite IH. split; congruence.
    + split; [| congruence].
      destruct (Ascii.N_of_ascii x <? Ascii.N_of_ascii y)%N; lia.
Qed.

Lemma starts_with_spec needle : forall s,
  starts_with s needle = true <-> exists r, s = needle ++ r.
Proof.
  induction needle as [| x needle IH]; intros s; cbn.
  - split; eauto.
  - destruct s as [| y s].
    + split; [discriminate | intros [r [=]]].
    + rewrite andb_true_iff, IH. destruct (Ascii.eqb_spec x y) as [-> | Hne].
      * split; [intros [_ [r ->]]; eauto | intros [r [= ->]]; eauto].
      * split; [intros [[=] _] | intros [r [= ? _]]; congruence].
Qed.

Lemma strstr_spec needle haystack :
  non_null (strstr haystack needle) = true <->
  exists l r, haystack = l ++ needle ++ r.
Proof.
  induction haystack as [| c haystack IH]; cbn.
  - destruct (starts_with [] needle) eqn:Hs; cbn.
    + apply starts_with_spec in Hs as [r Hr]. split; [| reflexivity].
      intros _. exists [], r. exact Hr.
    + split; [discriminate |]. intros (l & r & E).
      destruct l; [| discriminate]. cbn in E.
      assert (starts_with [] needle = true) by (apply starts_with_spec; eauto).
      congruence.
  - destruct (starts_with (c :: haystack) needle) eqn:Hs; cbn.
    + apply starts_with_spec in Hs as [r Hr]. split; [| reflexivity].
      intros _. exists [], r. exact Hr.
    + rewrite IH. split.
      * intros (l & r & ->). exists (c :: l), r. reflexivity.
      * intros (l & r & E). destruct l as [| c' l].
        -- cbn in E. assert (starts_with (c :: haystack) needle = true)
             by (apply starts_with_spec; eauto). congruence.
        -- injection E as <- ->. eauto.
Qed.

Lemma probe_cases name exts :
  probe name exts = true <->
  exts = name \/ (exists r, exts = name ++ sp :: r) \/
  (exists l, l <> [] /\ exts = l ++ sp :: name) \/
  (exists l r, exts = l ++ sp :: name ++ sp :: r).
Proof.
  unfold probe, strlen. fold sp.
  rewrite !orb_true_iff, andb_true_iff, !Z.eqb_eq, Z.ltb_lt, strcmp_eq, strncmp_eq,
    strcmp_eq, strstr_spec.
  replace (Z.to_nat (Z.of_nat (length name) + 1)) with (S (length name)) by lia.
  replace (Z.to_nat (Z.of_nat (length exts) - (Z.of_nat (length name) + 1)))
    with (length exts - S (length name))%nat by lia.
  assert (Htake : take (S (length name)) (name ++ [sp]) = name ++ [sp]).
  { apply take_ge. rewrite length_app. cbn. lia. }
  rewrite Htake.
  split.
  - intros [[[H | H] | [Hlen H]] | (l & r & H)].
    + left. congruence.
    + right; left. exists (drop (S (length name)) exts).
      rewrite <- (take_drop (S (length name)) exts) at 1. rewrite <- H.
      rewrite <- app_assoc. reflexivity.
    + right; right; left. exists (take (length exts - S (length name)) exts).
      split.
      * intros E. apply (f_equal length) in E. rewrite length_take in E. cbn in E. lia.
      * rewrite H. symmetry. apply take_drop.
    + right; right; right. exists l, r. rewrite H. cbn. rewrite <- app_assoc. reflexivity.
  - intros [H | [[r H] | [(l & Hl & H) | (l & r & H)]]]; subst exts.
    + left; left; left. reflexivity.
    + left; left; right.
      replace (name ++ sp :: r) with ((name ++ [sp]) ++ r) by (rewrite <- app_assoc; reflexivity).
      rewrite take_app_le by (rewrite length_app; cbn; lia).
      rewrite Htake. reflexivity.
    + left; right. rewrite length_app. cbn. split.
      * destruct l; [contradiction | cbn; lia].
      * replace (length l + S (length name) - S (length name))%nat with (length l) by lia.
        rewrite drop_app_length. reflexivity.
    + right. exists l, r. cbn. rewrite <- app_assoc. reflexivity.
Qed.

Lemma later_entry_space n s :
  later_entry n (sp :: s) <-> first_entry n s \/ later_entry n s.
Proof.
  unfold first_entry, later_entry. split.
  - intros [Hn [[l E] | (l & r & E)]].
    + destruct l as [| c l]; cbn in E; inversion E; subst; [left | right]; eauto.
    + destruct l as [| c l]; cbn in E; inversion E; subst; [left | right]; eauto 6.
  - intros [[Hn [E | [r E]]] | [Hn [[l E] | (l & r & E)]]]; subst; (split; [exact Hn |]).
    + left. exists []. reflexivity.
    + right. exists [], r. reflexivity.
    + left. exists (sp :: l). reflexivity.
    + right. exists (sp :: l), r. reflexivity.
Qed.

Lemma entries_spec s :
  exists first others,
    entries s = first :: others /\
    (forall n, n = first <-> first_entry n s) /\
    (forall n, In n others <-> later_entry n s).
Proof.
  induction s as [| c s (first & others & Hent & Hfirst & Hothers)].
  - exists [], []. split; [reflexivity |]. split; intros n.
    + unfold first_entry. split.
      * intros ->. split; [intros [] | left; reflexivity].
      * intros [_ [E | [r E]]]; [congruence |].
        destruct n; discriminate.
    + unfold later_entry. split; [intros [] |].
      intros [_ [[l E] | (l & r & E)]]; destruct l; discriminate.
  - cbn [entries]. fold sp. destruct (Ascii.eqb_spec c sp) as [-> | Hc].
    + exists [], (first :: others). split; [rewrite Hent; reflexivity |]. split; intros n.
      * unfold first_entry. split.
        -- intros ->. split; [intros [] | right; exists s; reflexivity].
        -- intros [Hn [E | [r E]]].
           ++ subst n. exfalso. apply Hn. left. reflexivity.
           ++ destruct n as [| x n]; [reflexivity |].
              injection E as <- _. exfalso. apply Hn. left. reflexivity.
      * rewrite later_entry_space, <- Hfirst, <- Hothers. cbn. intuition congruence.
    + rewrite Hent. exists (c :: first), others. split; [reflexivity |]. split; intros n.
      * unfold first_entry. split.
        -- intros ->. destruct (proj1 (Hfirst first) eq_refl) as [Hn Hs]. split.
           ++ intros [Hin | Hin]; [congruence | contradiction].
           ++ destruct Hs as [-> | [r ->]]; [left; reflexivity | right; exists r; reflexivity].
        -- intros [Hn [Es | [r Es]]].
           ++ subst n. f_equal. apply Hfirst. split; [| left; reflexivity].
              intros Hin. apply Hn. right. exact Hin.
           ++ destruct n as [| x n]; [injection Es as Es _; congruence |].
              injection Es as <- Es. f_equal. apply Hfirst.
              split; [| right; exists r; exact Es].
              intros Hin. apply Hn. right. exact Hin.
      * rewrite Hothers. unfold later_entry. split.
        -- intros [Hn [[l ->] | (l & r & ->)]]; (split; [exact Hn |]).
           ++ left. exists (c :: l). reflexivity.
           ++ right. exists (c :: l), r. reflexivity.
        -- intros [Hn [[l Es] | (l & r & Es)]]; (split; [exact Hn |]).
           ++ destruct l as [| x l]; injection Es as Ec Es; [congruence |].
              left. exists l. exact Es.
           ++ destruct l as [| x l]; injection Es as Ec Es; [congruence |].
              right. exists l, r. exact Es.
Qed.

Lemma In_entries n s :
  In n (entries s) <-> first_entry n s \/ later_entry n s.
Proof.
  destruct (entries_spec s) as (first & others & E & Hfirst & Hothers).
  rewrite E. cbn. rewrite <- Hfirst, <- Hothers. intuition congruence.
Qed.

(** The probe of an extension finds the name among the entries of the
    string, unless the string is a space followed by the name. *)
Lemma probe_spec name exts :
  name <> [] -> ~ In sp name ->
  probe name exts = true <-> In name (entries exts) /\ exts <> sp :: name.
Proof.
  intros Hne Hsp. rewrite probe_cases, In_entries. unfold first_entry, later_entry.
  split.
  - intros [E | [[r E] | [(l & Hl & E) | (l & r & E)]]]; subst exts.
    + split; [left; split; [exact Hsp | left; reflexivity] |].
      intros E. apply (f_equal length) in E. cbn in E. lia.
    + split; [left; split; [exact Hsp | right; eauto] |].
      intros E. destruct name as [| x name]; [contradiction |].
      injection E as -> _. apply Hsp. left. reflexivity.
    + split; [right; split; [exact Hsp | left; eauto] |].
      intros E. apply (f_equal length) in E. rewrite length_app in E. cbn in E.
      destruct l; [contradiction | cbn in E; lia].
    + split; [right; split; [exact Hsp | right; eauto] |].
      intros E. apply (f_equal length) in E.
      rewrite length_app in E. cbn in E. rewrite length_app in E. cbn in E. lia.
  - intros [[[_ [E | [r E]]] | [_ [[l E] | (l & r & E)]]] Hex]; subst exts.
    + left. reflexivity.
    + right; left. eauto.
    + right; right; left. exists l. split; [| reflexivity].
      intros ->. apply Hex. reflexivity.
    + right; right; right. eauto.
Qed.

(** X1. Each of the two extension probes (lines 64-75 and 84-95) answers, for every
    string EGL returns, whether the name of its extension is one of the
    entries of the string between its spaces, except that it does not
    find the name in the string made of one space and the name; for a
    null string the probe dereferences a null pointer. *)
Theorem extension_probes_find_entries exts :
  (is_Some (hasEglAndroidImageCropImpl (Some exts)) /\
   (hasEglAndroidImageCropImpl (Some exts) = Some true <->
    In CROP_EXT_STR (entries exts) /\ exts <> " "%char :: CROP_EXT_STR)) /\
  (is_Some (hasEglProtectedContentImpl (Some exts)) /\
   (hasEglProtectedContentImpl (Some exts) = Some true <->
    In PROT_CONTENT_EXT_STR (entries exts) /\ exts <> " "%char :: PROT_CONTENT_EXT_STR)) /\
  hasEglAndroidImageCropImpl None = None /\ hasEglProtectedContentImpl None = None.
Proof.
  assert (H1 : hasEglAndroidImageCropImpl (Some exts) = Some (probe CROP_EXT_STR exts))
    by reflexivity.
  assert (H2 : hasEglProtectedContentImpl (Some exts) = Some (probe PROT_CONTENT_EXT_STR exts))
    by reflexivity.
  rewrite H1, H2. split_and!; eauto.
  - rewrite <- (probe_spec CROP_EXT_STR exts); [split; congruence | discriminate |].
    vm_compute. intuition discriminate.
  - rewrite <- (probe_spec PROT_CONTENT_EXT_STR exts); [split; congruence | discriminate |].
    vm_compute. intuition discriminate.
Qed.

(** ** The attribute array of createImage and the crop arithmetic *)

(** X2. The attribute array [createImage] hands to [eglCreateImageKHR],
    read as name and value pairs up to the first [EGL_NONE], is
    EGL_IMAGE_PRESERVED_KHR = EGL_TRUE, then the four crop attributes
    exactly when the crop is valid and croppable (its left and top are
    then 0), then EGL_PROTECTED_CONTENT_EXT = EGL_TRUE exactly when the
    buffer's usage has the protected bit and the extension is present: the
    shifting of lines 750-764 never loses the protected attribute.
    [createImage] initialises the display, creates the image, on failure
    reads the error and terminates the display, and returns what EGL
    returned. *)
Theorem createImage_attribute_list w buf crop :
  let cropAttribute :=
    if Rect.isValid crop && isEglImageCroppable w crop then Some crop else None in
  let protected :=
    has_bit (getUsage buf) GRALLOC_USAGE_PROTECTED && hasEglProtectedContent w in
  attribList (createImage_attrs w buf crop) = attributes_of cropAttribute protected /\
  (cropAttribute = Some crop -> Rect.left crop = 0 /\ Rect.top crop = 0) /\
  forall created dpy s,
    createImage w created dpy buf crop s =
    Some (created,
          set_calls (calls s ++
            eglInitialize dpy :: eglCreateImageKHR dpy buf cropAttribute protected ::
            (if created =? EGL_NO_IMAGE_KHR then [eglGetError; eglTerminate dpy] else [])) s).
Proof.
  cbv zeta. split_and!.
  - unfold createImage_attrs, attributes_of.
    destruct (has_bit (getUsage buf) GRALLOC_USAGE_PROTECTED && hasEglProtectedContent w);
      destruct (Rect.isValid crop), (isEglImageCroppable w crop); reflexivity.
  - destruct (Rect.isValid crop); [| discriminate]. cbn.
    unfold isEglImageCroppable.
    destruct (hasEglAndroidImageCrop w); [| discriminate]. cbn.
    destruct (Z.eqb_spec (Rect.left crop) 0), (Z.eqb_spec (Rect.top crop) 0);
      try discriminate. tauto.
  - intros created dpy s. unfold createImage. run.
    destruct (Rect.isValid crop), (isEglImageCroppable w crop); cbn;
      destruct (created =? EGL_NO_IMAGE_KHR); cbn; rewrite <- ?app_assoc; reflexivity.
Qed.

Lemma createImage_attribute_list_witness :
  attribList (createImage_attrs example_world_extensions example_buffer (Rect.mk 0 0 50 60)) =
    [(EGL_IMAGE_PRESERVED_KHR, EGL_TRUE);
     (EGL_IMAGE_CROP_LEFT_ANDROID, 0); (EGL_IMAGE_CROP_TOP_ANDROID, 0);
     (EGL_IMAGE_CROP_RIGHT_ANDROID, 50); (EGL_IMAGE_CROP_BOTTOM_ANDROID, 60)] /\
  attribList (createImage_attrs example_world_extensions example_buffer (Rect.mk 10 0 50 60)) =
    [(EGL_IMAGE_PRESERVED_KHR, EGL_TRUE)].
Proof.
  split.
  - exact (proj1 (createImage_attribute_list example_world_extensions example_buffer
                    (Rect.mk 0 0 50 60))).
  - exact (proj1 (createImage_attribute_list example_world_extensions example_buffer
                    (Rect.mk 10 0 50 60))).
Defined.

Lemma uint32_of_int32_congr a b k :
  0 <= b < 4294967296 -> a = b + k * 4294967296 -> to_uint32 (to_int32 a) = b.
Proof.
  intros Hb E. destruct (to_int32_eq a) as [i Hi].
  apply (to_uint32_congr _ _ (k + i)); [lia | exact Hb].
Qed.

Lemma div_nonneg a b : 0 <= a -> 0 <= b -> 0 <= a / b.
Proof.
  intros Ha Hb. destruct (Z.eq_dec b 0) as [-> | Hne].
  - rewrite Z.div_0_r. lia.
  - apply Z.div_pos; lia.
Qed.

(** X3. For target extents that fit [uint32_t], [scaleDownCrop] returns a
    rect whose width and height, read as [uint32_t] as the function reads
    them, are at most those of the crop, and it leaves the edges of one
    axis where they were. *)
Theorem scaleDownCrop_never_grows crop bw bh :
  is_uint32 bw -> is_uint32 bh ->
  let out := scaleDownCrop crop bw bh in
  to_uint32 (Rect.width out) <= to_uint32 (Rect.width crop) /\
  to_uint32 (Rect.height out) <= to_uint32 (Rect.height crop) /\
  ((Rect.left out = Rect.left crop /\ Rect.right out = Rect.right crop) \/
   (Rect.top out = Rect.top crop /\ Rect.bottom out = Rect.bottom crop)).
Proof.
  intros Hbw Hbh. cbv zeta. unfold scaleDownCrop.
  set (cw := to_uint32 (Rect.width crop)). set (ch := to_uint32 (Rect.height crop)).
  pose proof (to_uint32_range (Rect.width crop)) as Rw. fold cw in Rw.
  pose proof (to_uint32_range (Rect.height crop)) as Rh. fold ch in Rh.
  assert (Hshape : exists nw nh,
    (if to_uint32 (cw * bh) >? to_uint32 (ch * bw)
     then (to_uint32 (ch * bw) / bh, ch)
     else if to_uint32 (cw * bh) <? to_uint32 (ch * bw)
          then (cw, to_uint32 (cw * bh) / bw) else (cw, ch)) = (nw, nh) /\
    0 <= nw /\ 0 <= nh).
  { unfold is_uint32 in *.
    pose proof (to_uint32_range (cw * bh)). pose proof (to_uint32_range (ch * bw)).
    destruct (to_uint32 (cw * bh) >? to_uint32 (ch * bw)).
    - eexists _, _. split; [reflexivity |]. split; [apply div_nonneg |]; lia.
    - destruct (to_uint32 (cw * bh) <? to_uint32 (ch * bw)).
      + eexists _, _. split; [reflexivity |]. split; [| apply div_nonneg]; lia.
      + eexists _, _. split; [reflexivity |]. lia. }
  destruct Hshape as (nw & nh & -> & Hnw & Hnh).
  destruct (Z.ltb_spec nw cw) as [Hw | Hw].
  - cbn [Rect.width Rect.height Rect.left Rect.right Rect.top Rect.bottom].
    split; [| split; [reflexivity | right; split; reflexivity]].
    unfold Rect.width at 1. cbn [Rect.left Rect.right].
    set (dw := to_uint32 (cw - nw)).
    assert (Hdw : dw = cw - nw) by (apply to_uint32_small; lia).
    destruct (to_uint32_eq (Rect.left crop)) as [k1 E1].
    destruct (to_uint32_eq (Rect.right crop)) as [k2 E2].
    destruct (to_uint32_eq (to_uint32 (Rect.left crop) + dw / 2)) as [k3 E3].
    destruct (to_uint32_eq (dw - dw / 2)) as [k4 E4].
    destruct (to_uint32_eq (to_uint32 (Rect.right crop) - to_uint32 (dw - dw / 2))) as [k5 E5].
    destruct (to_int32_eq (to_uint32 (to_uint32 (Rect.left crop) + dw / 2))) as [k6 E6].
    destruct (to_int32_eq (to_uint32 (to_uint32 (Rect.right crop) - to_uint32 (dw - dw / 2))))
      as [k7 E7].
    destruct (to_uint32_eq (Rect.width crop)) as [k8 E8]. fold cw in E8.
    destruct (to_int32_eq (Rect.right crop - Rect.left crop)) as [k9 E9].
    fold (Rect.width crop) in E9.
    rewrite (uint32_of_int32_congr _ nw (k7 + k5 + k2 - k4 - k6 - k3 - k1 - k8 - k9)); lia.
  - destruct (Z.ltb_spec nh ch) as [Hh | Hh].
    + cbn [Rect.width Rect.height Rect.left Rect.right Rect.top Rect.bottom].
      split; [reflexivity | split; [| left; split; reflexivity]].
      unfold Rect.height at 1. cbn [Rect.top Rect.bottom].
      set (dh := to_uint32 (ch - nh)).
      assert (Hdh : dh = ch - nh) by (apply to_uint32_small; lia).
      destruct (to_uint32_eq (Rect.top crop)) as [k1 E1].
      destruct (to_uint32_eq (Rect.bottom crop)) as [k2 E2].
      destruct (to_uint32_eq (to_uint32 (Rect.top crop) + dh / 2)) as [k3 E3].
      destruct (to_uint32_eq (dh - dh / 2)) as [k4 E4].
      destruct (to_uint32_eq (to_uint32 (Rect.bottom crop) - to_uint32 (dh - dh / 2)))
        as [k5 E5].
      destruct (to_int32_eq (to_uint32 (to_uint32 (Rect.top crop) + dh / 2))) as [k6 E6].
      destruct (to_int32_eq (to_uint32 (to_uint32 (Rect.bottom crop) - to_uint32 (dh - dh / 2))))
        as [k7 E7].
      destruct (to_uint32_eq (Rect.height crop)) as [k8 E8]. fold ch in E8.
      destruct (to_int32_eq (Rect.bottom crop - Rect.top crop)) as [k9 E9].
      fold (Rect.height crop) in E9.
      rewrite (uint32_of_int32_congr _ nh (k7 + k5 + k2 - k4 - k6 - k3 - k1 - k8 - k9)); lia.
    + split; [reflexivity | split; [reflexivity | left; split; reflexivity]].
Qed.

Lemma has_bit_low_bits transform flag :
  Z.land 7 flag = flag -> has_bit (Z.land transform 7) flag = has_bit transform flag.
Proof.
  intros H. unfold has_bit. rewrite <- Z.land_assoc, H. reflexivity.
Qed.

(** X4. [computeTransformMatrix] reads the three orientation bits of the
    transform only: the matrix of a transform is the matrix of its three
    low bits (flip-H, flip-V, rot-90), whatever the other bits are. *)
Theorem computeTransformMatrix_other_bits_ignored buf crop transform filtering :
  computeTransformMatrix buf crop transform filtering =
  computeTransformMatrix buf crop (Z.land transform 7) filtering.
Proof.
  unfold computeTransformMatrix.
  rewrite !has_bit_low_bits by reflexivity. reflexivity.
Qed.

Lemma float_of_Z_positive_nonzero z sign :
  0 < z -> float_of_Z z <> S754_zero sign.
Proof.
  intros Hz. destruct z as [| p | p]; try lia.
  rewrite float_of_Z_pos. unfold float_of_round.
  destruct (snd (round24 p) <=? 104); discriminate.
Qed.

(** X5. For a crop that is not empty, wherever the crop stage of
    [computeTransformMatrix] divides by the buffer's width (the crop is
    narrower than the buffer) the width is above 1 and its [float] is not
    a zero, and the same for the height: the stage never divides by
    zero. *)
Theorem crop_stage_divisors_nonzero buf crop :
  Rect.isEmpty crop = false ->
  (cropNarrower buf crop = true ->
   1 < getWidth buf /\ forall sign, float_of_Z (getWidth buf) <> S754_zero sign) /\
  (cropShorter buf crop = true ->
   1 < getHeight buf /\ forall sign, float_of_Z (getHeight buf) <> S754_zero sign).
Proof.
  unfold Rect.isEmpty. intros He. apply orb_false_iff in He as [Hw Hh].
  apply Z.leb_gt in Hw, Hh.
  unfold cropNarrower, cropShorter. split; intros Hlt.
  - assert (Rect.width crop < getWidth buf).
    { destruct (Z.lt_ge_cases (Rect.width crop) (getWidth buf)) as [Hc | Hc]; [exact Hc |].
      rewrite (float_of_Z_mono _ _ Hc) in Hlt. discriminate. }
    split; [lia |]. intros sign. apply float_of_Z_positive_nonzero. lia.
  - assert (Rect.height crop < getHeight buf).
    { destruct (Z.lt_ge_cases (Rect.height crop) (getHeight buf)) as [Hc | Hc]; [exact Hc |].
      rewrite (float_of_Z_mono _ _ Hc) in Hlt. discriminate. }
    split; [lia |]. intros sign. apply float_of_Z_positive_nonzero. lia.
Qed.

Lemma crop_stage_divisors_nonzero_witness :
  1 < getWidth example_buffer /\ 1 < getHeight example_buffer.
Proof.
  destruct (crop_stage_divisors_nonzero example_buffer (Rect.mk 10 10 50 60) eq_refl)
    as [Hw Hh].
  split; [apply Hw | apply Hh]; vm_compute; reflexivity.
Defined.

Lemma scaleDownCrop_never_grows_witness :
  let out := scaleDownCrop (Rect.mk 0 0 100 101) 1 1 in
  to_uint32 (Rect.width out) <= to_uint32 (Rect.width (Rect.mk 0 0 100 101)) /\
  to_uint32 (Rect.height out) <= to_uint32 (Rect.height (Rect.mk 0 0 100 101)) /\
  ((Rect.left out = Rect.left (Rect.mk 0 0 100 101) /\
    Rect.right out = Rect.right (Rect.mk 0 0 100 101)) \/
   (Rect.top out = Rect.top (Rect.mk 0 0 100 101) /\
    Rect.bottom out = Rect.bottom (Rect.mk 0 0 100 101))).
Proof.
  apply (scaleDownCrop_never_grows (Rect.mk 0 0 100 101) 1 1); unfold is_uint32; lia.
Defined.

(** X6. Neither division of [scaleDownCrop] (lines 516 and 523) has a zero
    divisor, for any crop and any target extents, zero included. *)
Theorem scaleDownCrop_never_divides_by_zero crop bw bh d :
  scaleDownCrop_divisor crop bw bh = Some d -> d <> 0.
Proof. apply scaleDownCrop_divisor_nonzero. Qed.

Lemma scaleDownCrop_never_divides_by_zero_witness :
  scaleDownCrop_divisor (Rect.mk 0 0 100 101) 1 1 = Some 1 /\ 1 <> 0.
Proof.
  split; [reflexivity |].
  apply (scaleDownCrop_never_divides_by_zero (Rect.mk 0 0 100 101) 1 1 1). reflexivity.
Defined.

(** ** Frames of the member functions *)

Section Framed.
Context {R : Consumer -> Consumer -> Prop} `{!PreOrder R}.

Lemma framed_ret {A} (a : A) : framed R (ret a).
Proof. intros s a' s' [= _ <-]. reflexivity. Qed.

Lemma framed_get : framed R get.
Proof. intros s a' s' [= _ <-]. reflexivity. Qed.

Lemma framed_undefined {A} : framed R (@undefined A).
Proof. intros s a s' [=]. Qed.

Lemma framed_bind {A B} (m : M A) (k : A -> M B) :
  framed R m -> (forall a, framed R (k a)) -> framed R (bind m k).
Proof.
  intros Hm Hk s b s' H. unfold bind in H.
  destruct (m s) as [[a s1] |] eqn:E; [| discriminate].
  transitivity s1; [exact (Hm _ _ _ E) | exact (Hk _ _ _ _ H)].
Qed.

Lemma framed_modify (f : Consumer -> Consumer) :
  (forall s, R s (f s)) -> framed R (modify f).
Proof. intros Hf s a s' [= _ <-]. apply Hf. Qed.

Lemma framed_invoke (c : Call) :
  (forall s, R s (set_calls (calls s ++ [c]) s)) -> framed R (invoke c).
Proof. intros Hc. apply framed_modify. exact Hc. Qed.

Lemma framed_when (b : bool) (m : M unit) : framed R m -> framed R (when b m).
Proof. intros Hm. destruct b; [exact Hm | apply framed_ret]. Qed.

Lemma framed_fmapM {A B} (f : A -> B) (m : M A) : framed R m -> framed R (fmapM f m).
Proof. intros Hm. apply framed_bind; [exact Hm | intros a; apply framed_ret]. Qed.

Lemma framed_read_mEglSlots slot : framed R (read_mEglSlots slot).
Proof.
  intros s a s' H. apply read_mEglSlots_frame in H. subst s'. reflexivity.
Qed.

Lemma framed_deref r : framed R (deref r).
Proof.
  intros s a s' H. unfold deref in H.
  destruct (images s !! r); [| discriminate]. injection H as _ <-. reflexivity.
Qed.

Lemma framed_write_mEglSlots slot r :
  (forall s, R s (set_mEglSlots (<[Z.to_nat slot := r]> (mEglSlots s)) s)) ->
  framed R (write_mEglSlots slot r).
Proof.
  intros Hw s a s' H. unfold write_mEglSlots in H.
  destruct (slot_in_bounds slot); [| discriminate].
  destruct (mEglSlots s !! Z.to_nat slot); [| discriminate].
  injection H as _ <-. apply Hw.
Qed.

Lemma framed_new_EglImage b :
  (forall s i, R s (set_images (images s ++ [i]) s)) -> framed R (new_EglImage b).
Proof. intros Hn s a s' [= _ <-]. apply Hn. Qed.
End Framed.

(** One step of a frame proof on the structure of the code. *)
Ltac framed_step :=
  lazymatch goal with
  | |- framed _ (bind _ _) => apply framed_bind; [| intros ?]
  | |- framed _ (ret _) => apply framed_ret
  | |- framed _ get => apply framed_get
  | |- framed _ undefined => apply framed_undefined
  | |- framed _ (when _ _) => apply framed_when
  | |- framed _ (fmapM _ _) => apply framed_fmapM
  | |- framed _ (read_mEglSlots _) => apply framed_read_mEglSlots
  | |- framed _ (deref _) => apply framed_deref
  | |- framed _ (if ?b then _ else _) => destruct b eqn:?
  | |- framed _ (match ?x with _ => _ end) => destruct x eqn:?
  end.

#[local] Instance buffers_kept_preorder : PreOrder buffers_kept.
Proof.
  split.
  - intros s r img H. eauto.
  - intros s1 s2 s3 H12 H23 r img H.
    destruct (H12 r img H) as (img2 & H2 & E2).
    destruct (H23 r img2 H2) as (img3 & H3 & E3).
    exists img3. split; [exact H3 | congruence].
Qed.

#[local] Instance latched_preorder : PreOrder latched.
Proof.
  split.
  - intros s. unfold latched. split_and!; try reflexivity; auto.
  - intros s1 s2 s3 (A1 & A2 & A3 & A4 & A5 & A6) (B1 & B2 & B3 & B4 & B5 & B6).
    unfold latched. split_and!; try congruence.
    + intros H. rewrite B3, A3; [reflexivity | exact H |]. rewrite A3; exact H.
    + intros H. rewrite B4, A4; [reflexivity | exact H |]. rewrite A4; exact H.
    + etransitivity; eassumption.
Qed.

#[local] Instance settled_preorder : PreOrder settled.
Proof.
  split.
  - intros s. unfold settled. tauto.
  - intros s1 s2 s3 (A1 & A2 & A3) (B1 & B2 & B3). unfold settled.
    split_and!; congruence.
Qed.

#[local] Instance calls_added_preorder ok : PreOrder (calls_added ok).
Proof.
  split.
  - intros s. exists []. rewrite app_nil_r. split; reflexivity.
  - intros s1 s2 s3 (c1 & E1 & H1) (c2 & E2 & H2). exists (c1 ++ c2).
    rewrite E2, E1, <- app_assoc, forallb_app, H1, H2. split; reflexivity.
Qed.

#[local] Instance frame_preorder ok : PreOrder (frame ok).
Proof.
  split.
  - intros s. unfold frame. split_and!; reflexivity.
  - intros s1 s2 s3 (A1 & A2 & A3) (B1 & B2 & B3). unfold frame.
    split_and!; etransitivity; eassumption.
Qed.

#[local] Instance stable_preorder : PreOrder stable.
Proof.
  split.
  - intros s. unfold stable. split_and!; reflexivity.
  - intros s1 s2 s3 (A1 & A2) (B1 & B2). unfold stable.
    split_and!; etransitivity; eassumption.
Qed.

Lemma calls_added_weaken (ok ok' : Call -> bool) s s' :
  (forall c, ok c = true -> ok' c = true) -> calls_added ok s s' -> calls_added ok' s s'.
Proof.
  intros Hok (cs & E & H). exists cs. split; [exact E |].
  rewrite forallb_forall in *. auto.
Qed.

Lemma inner_ok_call_ok c : inner_ok c = true -> call_ok c = true.
Proof. destruct c; cbn; congruence. Qed.

Lemma quiet_ok_inner_ok c : quiet_ok c = true -> inner_ok c = true.
Proof. destruct c; cbn; congruence. Qed.

Lemma frame_weaken (ok ok' : Call -> bool) s s' :
  (forall c, ok c = true -> ok' c = true) -> frame ok s s' -> frame ok' s s'.
Proof.
  intros Hok (H1 & H2 & H3). split_and!; try assumption.
  exact (calls_added_weaken _ _ _ _ Hok H3).
Qed.

Lemma framed_weaken {A} (ok ok' : Call -> bool) (m : M A) :
  (forall c, ok c = true -> ok' c = true) -> framed (frame ok) m -> framed (frame ok') m.
Proof. intros Hok Hm s a s' H. exact (frame_weaken _ _ _ _ Hok (Hm _ _ _ H)). Qed.

Lemma frame_stable s s' : frame call_ok s s' -> stable s s'.
Proof. intros (H1 & _ & H3). split; assumption. Qed.

(** A step that leaves the settings, the slot count and the image
    buffers alone, and adds allowed calls. *)
Lemma frame_intro ok s s' cs :
  mAbandoned s' = mAbandoned s -> mTexName s' = mTexName s ->
  (mEglDisplay s <> EGL_NO_DISPLAY -> mEglDisplay s' = mEglDisplay s) ->
  (mEglContext s <> EGL_NO_CONTEXT -> mEglContext s' = mEglContext s) ->
  length (mEglSlots s') = length (mEglSlots s) ->
  buffers_kept s s' ->
  mFilteringEnabled s' = mFilteringEnabled s ->
  mDefaultWidth s' = mDefaultWidth s -> mDefaultHeight s' = mDefaultHeight s ->
  calls s' = calls s ++ cs -> forallb ok cs = true ->
  frame ok s s'.
Proof.
  intros. unfold frame, latched, settled, calls_added. split_and!; eauto.
Qed.

Lemma buffers_kept_same s s' : images s' = images s -> buffers_kept s s'.
Proof. intros E r img H. rewrite E. eauto. Qed.

Lemma buffers_kept_app s s' l : images s' = images s ++ l -> buffers_kept s s'.
Proof.
  intros E r img H. rewrite E. exists img. split; [| reflexivity].
  apply lookup_app_l_Some. exact H.
Qed.

Lemma buffers_kept_insert s s' r img img' :
  images s !! r = Some img ->
  EglImage.mGraphicBuffer img' = EglImage.mGraphicBuffer img ->
  images s' = <[r := img']> (images s) -> buffers_kept s s'.
Proof.
  intros Hr Hb E r0 img0 H. rewrite E.
  destruct (decide (r0 = r)) as [-> | Hne].
  - exists img'. split; [| congruence].
    apply list_lookup_insert_eq. apply lookup_lt_is_Some. eauto.
  - exists img0. split; [| reflexivity].
    rewrite list_lookup_insert_ne by congruence. exact H.
Qed.

(** Discharges the frame of a primitive step. *)
Ltac frame_side :=
  intros;
  first
    [ eapply (frame_intro _ _ _ []);
      [ reflexivity | reflexivity | intros; reflexivity | intros; reflexivity
      | cbn; rewrite ?length_insert; reflexivity
      | first [ apply buffers_kept_same; reflexivity
              | eapply buffers_kept_app; reflexivity ]
      | reflexivity | reflexivity | reflexivity
      | cbn; rewrite app_nil_r; reflexivity | reflexivity ]
    | eapply (frame_intro _ _ _ [_]);
      [ reflexivity | reflexivity | intros; reflexivity | intros; reflexivity
      | reflexivity | apply buffers_kept_same; reflexivity
      | reflexivity | reflexivity | reflexivity
      | reflexivity | cbn; rewrite ?andb_true_r; first [reflexivity | assumption] ] ].

Ltac frame_auto :=
  repeat first
    [ framed_step
    | apply framed_modify; frame_side
    | apply framed_invoke; frame_side
    | apply framed_write_mEglSlots; frame_side
    | apply framed_new_EglImage; frame_side
    | assumption ].

Lemma framed_createImage w created dpy buf crop :
  framed (frame quiet_ok) (createImage w created dpy buf crop).
Proof. unfold createImage. frame_auto. Qed.

Lemma framed_createIfNeeded w created r dpy crop :
  framed (frame quiet_ok) (createIfNeeded w created r dpy crop).
Proof.
  intros s e s' H.
  destruct (images s !! r) as [img |] eqn:Himg.
  2:{ unfold createIfNeeded, bind, deref in H. rewrite Himg in H. discriminate. }
  revert H.
  unfold createIfNeeded, createImage, deref, store. run. rewrite Himg.
  destruct (negb (EglImage.mEglImage img =? EGL_NO_IMAGE_KHR) &&
            (negb (EglImage.mEglDisplay img =? dpy)
             || hasEglAndroidImageCrop w && negb (Rect.eqb (EglImage.mCropRect img) crop)));
    cbn.
  - destruct (created =? EGL_NO_IMAGE_KHR) eqn:Hcreated; cbn; rewrite Hcreated;
      intros [= <- <-];
      (eapply frame_intro;
       [ reflexivity | reflexivity | intros; reflexivity | intros; reflexivity
       | reflexivity | eapply (buffers_kept_insert _ _ r img); [exact Himg | | reflexivity]; reflexivity
       | reflexivity | reflexivity | reflexivity
       | cbn; rewrite <- !app_assoc; reflexivity | reflexivity ]).
  - destruct (EglImage.mEglImage img =? EGL_NO_IMAGE_KHR) eqn:Hnone; cbn.
    + destruct (created =? EGL_NO_IMAGE_KHR) eqn:Hcreated; cbn; rewrite Hcreated;
        intros [= <- <-];
        (eapply frame_intro;
         [ reflexivity | reflexivity | intros; reflexivity | intros; reflexivity
         | reflexivity | eapply (buffers_kept_insert _ _ r img); [exact Himg | | reflexivity]; reflexivity
         | reflexivity | reflexivity | reflexivity
         | cbn; rewrite <- !app_assoc; reflexivity | reflexivity ]).
    + rewrite Hnone. intros [= <- <-].
      eapply (frame_intro _ _ _ []);
        [ reflexivity | reflexivity | intros; reflexivity | intros; reflexivity
        | reflexivity | eapply (buffers_kept_insert _ _ r img); [exact Himg | | reflexivity]; reflexivity
        | reflexivity | reflexivity | reflexivity
        | cbn; rewrite app_nil_r; reflexivity | reflexivity ].
Qed.

Lemma framed_checkAndUpdateEglStateLocked w :
  framed (frame quiet_ok) (checkAndUpdateEglStateLocked w).
Proof.
  intros s e s'. unfold checkAndUpdateEglStateLocked. run.
  destruct (mEglDisplay s =? EGL_NO_DISPLAY) eqn:Hd;
  destruct (mEglContext s =? EGL_NO_CONTEXT) eqn:Hc; cbn; rewrite ?Hc;
  split_ifs; intros [= <- <-]; bool_facts;
    (eapply (frame_intro _ _ _ []);
     [ reflexivity | reflexivity | cbn; intros; congruence | cbn; intros; congruence
     | reflexivity | apply buffers_kept_same; reflexivity
     | reflexivity | reflexivity | reflexivity
     | cbn; rewrite app_nil_r; reflexivity | reflexivity ]).
Qed.

Lemma framed_quiet {A} (m : M A) :
  framed (frame quiet_ok) m -> framed (frame inner_ok) m.
Proof. apply framed_weaken. exact quiet_ok_inner_ok. Qed.

Lemma framed_EglImage_destructor r : framed (frame quiet_ok) (EglImage_destructor r).
Proof. unfold EglImage_destructor. frame_auto. Qed.

Lemma framed_decStrong held p : framed (frame quiet_ok) (decStrong held p).
Proof.
  unfold decStrong.
  repeat first [ apply framed_EglImage_destructor | progress frame_auto ].
Qed.

Lemma framed_freeBufferLocked_holding held slot :
  framed (frame inner_ok) (freeBufferLocked_holding held slot).
Proof.
  unfold freeBufferLocked_holding.
  repeat first [ apply framed_quiet, framed_decStrong | progress frame_auto ].
Qed.

Lemma framed_freeBufferLocked slot : framed (frame inner_ok) (freeBufferLocked slot).
Proof. apply framed_freeBufferLocked_holding. Qed.

Lemma framed_releaseBufferLocked_holding held w slot buf :
  framed (frame inner_ok) (releaseBufferLocked_holding held w slot buf).
Proof.
  unfold releaseBufferLocked_holding. frame_auto. apply framed_freeBufferLocked_holding.
Qed.

Lemma framed_releaseBufferLocked w slot buf :
  framed (frame inner_ok) (releaseBufferLocked w slot buf).
Proof. apply framed_releaseBufferLocked_holding. Qed.

Lemma framed_acquireBufferLocked w : framed (frame inner_ok) (acquireBufferLocked w).
Proof.
  unfold acquireBufferLocked.
  repeat first [ apply framed_quiet, framed_decStrong | progress frame_auto ].
Qed.

Lemma framed_currentGraphicBuffer : framed (frame quiet_ok) currentGraphicBuffer.
Proof. unfold currentGraphicBuffer. frame_auto. Qed.

Lemma framed_syncForReleaseLocked w dpy :
  framed (frame quiet_ok) (syncForReleaseLocked w dpy).
Proof.
  unfold syncForReleaseLocked.
  repeat first [ apply framed_currentGraphicBuffer | progress frame_auto ].
Qed.

Lemma framed_computeCurrentTransformMatrixLocked w :
  framed (frame quiet_ok) (computeCurrentTransformMatrixLocked w).
Proof. unfold computeCurrentTransformMatrixLocked. frame_auto. Qed.

Lemma framed_updateAndReleaseLocked w item p :
  framed (frame inner_ok) (updateAndReleaseLocked w item p).
Proof.
  unfold updateAndReleaseLocked.
  repeat first
    [ apply framed_releaseBufferLocked
    | apply framed_releaseBufferLocked_holding
    | apply framed_quiet, framed_decStrong
    | apply framed_quiet;
      first [ apply framed_checkAndUpdateEglStateLocked
            | apply framed_createIfNeeded | apply framed_syncForReleaseLocked
            | apply framed_currentGraphicBuffer
            | apply framed_computeCurrentTransformMatrixLocked ]
    | progress frame_auto ].
Qed.

Lemma framed_inner {A} (m : M A) :
  framed (frame inner_ok) m -> framed (frame call_ok) m.
Proof. apply framed_weaken. exact inner_ok_call_ok. Qed.

Lemma framed_stable {A} (m : M A) : framed (frame call_ok) m -> framed stable m.
Proof. intros Hm s a s' H. exact (frame_stable _ _ (Hm _ _ _ H)). Qed.

Lemma framed_clearGlErrors pending : framed (frame quiet_ok) (clearGlErrors pending).
Proof. induction pending as [| error pending IH]; cbn [clearGlErrors]; frame_auto. Qed.

Lemma framed_doGLFenceWaitLocked w : framed (frame quiet_ok) (doGLFenceWaitLocked w).
Proof. unfold doGLFenceWaitLocked. frame_auto. Qed.

Lemma framed_bindTextureImageLocked w : framed (frame call_ok) (bindTextureImageLocked w).
Proof.
  unfold bindTextureImageLocked.
  repeat first
    [ apply framed_inner, framed_quiet;
      first [ apply framed_clearGlErrors | apply framed_createIfNeeded
            | apply framed_doGLFenceWaitLocked ]
    | progress frame_auto ].
Qed.

Lemma framed_updateTexImage w : framed (frame call_ok) (updateTexImage w).
Proof.
  unfold updateTexImage.
  repeat first
    [ apply framed_bindTextureImageLocked
    | apply framed_inner, framed_quiet, framed_checkAndUpdateEglStateLocked
    | apply framed_inner;
      first [ apply framed_acquireBufferLocked | apply framed_updateAndReleaseLocked ]
    | progress frame_auto ].
Qed.

Lemma usage_includes_default usage :
  Z.land (Z.lor usage DEFAULT_USAGE_FLAGS) DEFAULT_USAGE_FLAGS = DEFAULT_USAGE_FLAGS.
Proof.
  apply Z.bits_inj'. intros n Hn. rewrite Z.land_spec, Z.lor_spec.
  destruct (Z.testbit usage n), (Z.testbit DEFAULT_USAGE_FLAGS n); reflexivity.
Qed.

Lemma stable_intro s s' cs :
  mAbandoned s' = mAbandoned s -> mTexName s' = mTexName s ->
  mEglDisplay s' = mEglDisplay s -> mEglContext s' = mEglContext s ->
  mEglSlots s' = mEglSlots s -> images s' = images s ->
  calls s' = calls s ++ cs -> forallb call_ok cs = true ->
  stable s s'.
Proof.
  intros H1 H2 H3 H4 H5 H6 H7 H8. unfold stable, latched, calls_added.
  split_and!; try assumption; try congruence.
  - apply buffers_kept_same. exact H6.
  - eauto.
Qed.

Ltac stable_side :=
  intros;
  first
    [ eapply (stable_intro _ _ []);
      [ reflexivity .. | cbn; rewrite app_nil_r; reflexivity | reflexivity ]
    | eapply (stable_intro _ _ [_]);
      [ reflexivity .. | reflexivity
      | cbn; rewrite ?andb_true_r, ?usage_includes_default;
        first [reflexivity | assumption] ] ].

Ltac stable_auto :=
  repeat first
    [ framed_step
    | apply framed_modify; stable_side
    | apply framed_invoke; stable_side
    | assumption ].

Lemma framed_perform w op : framed stable (perform w op).
Proof.
  destruct op; cbn [perform]; apply framed_fmapM.
  - unfold setDefaultBufferSize. stable_auto.
  - apply framed_stable, framed_updateTexImage.
  - unfold setReleaseFence.
    repeat first [ apply framed_stable, framed_inner, framed_quiet, framed_currentGraphicBuffer
                 | progress stable_auto ].
    apply andb_true_iff in Heqb as [_ Hslot].
    apply framed_invoke. intros s. eapply (stable_intro _ _ [_]); try reflexivity.
    cbn. rewrite Hslot. reflexivity.
  - unfold getTransformMatrix. stable_auto.
  - unfold setFilteringEnabled.
    repeat first
      [ apply framed_stable, framed_inner, framed_quiet, framed_computeCurrentTransformMatrixLocked
      | progress stable_auto ].
  - unfold getTimestamp. stable_auto.
  - unfold getCurrentDataSpace. stable_auto.
  - unfold getFrameNumber. stable_auto.
  - unfold getCurrentBuffer. stable_auto.
  - unfold getCurrentCrop. stable_auto.
  - unfold getCurrentTransform. stable_auto.
  - unfold getCurrentScalingMode. stable_auto.
  - unfold getCurrentFence. stable_auto.
  - unfold getCurrentFenceTime. stable_auto.
  - unfold setConsumerUsageBits. stable_auto.
Qed.

Lemma framed_performAll l : framed stable (performAll l).
Proof.
  induction l as [| [w op] l IH]; cbn [performAll].
  - apply framed_ret.
  - apply framed_bind; [apply framed_perform |]. intros r.
    apply framed_bind; [exact IH |]. intros rs. apply framed_ret.
Qed.

(** ** Well-formed consumers and the member functions in full *)

Lemma well_formed_iff s : well_formed s = true <-> wf s.
Proof.
  unfold well_formed, wf. rewrite !andb_true_iff, orb_true_iff, andb_true_iff.
  rewrite Nat.eqb_eq, Z.eqb_eq, forallb_forall.
  split.
  - intros (((H1 & H2) & H3) & H4). split_and!.
    + exact H1.
    + intros i r Hi. apply list_elem_of_lookup_2, list_elem_of_In in Hi.
      apply H2 in Hi. apply Nat.ltb_lt, Hi.
    + intros r Hr. rewrite Hr in H3. apply Nat.ltb_lt, H3.
    + destruct H4 as [H4 | [H4 H5]]; [left; exact H4 | right].
      split; [exact H4 |].
      destruct (mCurrentTextureImage (cur s)); [eauto | discriminate].
  - intros (H1 & H2 & H3 & H4). split_and!.
    + exact H1.
    + intros [r |] Hx; [| reflexivity].
      apply list_elem_of_In, list_elem_of_lookup_1 in Hx as [i Hi].
      apply Nat.ltb_lt. eapply H2. exact Hi.
    + destruct (mCurrentTextureImage (cur s)) as [r |]; [| reflexivity].
      apply Nat.ltb_lt. apply H3. reflexivity.
    + destruct H4 as [H4 | [H4 [r H5]]]; [left; exact H4 | right].
      split; [exact H4 |]. rewrite H5. reflexivity.
Qed.

(** A step that changes neither the binding nor the slots, and that keeps
    or extends the store. *)
Lemma wf_same s s' :
  wf s -> cur s' = cur s -> mEglSlots s' = mEglSlots s ->
  (length (images s) <= length (images s'))%nat -> wf s'.
Proof.
  intros (H1 & H2 & H3 & H4) Ec Es Hi. unfold wf. rewrite Ec, Es.
  split_and!; try assumption.
  - intros i r Hr. specialize (H2 i r Hr). lia.
  - intros r Hr. specialize (H3 r Hr). lia.
Qed.

Lemma wf_same_binding s s' :
  wf s -> mCurrentTexture (cur s') = mCurrentTexture (cur s) ->
  mCurrentTextureImage (cur s') = mCurrentTextureImage (cur s) ->
  mEglSlots s' = mEglSlots s ->
  (length (images s) <= length (images s'))%nat -> wf s'.
Proof.
  intros (H1 & H2 & H3 & H4) Et Ei Es Hi. unfold wf. rewrite Et, Ei, Es.
  split_and!; try assumption.
  - intros i r Hr. specialize (H2 i r Hr). lia.
  - intros r Hr. specialize (H3 r Hr). lia.
Qed.

(** A slot is emptied, and the bound slot may be forgotten. *)
Lemma wf_free s s' i :
  wf s -> images s' = images s ->
  mEglSlots s' = <[i := None]> (mEglSlots s) ->
  (cur s' = cur s \/ cur s' = set_mCurrentTexture INVALID_BUFFER_SLOT (cur s)) ->
  wf s'.
Proof.
  intros (H1 & H2 & H3 & H4) Ei Es Ec. unfold wf. rewrite Ei, Es, length_insert.
  split_and!.
  - exact H1.
  - intros j r Hr. destruct (decide (j = i)) as [-> | Hne].
    + destruct (decide (i < length (mEglSlots s))%nat).
      * rewrite list_lookup_insert_eq in Hr by assumption. discriminate.
      * rewrite list_insert_ge in Hr by lia. eauto.
    + rewrite list_lookup_insert_ne in Hr by congruence. eauto.
  - destruct Ec as [-> | ->]; exact H3.
  - destruct Ec as [-> | ->]; [exact H4 | left; reflexivity].
Qed.

(** A slot is handed an image object of the store. *)
Lemma wf_write s s' i (r : ref) :
  wf s -> cur s' = cur s -> (length (images s) <= length (images s'))%nat ->
  (r < length (images s'))%nat ->
  mEglSlots s' = <[i := Some r]> (mEglSlots s) -> wf s'.
Proof.
  intros (H1 & H2 & H3 & H4) Ec Hi Hr Es. unfold wf. rewrite Ec, Es, length_insert.
  split_and!; try assumption.
  - intros j r' Hr'. destruct (decide (j = i)) as [-> | Hne].
    + destruct (decide (i < length (mEglSlots s))%nat).
      * rewrite list_lookup_insert_eq in Hr' by assumption. injection Hr' as <-. exact Hr.
      * rewrite list_insert_ge in Hr' by lia. specialize (H2 _ _ Hr'). lia.
    + rewrite list_lookup_insert_ne in Hr' by congruence. specialize (H2 _ _ Hr'). lia.
  - intros r' Hr'. specialize (H3 _ Hr'). lia.
Qed.

(** A binding to a slot of the array and an image object of the store. *)
Lemma wf_bound s s' (r : ref) :
  wf s -> images s' = images s -> mEglSlots s' = mEglSlots s ->
  slot_in_bounds (mCurrentTexture (cur s')) = true ->
  mCurrentTextureImage (cur s') = Some r -> (r < length (images s))%nat ->
  wf s'.
Proof.
  intros (H1 & H2 & H3 & H4) Ei Es Hb Hr Hlt. unfold wf. rewrite Ei, Es.
  split_and!; try assumption.
  - intros r' Hr'. congruence.
  - right. eauto.
Qed.

Lemma wf_lookup s i :
  wf s -> slot_in_bounds i = true -> is_Some (mEglSlots s !! Z.to_nat i).
Proof. intros (H1 & _) Hb. apply slot_lookup; assumption. Qed.

Lemma wf_deref s i (r : ref) :
  wf s -> mEglSlots s !! i = Some (Some r) -> is_Some (images s !! r).
Proof. intros (_ & H2 & _) Hr. apply lookup_lt_is_Some. eauto. Qed.

Lemma wf_current s :
  wf s -> mCurrentTexture (cur s) <> INVALID_BUFFER_SLOT ->
  slot_in_bounds (mCurrentTexture (cur s)) = true /\
  exists r img, mCurrentTextureImage (cur s) = Some r /\ images s !! r = Some img.
Proof.
  intros (_ & _ & H3 & H4) Hne. destruct H4 as [H4 | [H4 [r Hr]]]; [contradiction |].
  split; [exact H4 |]. destruct (lookup_lt_is_Some_2 (images s) r (H3 r Hr)) as [img Hi].
  eauto.
Qed.

Lemma wf_image s (r : ref) :
  wf s -> mCurrentTextureImage (cur s) = Some r -> exists img, images s !! r = Some img.
Proof.
  intros (_ & _ & H3 & _) Hr. apply lookup_lt_is_Some. eauto.
Qed.

Lemma wf_ref_ok s i x : wf s -> mEglSlots s !! i = Some x -> ref_ok s x = true.
Proof. intros Hwf. apply well_formed_slots, well_formed_iff, Hwf. Qed.

Lemma wf_current_ok s : wf s -> ref_ok s (mCurrentTextureImage (cur s)) = true.
Proof.
  intros (_ & _ & H3 & _). destruct (mCurrentTextureImage (cur s)) as [r |]; [| reflexivity].
  cbn. apply Nat.ltb_lt. auto.
Qed.

(** The calls made when a pointer is dropped are the destructor's. *)
Lemma decStrong_calls_cases held p s :
  decStrong_calls held p s = [] \/
  exists d i, decStrong_calls held p s = [eglDestroyImageKHR d i; eglTerminate d].
Proof.
  unfold decStrong_calls, destructor_calls.
  destruct p as [r |]; [| left; reflexivity].
  destruct (referenced held r s); [left; reflexivity |].
  destruct (images s !! r) as [img |]; [| left; reflexivity].
  destruct (EglImage.mEglImage img =? EGL_NO_IMAGE_KHR); [left; reflexivity |].
  right. eauto.
Qed.

Lemma decStrong_calls_quiet held p s : forallb quiet_ok (decStrong_calls held p s) = true.
Proof. destruct (decStrong_calls_cases held p s) as [-> | (d & i & ->)]; reflexivity. Qed.

Lemma decStrong_calls_no_release held p s :
  existsb is_release (decStrong_calls held p s) = false.
Proof. destruct (decStrong_calls_cases held p s) as [-> | (d & i & ->)]; reflexivity. Qed.

(** Dropping a pointer to an object of the store changes the calls only. *)
Lemma decStrong_total held p s :
  wf s -> ref_ok s p = true ->
  exists s',
    decStrong held p s = Some (tt, s') /\ wf s' /\
    cur s' = cur s /\ images s' = images s /\ mEglSlots s' = mEglSlots s /\
    same_settings s s' /\ calls s' = calls s ++ decStrong_calls held p s.
Proof.
  intros Hwf Hok.
  destruct (decStrong_result held p s Hok) as (s' & Hrun & D1 & D2 & D3 & D4 & D5).
  exists s'. split_and!; try assumption.
  apply (wf_same s s' Hwf D1 D3). rewrite D2. lia.
Qed.

(** A pointer to an object that is still referred to is dropped without
    any effect. *)
Lemma decStrong_referenced held (r : ref) s :
  referenced held r s = true -> decStrong held (Some r) s = Some (tt, s).
Proof. intros H. unfold decStrong. run. rewrite H. reflexivity. Qed.

Lemma ref_ok_mono s s' x :
  (length (images s) <= length (images s'))%nat -> ref_ok s x = true -> ref_ok s' x = true.
Proof.
  intros H. destruct x as [r |]; unfold ref_ok; [| reflexivity].
  rewrite !Nat.ltb_lt. lia.
Qed.

Lemma Rect_eqb_eq a b : Rect.eqb a b = true <-> a = b.
Proof.
  unfold Rect.eqb. rewrite !andb_true_iff, !Z.eqb_eq. destruct a, b; cbn.
  split; [intros [[[-> ->] ->] ->]; reflexivity | intros [= -> -> -> ->]; tauto].
Qed.

(** [createIfNeeded] in full: the object it is called on ends with an
    image on the display asked for, or reset. *)
Lemma createIfNeeded_total w created r d crop s img :
  images s !! r = Some img ->
  exists e s' img',
    createIfNeeded w created r d crop s = Some (e, s') /\
    cur s' = cur s /\ mEglSlots s' = mEglSlots s /\ same_settings s s' /\
    images s' = <[r := img']> (images s) /\
    EglImage.mGraphicBuffer img' = EglImage.mGraphicBuffer img /\
    ((e = OK /\ EglImage.mEglImage img' <> EGL_NO_IMAGE_KHR /\
      EglImage.mEglDisplay img' = d /\
      (hasEglAndroidImageCrop w = true -> EglImage.mCropRect img' = crop)) \/
     (e = UNKNOWN_ERROR /\ created = EGL_NO_IMAGE_KHR /\
      img' = EglImage.mk (EglImage.mGraphicBuffer img) EGL_NO_IMAGE_KHR EGL_NO_DISPLAY
               (Rect.mk 0 0 (-1) (-1)))).
Proof.
  intros Himg.
  unfold createIfNeeded, createImage, deref, store. run. rewrite Himg.
  destruct (negb (EglImage.mEglImage img =? EGL_NO_IMAGE_KHR) &&
            (negb (EglImage.mEglDisplay img =? d)
             || hasEglAndroidImageCrop w && negb (Rect.eqb (EglImage.mCropRect img) crop)))
    eqn:Hstale; cbn.
  - destruct (created =? EGL_NO_IMAGE_KHR) eqn:Hcreated; cbn; rewrite Hcreated;
      (eexists _, _, _; split; [reflexivity |]); cbn;
      (split_and!; try reflexivity; try (unfold same_settings; cbn; tauto)); bool_facts.
    + right. split_and!; [reflexivity | assumption | reflexivity].
    + left. split_and!; try reflexivity. assumption.
  - destruct (EglImage.mEglImage img =? EGL_NO_IMAGE_KHR) eqn:Hnone; cbn.
    + destruct (created =? EGL_NO_IMAGE_KHR) eqn:Hcreated; cbn; rewrite Hcreated;
        (eexists _, _, _; split; [reflexivity |]); cbn;
        (split_and!; try reflexivity; try (unfold same_settings; cbn; tauto)); bool_facts.
      * right. split_and!; [reflexivity | assumption | reflexivity].
      * left. split_and!; try reflexivity. assumption.
    + rewrite Hnone. exists OK, (set_images (<[r := img]> (images s)) s), img.
      cbn. split_and!; try reflexivity; try (unfold same_settings; cbn; tauto).
      left. cbn in Hstale.
      apply orb_false_iff in Hstale as [Hd Hc]. bool_facts.
      split_and!; try assumption; try reflexivity.
      intros Hext. rewrite Hext in Hc. cbn in Hc.
      apply negb_false_iff, Rect_eqb_eq in Hc. exact Hc.
Qed.

(** [acquireBufferLocked] in full. *)
Lemma acquireBufferLocked_total w s :
  wf s -> queue_contract w s ->
  exists s',
    acquireBufferLocked w s = Some (acquired w, s') /\
    wf s' /\ cur s' = cur s /\ same_settings s s' /\
    match BufferItem.mGraphicBuffer (snd (acquired w)) with
    | Some buffer =>
        if fst (acquired w) =? NO_ERROR then
          images s' = images s ++ [fresh_EglImage buffer] /\
          mEglSlots s' =
            <[Z.to_nat (BufferItem.mSlot (snd (acquired w))) := Some (length (images s))]>
              (mEglSlots s) /\
          exists old,
            mEglSlots s !! Z.to_nat (BufferItem.mSlot (snd (acquired w))) = Some old /\
            calls s' = calls s ++ ConsumerBase_acquireBufferLocked ::
                                  decStrong_calls None old s'
        else images s' = images s /\ mEglSlots s' = mEglSlots s /\
             calls s' = calls s ++ [ConsumerBase_acquireBufferLocked]
    | None => images s' = images s /\ mEglSlots s' = mEglSlots s /\
              calls s' = calls s ++ [ConsumerBase_acquireBufferLocked]
    end.
Proof.
  intros Hwf Hq. unfold queue_contract in Hq.
  unfold acquireBufferLocked, new_EglImage, read_mEglSlots, write_mEglSlots. run.
  destruct (acquired w) as [e item]. cbn [fst snd] in *.
  destruct (Z.eqb_spec e NO_ERROR) as [-> | He]; cbn [negb].
  - destruct (Hq eq_refl) as [Hb Hslot].
    destruct (BufferItem.mGraphicBuffer item) as [buffer |] eqn:Hbuf.
    + cbn. rewrite Hb.
      destruct (wf_lookup s _ Hwf Hb) as [x Hx]. cbn. rewrite Hx. cbv beta iota.
      cbn [mEglSlots set_images set_calls]. rewrite Hx. cbv beta iota.
      match goal with
      | |- context [decStrong None x ?s2] =>
          assert (Hwf2 : wf s2);
            [ eapply (wf_write s _ _ (length (images s)) Hwf); cbn; try reflexivity;
              rewrite length_app; cbn; lia |];
          destruct (decStrong_total None x s2 Hwf2) as (s3 & Hrun & W & D1 & D2 & D3 & D4 & D5);
            [ apply (ref_ok_mono s s2 x);
              [cbn; rewrite length_app; lia | exact (wf_ref_ok s _ x Hwf Hx)] |]
      end.
      rewrite Hrun. exists s3. split; [reflexivity |].
      rewrite <- (decStrong_calls_same None x _ s3) in D5 by assumption.
      cbn in D1, D2, D3, D5. rewrite <- app_assoc in D5.
      destruct D4 as (? & ? & ? & ? & ? & ? & ?).
      split_and!; try assumption; try (unfold same_settings; cbn in *; tauto).
      exists x. split; [reflexivity | exact D5].
    + cbn. eexists. split; [reflexivity |]. cbn.
      split_and!; try reflexivity; try (unfold same_settings; cbn; tauto).
  - eexists. split; [reflexivity |]. cbn.
    split_and!; try reflexivity; try (unfold same_settings; cbn; tauto).
    destruct (BufferItem.mGraphicBuffer item); split_and!; reflexivity.
Qed.

Lemma same_settings_trans s1 s2 s3 :
  same_settings s1 s2 -> same_settings s2 s3 -> same_settings s1 s3.
Proof.
  unfold same_settings. intros (A1 & A2 & A3 & A4 & A5 & A6 & A7)
    (B1 & B2 & B3 & B4 & B5 & B6 & B7). split_and!; congruence.
Qed.

(** [releaseBufferLocked] keeps the consumer well formed; the calls after
    the release are those of the slot being freed, the destructor's
    among them. *)
Lemma releaseBufferLocked_holding_total held w slot buf s :
  wf s -> slot_in_bounds slot = true ->
  exists s' cs,
    releaseBufferLocked_holding held w slot buf s = Some (released w slot, s') /\
    wf s' /\ images s' = images s /\ same_settings s s' /\
    mEglSlots s' = (if releaseFreesSlot w slot
                    then <[Z.to_nat slot := None]> (mEglSlots s) else mEglSlots s) /\
    calls s' = calls s ++ ConsumerBase_releaseBufferLocked slot buf :: cs /\
    existsb is_release cs = false /\
    cur s' = (if releaseFreesSlot w slot && (slot =? mCurrentTexture (cur s))
              then set_mCurrentTexture INVALID_BUFFER_SLOT (cur s) else cur s).
Proof.
  intros Hwf Hb.
  destruct (releaseBufferLocked_result held w slot buf s)
    as (s' & cs & Hrun & H1 & H2 & H3 & H4 & H5 & Hcs).
  { intros _. split; [exact Hb |]. destruct (wf_lookup s _ Hwf Hb) as [x Hx].
    exists x. split; [exact Hx | exact (wf_ref_ok s _ x Hwf Hx)]. }
  exists s', cs. split; [exact Hrun |]. split_and!; try assumption.
  - destruct (releaseFreesSlot w slot).
    + eapply (wf_free s s' _ Hwf H1 H3). rewrite H5.
      destruct (true && (slot =? mCurrentTexture (cur s))); [right | left]; reflexivity.
    + eapply (wf_same s s' Hwf); [rewrite H5; reflexivity | exact H3 | rewrite H1; lia].
  - destruct Hcs as [-> | (x & _ & ->)]; [reflexivity |].
    rewrite existsb_app, decStrong_calls_no_release. reflexivity.
Qed.

Lemma releaseBufferLocked_total w slot buf s :
  wf s -> slot_in_bounds slot = true ->
  exists s' cs,
    releaseBufferLocked w slot buf s = Some (released w slot, s') /\
    wf s' /\ images s' = images s /\ same_settings s s' /\
    mEglSlots s' = (if releaseFreesSlot w slot
                    then <[Z.to_nat slot := None]> (mEglSlots s) else mEglSlots s) /\
    calls s' = calls s ++ ConsumerBase_releaseBufferLocked slot buf :: cs /\
    existsb is_release cs = false /\
    cur s' = (if releaseFreesSlot w slot && (slot =? mCurrentTexture (cur s))
              then set_mCurrentTexture INVALID_BUFFER_SLOT (cur s) else cur s).
Proof. apply releaseBufferLocked_holding_total. Qed.

Lemma isEglImageCroppable_ext w w' crop :
  hasEglAndroidImageCrop w = hasEglAndroidImageCrop w' ->
  isEglImageCroppable w crop = isEglImageCroppable w' crop.
Proof. unfold isEglImageCroppable. intros ->. reflexivity. Qed.

(** Lines 272-284 and the end of the function: the commit, the pointer
    that [mCurrentTextureImage] held being dropped, the matrix, and the
    local pointer going out of scope. *)
Lemma commit_step w item (r : ref) s img :
  wf s -> slot_in_bounds (BufferItem.mSlot item) = true ->
  images s !! r = Some img ->
  exists s5 s',
    decStrong (Some r) (mCurrentTextureImage (cur s))
      (set_cur (committed (BufferItem.mSlot item) (Some r) item (cur s)) s) = Some (tt, s5) /\
    computeCurrentTransformMatrixLocked w s5 = Some (tt, s') /\
    decStrong None (Some r) s' = Some (tt, s') /\
    wf s' /\
    cur s' = committedBinding w item r (EglImage.mGraphicBuffer img) (mFilteringEnabled s) /\
    images s' = images s /\ mEglSlots s' = mEglSlots s /\
    calls s' = calls s ++ decStrong_calls (Some r) (mCurrentTextureImage (cur s)) s' /\
    same_settings s s'.
Proof.
  intros Hwf Hb Hr.
  set (s4 := set_cur (committed (BufferItem.mSlot item) (Some r) item (cur s)) s).
  assert (Hwf4 : wf s4).
  { eapply (wf_bound s _ r Hwf); cbn; try reflexivity; try assumption.
    apply lookup_lt_is_Some. eauto. }
  destruct (decStrong_total (Some r) (mCurrentTextureImage (cur s)) s4 Hwf4)
    as (s5 & Hrun5 & Hwf5 & D1 & D2 & D3 & D4 & D5).
  { exact (wf_current_ok s Hwf). }
  assert (Hc5 : mCurrentTextureImage (cur s5) = Some r) by (rewrite D1; reflexivity).
  assert (Hi5 : images s5 !! r = Some img) by (rewrite D2; exact Hr).
  pose proof (computeCurrentTransformMatrixLocked_result w s5 r img Hc5 Hi5) as Hrun6.
  set (s6 := set_cur _ s5) in Hrun6.
  exists s5, s6. split; [exact Hrun5 |]. split; [exact Hrun6 |].
  split.
  { apply decStrong_referenced. unfold referenced, s6. cbn. rewrite D1. cbn.
    rewrite Nat.eqb_refl. reflexivity. }
  destruct D4 as (? & ? & ? & ? & ? & ? & ?).
  split_and!.
  - apply (wf_same_binding s5 s6 Hwf5); reflexivity.
  - unfold s6. cbn. rewrite D1. cbn. unfold committedBinding. rewrite H2. reflexivity.
  - unfold s6. cbn. rewrite D2. reflexivity.
  - unfold s6. cbn. rewrite D3. reflexivity.
  - unfold s6. cbn [calls set_cur]. rewrite D5. f_equal.
    unfold decStrong_calls, referenced. cbn. rewrite D1, D2, D3. reflexivity.
  - unfold same_settings, s6. cbn in *. tauto.
Qed.

Lemma calls_added_intro ok s s' cs :
  calls s' = calls s ++ cs -> forallb ok cs = true -> calls_added ok s s'.
Proof. intros. exists cs. split; assumption. Qed.

Lemma calls_added_same ok s s' : calls s' = calls s -> calls_added ok s s'.
Proof. intros E. exists []. rewrite app_nil_r. split; [exact E | reflexivity]. Qed.

(** [updateAndReleaseLocked] in full: the frame is dropped with an error
    and released, or it is committed. *)
Lemma updateAndReleaseLocked_total w item p s (r : ref) :
  wf s -> slot_in_bounds (BufferItem.mSlot item) = true ->
  mEglSlots s !! Z.to_nat (BufferItem.mSlot item) = Some (Some r) ->
  exists e p' s',
    updateAndReleaseLocked w item p s = Some ((e, p'), s') /\ wf s' /\
    ((e <> NO_ERROR /\ p' = p /\ dropped s s' /\
      exists cs cs',
        calls s' = calls s ++ cs ++
          ConsumerBase_releaseBufferLocked (BufferItem.mSlot item)
            (baseSlotBuffer w (BufferItem.mSlot item)) :: cs' /\
        forallb quiet_ok cs = true) \/
     (committed_to w item r s' /\ handed_back w p s e p' s')).
Proof.
  intros Hwf Hb Hslot.
  destruct (wf_deref s _ r Hwf Hslot) as [img Himg].
  destruct (check_total w s) as (e0 & s1 & Hcheck).
  destruct (check_frame w s e0 s1 Hcheck) as (C1 & C2 & C3 & C4 & C5 & C6 & C7 & C8 & C9).
  assert (Hwf1 : wf s1) by (apply (wf_same s s1 Hwf C1 C4); rewrite C3; lia).
  unfold updateAndReleaseLocked. run. rewrite Hcheck. cbv beta iota.
  destruct (Z.eqb_spec e0 NO_ERROR) as [-> | He0]; cbn [negb]; cbv beta iota.
  2:{ destruct (releaseBufferLocked_total w (BufferItem.mSlot item)
                  (baseSlotBuffer w (BufferItem.mSlot item)) s1 Hwf1 Hb)
        as (s' & cs & Hrun & R1 & R2 & R3 & R4 & R5 & R6 & R7).
      rewrite Hrun. exists e0, p, s'. split; [reflexivity |]. split; [exact R1 |]. left.
      split_and!; [exact He0 | reflexivity | |].
      - unfold dropped. rewrite R7, C1.
        destruct (releaseFreesSlot w (BufferItem.mSlot item)
                  && (BufferItem.mSlot item =? mCurrentTexture (cur s)));
          [right | left]; reflexivity.
      - exists [], cs. rewrite R5, C2. split; reflexivity. }
  destruct (check_ok w s s1 Hcheck) as (Hd & Hd' & Hc & Hc').
  unfold read_mEglSlots at 1. rewrite Hb, C4, Hslot.
  destruct (createIfNeeded_total w (createdImage w) r (mEglDisplay s1)
              (BufferItem.mCrop item) s1 img ltac:(rewrite C3; exact Himg))
    as (e1 & s2 & img' & Hrun1 & D1 & D2 & D3 & D4 & D5 & D6).
  destruct (framed_createIfNeeded _ _ _ _ _ _ _ _ Hrun1) as (_ & _ & (cs1 & F1 & F1')).
  rewrite Hrun1. cbv beta iota.
  assert (Hwf2 : wf s2)
    by (apply (wf_same s1 s2 Hwf1 D1 D2); rewrite D4, length_insert; lia).
  destruct D6 as [(-> & I1 & I2 & I3) | (-> & _ & _)].
  2:{ change (negb (UNKNOWN_ERROR =? NO_ERROR)) with true. cbv beta iota.
      destruct (releaseBufferLocked_total w (BufferItem.mSlot item)
                  (baseSlotBuffer w (BufferItem.mSlot item)) s2 Hwf2 Hb)
        as (s' & cs & Hrun & R1 & R2 & R3 & R4 & R5 & R6 & R7).
      rewrite Hrun. exists UNKNOWN_ERROR, p, s'.
      split; [reflexivity |]. split; [exact R1 |]. left.
      split_and!; [discriminate | reflexivity | |].
      - unfold dropped. rewrite R7, D1, C1.
        destruct (releaseFreesSlot w (BufferItem.mSlot item)
                  && (BufferItem.mSlot item =? mCurrentTexture (cur s)));
          [right | left]; reflexivity.
      - exists cs1, cs. rewrite R5, F1, C2, <- app_assoc. split; [reflexivity | exact F1']. }
  change (negb (OK =? NO_ERROR)) with false. cbv beta iota.
  assert (Hsync : exists e3 s3,
             (if negb (BufferItem.mSlot item =? mCurrentTexture (cur s2))
              then syncForReleaseLocked w (mEglDisplay s2)
              else fun s0 : Consumer => Some (OK, s0)) s2 = Some (e3, s3) /\
             cur s3 = cur s2 /\ images s3 = images s2 /\
             mEglSlots s3 = mEglSlots s2 /\ same_settings s2 s3 /\
             calls_added quiet_ok s2 s3).
  { destruct (negb (BufferItem.mSlot item =? mCurrentTexture (cur s2))).
    - destruct (syncForReleaseLocked_result w (mEglDisplay s2) s2)
        as (e3 & s3 & cs3 & Hrun3 & E1 & E2 & E3 & E4 & _).
      { intros Hne. destruct (wf_current s2 Hwf2 Hne) as (_ & r0 & i0 & ? & ?). eauto. }
      exists e3, s3. split; [exact Hrun3 |]. split_and!; try assumption.
      exact (proj2 (proj2 (framed_syncForReleaseLocked _ _ _ _ _ Hrun3))).
    - exists OK, s2. split_and!; try reflexivity. apply same_settings_refl. }
  destruct Hsync as (e3 & s3 & Hrun3 & E1 & E2 & E3 & E4 & (cs3 & E5 & E5')).
  rewrite Hrun3. cbv beta iota.
  assert (Hwf3 : wf s3) by (apply (wf_same s2 s3 Hwf2 E1 E3); rewrite E2; lia).
  destruct (Z.eqb_spec e3 NO_ERROR) as [-> | He3]; cbn [negb]; cbv beta iota.
  2:{ destruct (releaseBufferLocked_total w (BufferItem.mSlot item)
                  (baseSlotBuffer w (BufferItem.mSlot item)) s3 Hwf3 Hb)
        as (s' & cs & Hrun & R1 & R2 & R3 & R4 & R5 & R6 & R7).
      rewrite Hrun. exists e3, p, s'.
      split; [reflexivity |]. split; [exact R1 |]. left.
      split_and!; [exact He3 | reflexivity | |].
      - unfold dropped. rewrite R7, E1, D1, C1.
        destruct (releaseFreesSlot w (BufferItem.mSlot item)
                  && (BufferItem.mSlot item =? mCurrentTexture (cur s)));
          [right | left]; reflexivity.
      - exists (cs1 ++ cs3), cs. rewrite R5, E5, F1, C2, <- !app_assoc.
        split; [reflexivity |]. rewrite forallb_app, F1', E5'. reflexivity. }
  unfold read_mEglSlots. rewrite Hb, E3, D2, C4, Hslot.
  assert (Himg3 : images s3 !! r = Some img').
  { rewrite E2, D4. apply list_lookup_insert_eq. rewrite C3.
    apply lookup_lt_is_Some. eauto. }
  assert (Hcur3 : cur s3 = cur s) by congruence.
  assert (Hquiet3 : calls s3 = calls s ++ (cs1 ++ cs3) /\ forallb quiet_ok (cs1 ++ cs3) = true).
  { rewrite E5, F1, C2, <- app_assoc, forallb_app, F1', E5'. split; reflexivity. }
  destruct Hquiet3 as [Hcalls3 Hquiet3].
  assert (Hset3 : same_settings s1 s3) by (eapply same_settings_trans; eassumption).
  destruct Hset3 as (S1 & S2 & S3 & S4 & S5 & S6 & S7).
  assert (Hfinish : forall s4 s6,
    images s4 = images s3 -> same_settings s3 s4 ->
    cur s6 = committedBinding w item r (EglImage.mGraphicBuffer img') (mFilteringEnabled s4) ->
    images s6 = images s4 -> same_settings s4 s6 ->
    committed_to w item r s6).
  { intros s4 s6 A1 (_ & _ & _ & A2 & _ & A3 & A4) A5 A6 (_ & _ & _ & A7 & _ & A8 & A9).
    exists img'. split_and!; try congruence. exact I3. }
  assert (Hcommit : forall s4,
    wf s4 -> images s4 = images s3 ->
    exists s5 s6 dcs,
      decStrong (Some r) (mCurrentTextureImage (cur s4))
        (set_cur (committed (BufferItem.mSlot item) (Some r) item (cur s4)) s4) =
        Some (tt, s5) /\
      computeCurrentTransformMatrixLocked w s5 = Some (tt, s6) /\
      decStrong None (Some r) s6 = Some (tt, s6) /\
      wf s6 /\
      cur s6 = committedBinding w item r (EglImage.mGraphicBuffer img')
                 (mFilteringEnabled s4) /\
      images s6 = images s4 /\ same_settings s4 s6 /\
      calls s6 = calls s4 ++ dcs /\ forallb quiet_ok dcs = true /\
      existsb is_release dcs = false).
  { intros s4 Hwf4 Hi4.
    destruct (commit_step w item r s4 img' Hwf4 Hb ltac:(rewrite Hi4; exact Himg3))
      as (s5 & s6 & Hrun5 & Hrun6 & Hrun7 & G1 & G2 & G3 & G4 & G5 & G6).
    exists s5, s6, (decStrong_calls (Some r) (mCurrentTextureImage (cur s4)) s6).
    refine (conj Hrun5 (conj Hrun6 (conj Hrun7 (conj G1 (conj G2 (conj G3
              (conj G6 (conj G5 (conj _ _))))))))).
    - apply decStrong_calls_quiet.
    - apply decStrong_calls_no_release. }
  destruct (Z.eqb_spec (mCurrentTexture (cur s3)) INVALID_BUFFER_SLOT) as [Hinv | Hbound3];
    cbn [negb]; cbv beta iota.
  - destruct (Hcommit s3 Hwf3 eq_refl)
      as (s5 & s6 & dcs & Hrun5 & Hrun6 & Hrun7 & G1 & G2 & G3 & G4 & G5 & G6 & G7).
    rewrite Hrun5. cbv beta iota. rewrite Hrun6. cbv beta iota. rewrite Hrun7.
    exists NO_ERROR, p, s6.
    split; [reflexivity |]. split; [exact G1 |]. right. split.
    + apply (Hfinish s3 s6); try assumption; try reflexivity. apply same_settings_refl.
    + unfold handed_back. rewrite Hcur3 in Hinv. apply Z.eqb_eq in Hinv. rewrite Hinv.
      split_and!; try reflexivity.
      apply (calls_added_intro _ _ _ ((cs1 ++ cs3) ++ dcs)).
      * rewrite G5, Hcalls3, <- !app_assoc. reflexivity.
      * rewrite forallb_app, Hquiet3, G6. reflexivity.
  - destruct (wf_current s3 Hwf3 Hbound3) as (Hcb & r0 & old3 & Hr0 & Hold3).
    assert (Hold : exists old, images s !! r0 = Some old /\
                   EglImage.mGraphicBuffer old3 = EglImage.mGraphicBuffer old).
    { rewrite E2, D4, C3 in Hold3. destruct (decide (r0 = r)) as [-> | Hne].
      - rewrite list_lookup_insert_eq in Hold3 by (apply lookup_lt_is_Some; eauto).
        injection Hold3 as <-. eauto.
      - rewrite list_lookup_insert_ne in Hold3 by congruence. eauto. }
    destruct Hold as (old & Hold & Hbuf).
    apply Z.eqb_neq in Hbound3 as Hbound'.
    assert (HboundS : (mCurrentTexture (cur s) =? INVALID_BUFFER_SLOT) = false)
      by (rewrite <- Hcur3; exact Hbound').
    assert (Hr0S : mCurrentTextureImage (cur s) = Some r0) by (rewrite <- Hcur3; exact Hr0).
    destruct p as [pr |]; cbv beta iota;
      unfold currentGraphicBuffer, deref; run; rewrite Hr0, Hold3; cbv beta iota.
    + destruct (Hcommit s3 Hwf3 eq_refl)
        as (s5 & s6 & dcs & Hrun5 & Hrun6 & Hrun7 & G1 & G2 & G3 & G4 & G5 & G6 & G7).
      rewrite Hrun5. cbv beta iota. rewrite Hrun6. cbv beta iota. rewrite Hrun7.
      eexists NO_ERROR, _, s6.
      split; [reflexivity |]. split; [exact G1 |]. right. split.
      * apply (Hfinish s3 s6); try assumption; try reflexivity. apply same_settings_refl.
      * unfold handed_back. rewrite HboundS. exists r0, old.
        split_and!; try assumption; try reflexivity.
        -- rewrite Hbuf, Hcur3. reflexivity.
        -- apply (calls_added_intro _ _ _ ((cs1 ++ cs3) ++ dcs)).
           ++ rewrite G5, Hcalls3, <- !app_assoc. reflexivity.
           ++ rewrite forallb_app, Hquiet3, G6. reflexivity.
    + destruct (releaseBufferLocked_holding_total (Some r) w (mCurrentTexture (cur s3))
                  (Some (EglImage.mGraphicBuffer old3)) s3 Hwf3 Hcb)
        as (s4 & cs4 & Hrun4 & R1 & R2 & R3 & R4 & R5 & R6 & R7).
      rewrite Hrun4. cbv beta iota.
      destruct (Hcommit s4 R1 R2)
        as (s5 & s6 & dcs & Hrun5 & Hrun6 & Hrun7 & G1 & G2 & G3 & G4 & G5 & G6 & G7).
      assert (Hhand : forall e,
        e = (if released w (mCurrentTexture (cur s3)) <? NO_ERROR
             then released w (mCurrentTexture (cur s3)) else NO_ERROR) ->
        handed_back w None s e None s6).
      { intros e He. rewrite Hcur3 in He. unfold handed_back. rewrite HboundS. exists r0, old.
        split_and!; try assumption; try reflexivity.
        exists (cs1 ++ cs3), (cs4 ++ dcs).
        rewrite G5, R5, Hcalls3, <- !app_assoc, Hbuf, Hcur3.
        split_and!; [reflexivity | exact Hquiet3 |].
        rewrite existsb_app, R6, G7. reflexivity. }
      destruct (released w (mCurrentTexture (cur s3)) <? NO_ERROR) eqn:Hneg; cbv beta iota;
        rewrite Hrun5; cbv beta iota; rewrite Hrun6; cbv beta iota; rewrite Hrun7;
        eexists _, None, s6;
        (split; [reflexivity |]); (split; [exact G1 |]); right; (split;
          [ apply (Hfinish s4 s6); assumption
          | apply Hhand; rewrite ?Hneg; reflexivity ]).
Qed.

Lemma only_calls_refl s : only_calls s s.
Proof. unfold only_calls. split_and!; try reflexivity. apply same_settings_refl. Qed.

Lemma only_calls_trans s1 s2 s3 : only_calls s1 s2 -> only_calls s2 s3 -> only_calls s1 s3.
Proof.
  intros (A1 & A2 & A3 & A4) (B1 & B2 & B3 & B4). unfold only_calls.
  split_and!; try congruence. eapply same_settings_trans; eassumption.
Qed.

Lemma only_calls_invoke c s : only_calls s (set_calls (calls s ++ [c]) s).
Proof. unfold only_calls, same_settings. cbn. tauto. Qed.

Lemma only_calls_wf s s' : wf s -> only_calls s s' -> wf s'.
Proof. intros Hwf (A1 & A2 & A3 & _). apply (wf_same s s' Hwf A1 A3). rewrite A2. lia. Qed.

Lemma clearGlErrors_total pending : forall s,
  exists s', clearGlErrors pending s = Some (tt, s') /\ only_calls s s'.
Proof.
  induction pending as [| error pending IH]; intros s; cbn [clearGlErrors]; run.
  - eexists. split; [reflexivity | apply only_calls_invoke].
  - destruct (error =? GL_NO_ERROR).
    + eexists. split; [reflexivity | apply only_calls_invoke].
    + destruct (IH (set_calls (calls s ++ [glGetError]) s)) as (s' & Hrun & Hs').
      exists s'. split; [exact Hrun |].
      eapply only_calls_trans; [apply only_calls_invoke | exact Hs'].
Qed.

Lemma doGLFenceWaitLocked_total w s :
  exists e s', doGLFenceWaitLocked w s = Some (e, s') /\ only_calls s s'.
Proof.
  unfold doGLFenceWaitLocked. run.
  split_ifs; (eexists _, _; split; [reflexivity |]);
    unfold only_calls, same_settings; cbn; tauto.
Qed.

(** [bindTextureImageLocked] in full. *)
Lemma bindTextureImageLocked_total w s :
  wf s ->
  exists e s',
    bindTextureImageLocked w s = Some (e, s') /\ wf s' /\
    cur s' = cur s /\ mEglSlots s' = mEglSlots s /\ same_settings s s' /\
    (mEglDisplay s = EGL_NO_DISPLAY -> e = INVALID_OPERATION /\ calls s' = calls s) /\
    (mEglDisplay s <> EGL_NO_DISPLAY ->
     exists cs cs',
       calls s' = calls s ++ cs ++ glBindTexture sTexTarget (mTexName s) :: cs' /\
       forallb quiet_ok cs = true /\ forallb quiet_ok cs' = true /\
       (e = NO_ERROR ->
        exists r img',
          mCurrentTextureImage (cur s) = Some r /\ images s' !! r = Some img' /\
          EglImage.mEglImage img' <> EGL_NO_IMAGE_KHR /\
          EglImage.mEglDisplay img' = mEglDisplay s /\
          (hasEglAndroidImageCrop w = true ->
           EglImage.mCropRect img' = mCurrentCrop (cur s)) /\
          In (glEGLImageTargetTexture2DOES sTexTarget (EglImage.mEglImage img')) cs')).
Proof.
  intros Hwf. unfold bindTextureImageLocked. run.
  destruct (Z.eqb_spec (mEglDisplay s) EGL_NO_DISPLAY) as [Hd | Hd].
  { exists INVALID_OPERATION, s. split; [reflexivity |].
    split_and!; try reflexivity; try assumption; try apply same_settings_refl.
    - intros _. split; reflexivity.
    - intros Hne. contradiction. }
  destruct (clearGlErrors_total (pendingGlErrors w) s) as (s1 & Hrun1 & O1).
  destruct (framed_clearGlErrors _ _ _ _ Hrun1) as (_ & _ & (cs1 & F1 & F1')).
  rewrite Hrun1. cbv beta iota.
  pose proof (only_calls_wf s s1 Hwf O1) as Hwf1.
  destruct O1 as (A1 & A2 & A3 & A4).
  set (s1b := set_calls (calls s1 ++ [glBindTexture sTexTarget (mTexName s)]) s1).
  assert (O1b : only_calls s1 s1b) by apply only_calls_invoke.
  pose proof (only_calls_wf s1 s1b Hwf1 O1b) as Hwf1b.
  destruct O1b as (Ab1 & Ab2 & Ab3 & Ab4).
  destruct (mCurrentTextureImage (cur s)) as [r |] eqn:Hr.
  2:{ destruct Hwf as (_ & _ & _ & [Hinv | (_ & r & Hr')]); [| congruence].
      apply Z.eqb_eq in Hinv. rewrite Hinv. exists NO_INIT, s1b.
      split; [reflexivity |]. split; [exact Hwf1b |].
      split_and!; try assumption; try contradiction; try congruence;
        try (eapply same_settings_trans; eassumption).
      intros _. exists cs1, []. cbn. rewrite F1, <- app_assoc.
      split_and!; try reflexivity; try assumption. discriminate. }
  assert (Hlt : (r < length (images s))%nat) by (destruct Hwf as (_ & _ & H3 & _); eauto).
  destruct (lookup_lt_is_Some_2 _ _ Hlt) as [img Himg].
  destruct (createIfNeeded_total w (createdImageAtBind w) r (mEglDisplay s)
              (mCurrentCrop (cur s)) s1b img ltac:(cbn; rewrite A2; exact Himg))
    as (e2 & s2 & img' & Hrun2 & D1 & D2 & D3 & D4 & D5 & D6).
  destruct (framed_createIfNeeded _ _ _ _ _ _ _ _ Hrun2) as (_ & _ & (cs2 & F2 & F2')).
  fold s1b. rewrite Hrun2. cbv beta iota.
  assert (Hwf2 : wf s2)
    by (apply (wf_same s1b s2 Hwf1b D1 D2); rewrite D4, length_insert; lia).
  assert (Hset2 : same_settings s s2).
  { eapply same_settings_trans; [exact A4 |].
    eapply same_settings_trans; [exact Ab4 | exact D3]. }
  destruct D6 as [(-> & I1 & I2 & I3) | (-> & _ & _)].
  2:{ change (negb (UNKNOWN_ERROR =? NO_ERROR)) with true. cbv beta iota.
      exists UNKNOWN_ERROR, s2. split; [reflexivity |]. split; [exact Hwf2 |].
      split_and!; try assumption; try contradiction; try congruence.
      intros _. exists cs1, cs2. rewrite F2. cbn. rewrite F1, <- !app_assoc.
      split_and!; try reflexivity; try assumption. discriminate. }
  change (negb (OK =? NO_ERROR)) with false. cbv beta iota.
  assert (Himg2 : images s2 !! r = Some img').
  { rewrite D4. apply list_lookup_insert_eq. cbn. rewrite A2. exact Hlt. }
  unfold deref. rewrite Himg2.
  set (s3 := set_calls (calls s2 ++ [glEGLImageTargetTexture2DOES sTexTarget
                                       (EglImage.mEglImage img')]) s2).
  destruct (doGLFenceWaitLocked_total w s3) as (e4 & s4 & Hrun4 & O4).
  destruct (framed_doGLFenceWaitLocked _ _ _ _ Hrun4) as (_ & _ & (cs4 & F4 & F4')).
  rewrite Hrun4. exists e4, s4. split; [reflexivity |].
  assert (O3 : only_calls s2 s3) by apply only_calls_invoke.
  pose proof (only_calls_trans _ _ _ O3 O4) as O24.
  split; [exact (only_calls_wf s2 s4 Hwf2 O24) |].
  destruct O24 as (B1 & B2 & B3 & B4).
  split_and!; try congruence.
  - eapply same_settings_trans; eassumption.
  - intros _.
    exists cs1, (cs2 ++ glEGLImageTargetTexture2DOES sTexTarget (EglImage.mEglImage img') :: cs4).
    rewrite F4. cbn. rewrite F2. cbn. rewrite F1, <- !app_assoc. cbn.
    split_and!; try reflexivity; try assumption.
    + rewrite forallb_app, F2'. cbn. exact F4'.
    + intros _. exists r, img'. split_and!; try reflexivity; try assumption.
      * rewrite B2. exact Himg2.
      * apply in_or_app. right. left. reflexivity.
Qed.

Lemma filter_quiet cs : forallb quiet_ok cs = true -> List.filter is_glBindTexture cs = [].
Proof.
  induction cs as [| c cs IH]; [reflexivity |]. cbn. intros H.
  apply andb_true_iff in H as [Hc H].
  destruct c; cbn in *; try discriminate; auto.
Qed.

Lemma filter_inner cs : forallb inner_ok cs = true -> List.filter is_glBindTexture cs = [].
Proof.
  induction cs as [| c cs IH]; [reflexivity |]. cbn. intros H.
  apply andb_true_iff in H as [Hc H].
  destruct c; cbn in *; try discriminate; auto.
Qed.

(** [updateTexImage] in full. *)
Lemma updateTexImage_total w s :
  wf s -> queue_contract w s ->
  exists e s',
    updateTexImage w s = Some (e, s') /\ wf s' /\
    ((mAbandoned s = true /\ e = NO_INIT /\ s' = s) \/
     (mAbandoned s = false /\ e <> NO_ERROR /\
      checkAndUpdateEglStateLocked w s = Some (e, s')) \/
     (mAbandoned s = false /\
      (exists s1, checkAndUpdateEglStateLocked w s = Some (NO_ERROR, s1)) /\
      ((fst (acquired w) <> NO_ERROR /\
        e = (if fst (acquired w) =? NO_BUFFER_AVAILABLE
             then NO_ERROR else fst (acquired w)) /\
        cur s' = cur s /\ images s' = images s /\ mEglSlots s' = mEglSlots s /\
        calls s' = calls s ++ ConsumerBase_acquireBufferLocked ::
          (if fst (acquired w) =? NO_BUFFER_AVAILABLE
           then [glBindTexture sTexTarget (mTexName s)] else [])) \/
       (fst (acquired w) = NO_ERROR /\
        exists r cs,
          acquired_image w s r /\
          calls s' = calls s ++ ConsumerBase_acquireBufferLocked :: cs /\
          List.filter is_glBindTexture cs = [glBindTexture sTexTarget (mTexName s)] /\
          ((e <> NO_ERROR /\ dropped s s') \/
           (exists img',
              images s' !! r = Some img' /\
              acquired_buffer w s r (EglImage.mGraphicBuffer img') /\
              cur s' = committedBinding w (snd (acquired w)) r
                         (EglImage.mGraphicBuffer img') (mFilteringEnabled s') /\
              (e = NO_ERROR ->
               EglImage.mEglImage img' <> EGL_NO_IMAGE_KHR /\
               EglImage.mEglDisplay img' = eglGetCurrentDisplay w /\
               mEglDisplay s' = eglGetCurrentDisplay w /\
               In (glEGLImageTargetTexture2DOES sTexTarget (EglImage.mEglImage img'))
                  cs))))))).
Proof.
  intros Hwf Hq. unfold updateTexImage. run.
  destruct (mAbandoned s) eqn:Hab.
  { exists NO_INIT, s. split; [reflexivity |]. split; [exact Hwf |]. left. tauto. }
  destruct (check_total w s) as (e0 & s1 & Hcheck).
  destruct (check_frame w s e0 s1 Hcheck) as (C1 & C2 & C3 & C4 & C5 & C6 & C7 & C8 & C9).
  assert (Hwf1 : wf s1) by (apply (wf_same s s1 Hwf C1 C4); rewrite C3; lia).
  rewrite Hcheck. cbv beta iota.
  destruct (Z.eqb_spec e0 NO_ERROR) as [-> | He0]; cbn [negb]; cbv beta iota.
  2:{ exists e0, s1. split; [reflexivity |]. split; [exact Hwf1 |]. right; left. tauto. }
  assert (Hq1 : queue_contract w s1).
  { unfold queue_contract in *. rewrite C4. exact Hq. }
  destruct (acquireBufferLocked_total w s1 Hwf1 Hq1)
    as (s2 & Hrun2 & Hwf2 & A1 & A2 & A4).
  rewrite Hrun2. unfold queue_contract, acquired_image, acquired_buffer in *.
  destruct (acquired w) as [ea item] eqn:Hacq. cbn [fst snd] in *. cbv beta iota.
  destruct (Z.eqb_spec ea NO_ERROR) as [-> | Hea]; cbn [negb]; cbv beta iota.
  2:{ assert (Hsame : images s2 = images s1 /\ mEglSlots s2 = mEglSlots s1 /\
                      calls s2 = calls s1 ++ [ConsumerBase_acquireBufferLocked]).
      { destruct (BufferItem.mGraphicBuffer item); [| exact A4].
        destruct (Z.eqb_spec ea NO_ERROR); [contradiction | exact A4]. }
      destruct Hsame as (A5 & A6 & A3).
      destruct (ea =? NO_BUFFER_AVAILABLE) eqn:Hnb; cbv beta iota.
      - eexists NO_ERROR, _. split; [reflexivity |]. split.
        + eapply (wf_same s2 _ Hwf2); reflexivity.
        + right; right. split; [reflexivity |]. split; [eauto |]. left.
          cbn. rewrite A1, C1, A5, C3, A6, C4, A3, C2, <- app_assoc.
          split_and!; try reflexivity; assumption.
      - exists ea, s2. split; [reflexivity |]. split; [exact Hwf2 |].
        right; right. split; [reflexivity |]. split; [eauto |]. left.
        rewrite A1, C1, A5, C3, A6, C4, A3, C2.
        split_and!; try reflexivity; assumption. }
  destruct (Hq eq_refl) as [Hb Hheld].
  change (NO_ERROR =? NO_ERROR) with true in A4. cbv iota in A4.
  assert (Hacq3 : exists dcs,
            calls s2 = calls s1 ++ ConsumerBase_acquireBufferLocked :: dcs /\
            forallb quiet_ok dcs = true).
  { destruct (BufferItem.mGraphicBuffer item).
    - destruct A4 as (_ & _ & old & _ & A4). eexists.
      split; [exact A4 | apply decStrong_calls_quiet].
    - destruct A4 as (_ & _ & A4). exists []. split; [exact A4 | reflexivity]. }
  destruct Hacq3 as (dcs & A3 & Hdcs).
  assert (Hr : exists r : ref,
            mEglSlots s2 !! Z.to_nat (BufferItem.mSlot item) = Some (Some r) /\
            match BufferItem.mGraphicBuffer item with
            | Some buffer =>
                r = length (images s) /\ images s2 !! r = Some (fresh_EglImage buffer)
            | None =>
                mEglSlots s !! Z.to_nat (BufferItem.mSlot item) = Some (Some r) /\
                images s2 = images s
            end).
  { destruct (BufferItem.mGraphicBuffer item) as [buffer |].
    - destruct A4 as (A5 & A6 & _). exists (length (images s1)). rewrite A6, A5, C3. split_and!.
      + apply list_lookup_insert_eq. apply lookup_lt_is_Some.
        apply wf_lookup; assumption.
      + reflexivity.
      + apply list_lookup_middle. reflexivity.
    - destruct A4 as (A5 & A6 & _). destruct (Hheld eq_refl) as [r Hr]. exists r.
      rewrite A6, C4, A5, C3. tauto. }
  destruct Hr as (r & Hslot2 & Hr).
  destruct (updateAndReleaseLocked_total w item None s2 r Hwf2 Hb Hslot2)
    as (e3 & p' & s3 & Hrun3 & Hwf3 & Hout).
  destruct (framed_updateAndReleaseLocked _ _ _ _ _ _ Hrun3)
    as ((_ & L2 & _ & _ & _ & K3) & (S1 & _) & (cs3 & F3 & F3')).
  rewrite Hrun3. cbv beta iota.
  assert (Hdrop2 : dropped s2 s3 -> dropped s s3).
  { unfold dropped. rewrite A1, C1. tauto. }
  assert (Hacqimg : match BufferItem.mGraphicBuffer item with
                    | Some _ => r = length (images s)
                    | None => mEglSlots s !! Z.to_nat (BufferItem.mSlot item) = Some (Some r)
                    end).
  { destruct (BufferItem.mGraphicBuffer item); tauto. }
  assert (Hbuf : forall s' img',
            buffers_kept s2 s' -> images s' !! r = Some img' ->
            match BufferItem.mGraphicBuffer item with
            | Some buffer => EglImage.mGraphicBuffer img' = buffer
            | None => exists img, images s !! r = Some img /\
                        EglImage.mGraphicBuffer img' = EglImage.mGraphicBuffer img
            end).
  { intros s' img' Hk Hi. destruct (BufferItem.mGraphicBuffer item) as [buffer |].
    - destruct Hr as [_ Hr]. destruct (Hk _ _ Hr) as (i & Hi' & Hb'). unfold fresh_EglImage in Hb'. cbn in Hb'.
      pose proof (eq_trans (eq_sym Hi) Hi') as E. injection E as ->. exact Hb'.
    - destruct Hr as [Hr E]. destruct (wf_deref s _ r Hwf Hr) as [img Himg].
      exists img. split; [exact Himg |].
      rewrite <- E in Himg. destruct (Hk _ _ Himg) as (i & Hi' & Hb').
      pose proof (eq_trans (eq_sym Hi) Hi') as E'. injection E' as ->. exact Hb'. }
  assert (Hname : mTexName s2 = mTexName s).
  { destruct A2 as (_ & _ & _ & _ & A2 & _). congruence. }
  assert (Hfail : e3 <> NO_ERROR ->
            exists cs,
              calls (set_calls (calls s3 ++ [glBindTexture sTexTarget (mTexName s)]) s3) =
                calls s ++ ConsumerBase_acquireBufferLocked :: cs /\
              List.filter is_glBindTexture cs = [glBindTexture sTexTarget (mTexName s)]).
  { intros _. exists (dcs ++ cs3 ++ [glBindTexture sTexTarget (mTexName s)]). cbn.
    rewrite F3, A3, C2, <- !app_assoc. split; [reflexivity |].
    rewrite !List.filter_app, (filter_quiet _ Hdcs), (filter_inner _ F3'). reflexivity. }
  destruct Hout as [(He3 & _ & Hdrop & _) | (Hcommit & Hhand)].
  - apply Z.eqb_neq in He3 as He3'. rewrite He3'. cbn [negb]. cbv beta iota.
    eexists e3, _. split; [reflexivity |]. split.
    + eapply (wf_same s3 _ Hwf3); reflexivity.
    + right; right. split; [reflexivity |]. split; [eauto |]. right.
      split; [reflexivity |]. destruct (Hfail He3) as (cs & Hcs & Hfilter).
      exists r, cs. split_and!; try assumption. left. split; [exact He3 |].
      apply Hdrop2 in Hdrop. exact Hdrop.
  - destruct Hcommit as (img3 & G1 & G2 & G3 & G4 & G5 & G6 & G7 & G8 & G9).
    destruct (Z.eqb_spec e3 NO_ERROR) as [-> | He3]; cbn [negb]; cbv beta iota.
    + destruct (bindTextureImageLocked_total w s3 Hwf3)
        as (e4 & s4 & Hrun4 & Hwf4 & B1 & B2 & B3 & _ & B5).
      destruct (framed_bindTextureImageLocked _ _ _ _ Hrun4)
        as ((_ & _ & _ & _ & _ & K4) & _).
      destruct (B5 G7) as (cs & cs' & B6 & B7 & B8 & B9).
      rewrite Hrun4. exists e4, s4. split; [reflexivity |]. split; [exact Hwf4 |].
      right; right. split; [reflexivity |]. split; [eauto |]. right.
      split; [reflexivity |].
      exists r, (dcs ++ cs3 ++ cs ++ glBindTexture sTexTarget (mTexName s3) :: cs').
      destruct (K4 _ _ G1) as (img4 & Hi4 & Hb4).
      assert (Hfilt4 : mFilteringEnabled s4 = mFilteringEnabled s3)
        by (destruct B3 as (_ & _ & _ & B3 & _); exact B3).
      split_and!; try assumption.
      * rewrite B6, F3, A3, C2, <- !app_assoc. reflexivity.
      * rewrite !List.filter_app, (filter_quiet _ Hdcs), (filter_inner _ F3'),
          (filter_quiet _ B7).
        cbn. rewrite (filter_quiet _ B8). congruence.
      * right. exists img4. split_and!; try assumption.
        -- apply (Hbuf s4 img4); [| exact Hi4]. etransitivity; eassumption.
        -- rewrite B1, Hb4, Hfilt4. exact G2.
        -- intros He4. destruct (B9 He4) as (r' & img' & R1 & R2 & R3 & R4 & R5 & R6).
           rewrite G2 in R1. cbn in R1. injection R1 as <-.
           pose proof (eq_trans (eq_sym Hi4) R2) as E'. injection E' as <-.
           destruct B3 as (_ & _ & _ & _ & _ & B3 & _).
           split_and!; try congruence.
           apply in_or_app. right. apply in_or_app. right.
           apply in_or_app. right. right. exact R6.
    + apply Z.eqb_neq in He3 as He3'.
      eexists e3, _. split; [reflexivity |]. split.
      * eapply (wf_same s3 _ Hwf3); reflexivity.
      * right; right. split; [reflexivity |]. split; [eauto |]. right.
        split; [reflexivity |]. destruct (Hfail He3) as (cs & Hcs & Hfilter).
        exists r, cs. split_and!; try assumption. right.
        exists img3. cbn. split_and!; try assumption.
        -- apply (Hbuf s3 img3); assumption.
        -- intros; contradiction.
Qed.

Lemma matrix_fresh_kept w s s' :
  dropped s s' -> buffers_kept s s' -> mFilteringEnabled s' = mFilteringEnabled s ->
  matrix_fresh w s -> matrix_fresh w s'.
Proof.
  intros Hd Hk Hf Hm r Hr.
  assert (E : mCurrentTextureImage (cur s') = mCurrentTextureImage (cur s) /\
              mCurrentCrop (cur s') = mCurrentCrop (cur s) /\
              mCurrentTransform (cur s') = mCurrentTransform (cur s) /\
              mCurrentTransformMatrix (cur s') = mCurrentTransformMatrix (cur s)).
  { destruct Hd as [-> | ->]; cbn; tauto. }
  destruct E as (E1 & E2 & E3 & E4). rewrite E1 in Hr.
  destruct (Hm r Hr) as (img & Hi & Hc). destruct (Hk r img Hi) as (img' & Hi' & Hb).
  exists img'. split; [exact Hi' |]. rewrite Hb, E2, E3, E4, Hf. exact Hc.
Qed.

Lemma matrix_fresh_committed w w0 item (r : ref) s img :
  hasEglAndroidImageCrop w = hasEglAndroidImageCrop w0 ->
  images s !! r = Some img ->
  cur s = committedBinding w item r (EglImage.mGraphicBuffer img) (mFilteringEnabled s) ->
  matrix_fresh w0 s.
Proof.
  intros Hext Hi Hc r' Hr'. rewrite Hc in Hr'. cbn in Hr'. injection Hr' as <-.
  exists img. split; [exact Hi |]. rewrite Hc. cbn.
  rewrite computeTransformMatrix_pipeline, (isEglImageCroppable_ext w0 w) by congruence.
  reflexivity.
Qed.

Lemma updateTexImage_matrix_fresh w w0 s e s' :
  wf s -> queue_contract w s ->
  hasEglAndroidImageCrop w = hasEglAndroidImageCrop w0 ->
  matrix_fresh w0 s -> updateTexImage w s = Some (e, s') -> matrix_fresh w0 s'.
Proof.
  intros Hwf Hq Hext Hm Hrun.
  destruct (framed_updateTexImage _ _ _ _ Hrun) as ((_ & _ & _ & _ & _ & K) & (S1 & _) & _).
  destruct (updateTexImage_total w s Hwf Hq) as (e' & s'' & Hrun' & _ & Hout).
  rewrite Hrun in Hrun'. injection Hrun' as <- <-.
  destruct Hout as [(_ & _ & ->) | [(_ & _ & Hcheck) | (_ & _ & [Hnone | Hitem])]].
  - exact Hm.
  - destruct (check_frame _ _ _ _ Hcheck) as (C1 & _).
    apply (matrix_fresh_kept w0 s s'); try assumption. left. exact C1.
  - destruct Hnone as (_ & _ & C1 & _).
    apply (matrix_fresh_kept w0 s s'); try assumption. left. exact C1.
  - destruct Hitem as (_ & r & cs & _ & _ & _ & [(_ & Hd) | (img' & Hi & _ & Hc & _)]).
    + apply (matrix_fresh_kept w0 s s'); assumption.
    + apply (matrix_fresh_committed w w0 (snd (acquired w)) r s' img'); assumption.
Qed.

(** Every public operation of a well-formed consumer returns, provided
    the queue keeps its contract, and leaves the consumer well formed. *)
Lemma perform_total w op s :
  wf s -> (op = op_updateTexImage -> queue_contract w s) ->
  exists ret s', perform w op s = Some (ret, s') /\ wf s'.
Proof.
  intros Hwf Hq. destruct op; cbn [perform]; unfold fmapM; run.
  - unfold setDefaultBufferSize. run. destruct (mAbandoned s).
    + eexists _, _. split; [reflexivity | exact Hwf].
    + eexists _, _. split; [reflexivity |]. eapply (wf_same s _ Hwf); reflexivity.
  - destruct (updateTexImage_total w s Hwf (Hq eq_refl)) as (e & s' & Hrun & Hwf' & _).
    rewrite Hrun. eexists _, _. split; [reflexivity | exact Hwf'].
  - unfold setReleaseFence. run.
    destruct (Fence_isValid fence); cbn [andb].
    2:{ eexists _, _. split; [reflexivity | exact Hwf]. }
    destruct (Z.eqb_spec (mCurrentTexture (cur s)) INVALID_BUFFER_SLOT) as [Hi | Hb];
      cbn [negb].
    { eexists _, _. split; [reflexivity | exact Hwf]. }
    destruct (wf_current s Hwf Hb) as (_ & r & img & Hr & Himg).
    unfold currentGraphicBuffer, deref. run. rewrite Hr, Himg.
    eexists _, _. split; [reflexivity |]. eapply (wf_same s _ Hwf); reflexivity.
  - unfold getTransformMatrix. run. eexists _, _. split; [reflexivity | exact Hwf].
  - unfold setFilteringEnabled. run. destruct (mAbandoned s).
    { eexists _, _. split; [reflexivity | exact Hwf]. }
    destruct (mCurrentTextureImage (cur s)) as [r |] eqn:Hr.
    2:{ eexists _, _. split; [reflexivity |]. eapply (wf_same s _ Hwf); reflexivity. }
    destruct (negb (Bool.eqb (mFilteringEnabled s) enabled)).
    2:{ eexists _, _. split; [reflexivity |]. eapply (wf_same s _ Hwf); reflexivity. }
    destruct (wf_image s r Hwf Hr) as [img Himg].
    rewrite (computeCurrentTransformMatrixLocked_result w
               (set_mFilteringEnabled enabled s) r img Hr Himg).
    eexists _, _. split; [reflexivity |]. eapply (wf_same_binding s _ Hwf); reflexivity.
  - unfold getTimestamp. run. eexists _, _. split; [reflexivity | exact Hwf].
  - unfold getCurrentDataSpace. run. eexists _, _. split; [reflexivity | exact Hwf].
  - unfold getFrameNumber. run. eexists _, _. split; [reflexivity | exact Hwf].
  - unfold getCurrentBuffer. run.
    destruct (mCurrentTextureImage (cur s)) as [r |] eqn:Hr.
    2:{ eexists _, _. split; [reflexivity | exact Hwf]. }
    destruct (wf_image s r Hwf Hr) as [img Himg].
    unfold deref. rewrite Himg. eexists _, _. split; [reflexivity | exact Hwf].
  - unfold getCurrentCrop. run.
    destruct (mCurrentScalingMode (cur s) =? NATIVE_WINDOW_SCALING_MODE_SCALE_CROP);
      eexists _, _; (split; [reflexivity | exact Hwf]).
  - unfold getCurrentTransform. run. eexists _, _. split; [reflexivity | exact Hwf].
  - unfold getCurrentScalingMode. run. eexists _, _. split; [reflexivity | exact Hwf].
  - unfold getCurrentFence. run. eexists _, _. split; [reflexivity | exact Hwf].
  - unfold getCurrentFenceTime. run. eexists _, _. split; [reflexivity | exact Hwf].
  - unfold setConsumerUsageBits. run. eexists _, _. split; [reflexivity |].
    eapply (wf_same s _ Hwf); reflexivity.
Qed.

Lemma queue_contract_holds_spec w s :
  queue_contract_holds w s = true -> queue_contract w s.
Proof.
  unfold queue_contract_holds, queue_contract. intros H He.
  rewrite He in H. cbn in H. apply andb_true_iff in H as [Hb Hi].
  split; [exact Hb |]. intros Hnone. rewrite Hnone in Hi.
  destruct (mEglSlots s !! Z.to_nat (BufferItem.mSlot (snd (acquired w))))
    as [[r |] |]; try discriminate. eauto.
Qed.

Lemma perform_matrix_fresh w w0 op s ret s' :
  wf s -> (op = op_updateTexImage -> queue_contract w s) ->
  hasEglAndroidImageCrop w = hasEglAndroidImageCrop w0 ->
  matrix_fresh w0 s -> perform w op s = Some (ret, s') -> matrix_fresh w0 s'.
Proof.
  intros Hwf Hq Hext Hm.
  assert (Hsame : forall s0, cur s0 = cur s -> images s0 = images s ->
                    mFilteringEnabled s0 = mFilteringEnabled s -> matrix_fresh w0 s0).
  { intros s0 E1 E2 E3. apply (matrix_fresh_kept w0 s s0); try assumption.
    - left. exact E1.
    - apply buffers_kept_same. exact E2. }
  destruct op; cbn [perform]; unfold fmapM; run.
  - unfold setDefaultBufferSize. run.
    destruct (mAbandoned s); intros [= _ <-]; apply Hsame; reflexivity.
  - destruct (updateTexImage w s) as [[e s1] |] eqn:Hrun; [| discriminate].
    intros [= _ <-].
    exact (updateTexImage_matrix_fresh w w0 s e s1 Hwf (Hq eq_refl) Hext Hm Hrun).
  - unfold setReleaseFence. run.
    destruct (Fence_isValid fence && negb (mCurrentTexture (cur s) =? INVALID_BUFFER_SLOT)).
    + unfold currentGraphicBuffer, deref. run.
      destruct (mCurrentTextureImage (cur s)) as [r |]; [| discriminate].
      destruct (images s !! r); [| discriminate].
      intros [= _ <-]. apply Hsame; reflexivity.
    + intros [= _ <-]. exact Hm.
  - unfold getTransformMatrix. run. intros [= _ <-]. exact Hm.
  - unfold setFilteringEnabled. run. destruct (mAbandoned s).
    { intros [= _ <-]. exact Hm. }
    destruct (mCurrentTextureImage (cur s)) as [r |] eqn:Hr.
    2:{ intros [= _ <-]. intros r' Hr'. cbn in Hr'. congruence. }
    destruct (Bool.eqb (mFilteringEnabled s) enabled) eqn:Heq; cbn [negb].
    { apply Bool.eqb_prop in Heq. intros [= _ <-]. apply Hsame; try reflexivity.
      cbn. congruence. }
    destruct (wf_image s r Hwf Hr) as [img Himg].
    rewrite (computeCurrentTransformMatrixLocked_result w
               (set_mFilteringEnabled enabled s) r img Hr Himg).
    intros [= _ <-]. intros r' Hr'. cbn in Hr'. rewrite Hr in Hr'. injection Hr' as <-.
    exists img. split; [exact Himg |]. cbn.
    rewrite computeTransformMatrix_pipeline, (isEglImageCroppable_ext w0 w) by congruence.
    reflexivity.
  - unfold getTimestamp. run. intros [= _ <-]. exact Hm.
  - unfold getCurrentDataSpace. run. intros [= _ <-]. exact Hm.
  - unfold getFrameNumber. run. intros [= _ <-]. exact Hm.
  - unfold getCurrentBuffer. run.
    destruct (mCurrentTextureImage (cur s)) as [r |].
    + unfold deref. destruct (images s !! r); [| discriminate]. intros [= _ <-]. exact Hm.
    + intros [= _ <-]. exact Hm.
  - unfold getCurrentCrop. run.
    destruct (mCurrentScalingMode (cur s) =? NATIVE_WINDOW_SCALING_MODE_SCALE_CROP);
      intros [= _ <-]; exact Hm.
  - unfold getCurrentTransform. run. intros [= _ <-]. exact Hm.
  - unfold getCurrentScalingMode. run. intros [= _ <-]. exact Hm.
  - unfold getCurrentFence. run. intros [= _ <-]. exact Hm.
  - unfold getCurrentFenceTime. run. intros [= _ <-]. exact Hm.
  - unfold setConsumerUsageBits. run. intros [= _ <-]. apply Hsame; reflexivity.
Qed.

(** A sequence of operations of a well-formed consumer, the queue keeping
    its contract, runs to its end and keeps the invariants. *)
Lemma performAll_total w0 l : forall s,
  wf s -> contract_kept l s = true ->
  exists rets s',
    performAll l s = Some (rets, s') /\ wf s' /\
    length rets = length l /\
    (same_extension w0 l -> matrix_fresh w0 s -> matrix_fresh w0 s').
Proof.
  induction l as [| [w op] l IH]; intros s Hwf Hk.
  - exists [], s. split_and!; try reflexivity; auto.
  - cbn [contract_kept] in Hk. apply andb_true_iff in Hk as [Hq Hk].
    assert (Hq' : op = op_updateTexImage -> queue_contract w s).
    { intros ->. apply queue_contract_holds_spec. exact Hq. }
    destruct (perform_total w op s Hwf Hq') as (ret & s1 & Hrun & Hwf1).
    rewrite Hrun in Hk.
    destruct (IH s1 Hwf1 Hk) as (rets & s' & Hrest & Hwf' & Hlen & Hm).
    exists (ret :: rets), s'. cbn [performAll]. unfold bind. rewrite Hrun, Hrest.
    split_and!; try reflexivity; try assumption.
    + cbn. congruence.
    + intros Hext Hfresh. inversion Hext as [| wo l' Hw Hl]; subst. cbn in Hw.
      apply Hm; [exact Hl |].
      exact (perform_matrix_fresh w w0 op s ret s1 Hwf Hq' Hw Hfresh Hrun).
Qed.

(** ** Image objects *)

Lemma isEmpty_isValid crop : Rect.isEmpty crop = false -> Rect.isValid crop = true.
Proof.
  unfold Rect.isEmpty, Rect.isValid. intros H. apply orb_false_iff in H as [Hw Hh].
  apply Z.leb_gt in Hw, Hh. apply andb_true_iff. split; apply Z.leb_le; lia.
Qed.

(** X7. For a bound image and a crop that is not empty,
    [computeCurrentTransformMatrixLocked] returns, and the crop is
    applied in one place only: when [isEglImageCroppable] holds, the
    attributes of the EGL image carry the crop and the matrix is computed
    with the empty rect; otherwise the attributes carry no crop and the
    matrix is computed with the crop. *)
Theorem crop_applied_once w s (r : ref) img :
  mCurrentTextureImage (cur s) = Some r -> images s !! r = Some img ->
  Rect.isEmpty (mCurrentCrop (cur s)) = false ->
  let crop := mCurrentCrop (cur s) in
  let buf := EglImage.mGraphicBuffer img in
  let protected :=
    has_bit (getUsage buf) GRALLOC_USAGE_PROTECTED && hasEglProtectedContent w in
  exists s',
    computeCurrentTransformMatrixLocked w s = Some (tt, s') /\
    if isEglImageCroppable w crop then
      attribList (createImage_attrs w buf crop) = attributes_of (Some crop) protected /\
      computeTransformMatrix (Some buf) Rect.EMPTY_RECT (mCurrentTransform (cur s))
        (mFilteringEnabled s) = Some (mCurrentTransformMatrix (cur s'))
    else
      attribList (createImage_attrs w buf crop) = attributes_of None protected /\
      computeTransformMatrix (Some buf) crop (mCurrentTransform (cur s))
        (mFilteringEnabled s) = Some (mCurrentTransformMatrix (cur s')).
Proof.
  intros Hr Hi He. cbv zeta.
  rewrite (computeCurrentTransformMatrixLocked_result w s r img Hr Hi).
  eexists. split; [reflexivity |]. cbn.
  pose proof (isEmpty_isValid _ He) as Hv.
  unfold createImage_attrs, attributes_of. rewrite Hv. cbn [negb].
  destruct (isEglImageCroppable w (mCurrentCrop (cur s))); cbn [negb];
    rewrite computeTransformMatrix_pipeline;
    (split; [| reflexivity]);
    destruct (has_bit (getUsage (EglImage.mGraphicBuffer img)) GRALLOC_USAGE_PROTECTED
              && hasEglProtectedContent w); reflexivity.
Qed.

Lemma crop_applied_once_witness :
  exists s',
    computeCurrentTransformMatrixLocked (example_world (NO_ERROR, example_item 3 7))
      example_bound = Some (tt, s') /\
    computeTransformMatrix (Some example_buffer) (Rect.mk 0 0 100 100)
      NATIVE_WINDOW_TRANSFORM_ROT_90 true = Some (mCurrentTransformMatrix (cur s')).
Proof.
  edestruct (crop_applied_once (example_world (NO_ERROR, example_item 3 7)) example_bound
               0%nat) as (s' & Hrun & Hmatrix); [reflexivity | reflexivity | reflexivity |].
  exists s'. split; [exact Hrun | exact (proj2 Hmatrix)].
Defined.

Lemma set_images_id s (r : ref) img :
  images s !! r = Some img -> set_images (<[r := img]> (images s)) s = s.
Proof. intros H. rewrite list_insert_id by exact H. destruct s; reflexivity. Qed.

Lemma createIfNeeded_valid w created (r : ref) dpy crop s img :
  images s !! r = Some img ->
  EglImage.mEglImage img <> EGL_NO_IMAGE_KHR -> EglImage.mEglDisplay img = dpy ->
  (hasEglAndroidImageCrop w = true -> EglImage.mCropRect img = crop) ->
  createIfNeeded w created r dpy crop s = Some (OK, s).
Proof.
  intros Hi Hne Hd Hc. unfold createIfNeeded, deref, store. run. rewrite Hi.
  apply Z.eqb_neq in Hne. rewrite Hne. cbn [negb andb].
  rewrite Hd, Z.eqb_refl. cbn [negb orb].
  assert (Hcrop : hasEglAndroidImageCrop w && negb (Rect.eqb (EglImage.mCropRect img) crop)
                  = false).
  { destruct (hasEglAndroidImageCrop w); [| reflexivity]. cbn.
    rewrite (Hc eq_refl). apply negb_false_iff, Rect_eqb_eq. reflexivity. }
  rewrite Hcrop. cbv beta iota. rewrite Hne. cbv beta iota. rewrite Hne.
  rewrite (set_images_id s r img Hi). reflexivity.
Qed.

(** X8. After [createIfNeeded] has succeeded, a second call for the same
    display and crop succeeds, whatever EGL would answer, and changes
    nothing: no image is created or destroyed and no call is made. *)
Theorem createIfNeeded_idempotent w created created' (r : ref) dpy crop s s' :
  createIfNeeded w created r dpy crop s = Some (OK, s') ->
  createIfNeeded w created' r dpy crop s' = Some (OK, s').
Proof.
  intros Hrun.
  destruct (images s !! r) as [img |] eqn:Hi.
  2:{ unfold createIfNeeded, bind, deref in Hrun. rewrite Hi in Hrun. discriminate. }
  destruct (createIfNeeded_total w created r dpy crop s img Hi)
    as (e & s2 & img' & Hrun' & _ & _ & _ & D4 & _ & D6).
  rewrite Hrun in Hrun'. injection Hrun' as <- <-.
  destruct D6 as [(_ & I1 & I2 & I3) | (He & _)]; [| discriminate].
  apply (createIfNeeded_valid w created' r dpy crop s' img'); try assumption.
  rewrite D4. apply list_lookup_insert_eq. apply lookup_lt_is_Some. eauto.
Qed.

Lemma createIfNeeded_idempotent_witness :
  exists s',
    createIfNeeded (example_world (NO_ERROR, example_item 4 8)) 11 1%nat 1
      (Rect.mk 0 0 100 100) example_acquired = Some (OK, s') /\
    createIfNeeded (example_world (NO_ERROR, example_item 4 8)) EGL_NO_IMAGE_KHR 1%nat 1
      (Rect.mk 0 0 100 100) s' = Some (OK, s').
Proof.
  exists (after (createIfNeeded (example_world (NO_ERROR, example_item 4 8)) 11 1%nat 1
                   (Rect.mk 0 0 100 100)) example_acquired).
  split; [vm_compute; reflexivity |].
  apply (createIfNeeded_idempotent (example_world (NO_ERROR, example_item 4 8)) 11
           EGL_NO_IMAGE_KHR 1%nat 1 (Rect.mk 0 0 100 100) example_acquired).
  vm_compute. reflexivity.
Defined.

(** X9. When [createIfNeeded] does not return OK, it returns UNKNOWN_ERROR,
    EGL has returned no image, and the image object is left reset: no
    image, no display, the invalid crop rect (0,0,-1,-1), and the buffer
    it wrapped. A later call for which EGL returns an image then succeeds
    and stores that image, and the calls it makes are two: it initialises
    the display and asks EGL for the image, with the crop attribute and
    the protected flag of [createImage]. *)
Theorem createIfNeeded_failure_resets w created (r : ref) dpy crop s e s' :
  createIfNeeded w created r dpy crop s = Some (e, s') -> e <> OK ->
  e = UNKNOWN_ERROR /\ created = EGL_NO_IMAGE_KHR /\
  exists img,
    images s !! r = Some img /\
    images s' !! r =
      Some (EglImage.mk (EglImage.mGraphicBuffer img) EGL_NO_IMAGE_KHR EGL_NO_DISPLAY
              (Rect.mk 0 0 (-1) (-1))) /\
    forall created', created' <> EGL_NO_IMAGE_KHR ->
      exists s'' img'',
        createIfNeeded w created' r dpy crop s' = Some (OK, s'') /\
        images s'' !! r = Some img'' /\ EglImage.mEglImage img'' = created' /\
        calls s'' = calls s' ++
          [ eglInitialize dpy;
            eglCreateImageKHR dpy (EglImage.mGraphicBuffer img)
              (if Rect.isValid crop && isEglImageCroppable w crop then Some crop else None)
              (has_bit (getUsage (EglImage.mGraphicBuffer img)) GRALLOC_USAGE_PROTECTED
               && hasEglProtectedContent w) ].
Proof.
  intros Hrun He.
  destruct (images s !! r) as [img |] eqn:Hi.
  2:{ unfold createIfNeeded, bind, deref in Hrun. rewrite Hi in Hrun. discriminate. }
  destruct (createIfNeeded_total w created r dpy crop s img Hi)
    as (e' & s2 & img' & Hrun' & _ & _ & _ & D4 & _ & D6).
  rewrite Hrun in Hrun'. injection Hrun' as <- <-.
  destruct D6 as [(-> & _) | (-> & Hc & ->)]; [contradiction |].
  split; [reflexivity |]. split; [exact Hc |]. exists img. split; [reflexivity |].
  assert (Hi' : images s' !! r =
                Some (EglImage.mk (EglImage.mGraphicBuffer img) EGL_NO_IMAGE_KHR
                        EGL_NO_DISPLAY (Rect.mk 0 0 (-1) (-1)))).
  { rewrite D4. apply list_lookup_insert_eq. apply lookup_lt_is_Some. eauto. }
  split; [exact Hi' |].
  intros created' Hc'. unfold createIfNeeded, createImage, deref, store. run.
  rewrite Hi'. cbn. apply Z.eqb_neq in Hc'. rewrite Hc'. cbn. rewrite Hc'.
  eexists _, _. split; [reflexivity |]. cbn. split_and!.
  - apply list_lookup_insert_eq. apply lookup_lt_is_Some. eauto.
  - reflexivity.
  - rewrite <- app_assoc.
    destruct (Rect.isValid crop), (isEglImageCroppable w crop); reflexivity.
Qed.

Lemma createIfNeeded_failure_resets_witness :
  exists s' s'',
    createIfNeeded (example_world (NO_ERROR, example_item 4 8)) EGL_NO_IMAGE_KHR 1%nat 1
      (Rect.mk 0 0 100 100) example_acquired = Some (UNKNOWN_ERROR, s') /\
    createIfNeeded (example_world (NO_ERROR, example_item 4 8)) 11 1%nat 1
      (Rect.mk 0 0 100 100) s' = Some (OK, s'').
Proof.
  exists (after (createIfNeeded (example_world (NO_ERROR, example_item 4 8))
                   EGL_NO_IMAGE_KHR 1%nat 1 (Rect.mk 0 0 100 100)) example_acquired).
  destruct (createIfNeeded_failure_resets (example_world (NO_ERROR, example_item 4 8))
              EGL_NO_IMAGE_KHR 1%nat 1 (Rect.mk 0 0 100 100) example_acquired
              UNKNOWN_ERROR
              (after (createIfNeeded (example_world (NO_ERROR, example_item 4 8))
                        EGL_NO_IMAGE_KHR 1%nat 1 (Rect.mk 0 0 100 100)) example_acquired))
    as (_ & _ & img & _ & _ & Hretry); [vm_compute; reflexivity | discriminate |].
  destruct (Hretry 11) as (s'' & img'' & Hrun & _); [discriminate |].
  exists s''. split; [vm_compute; reflexivity | exact Hrun].
Defined.

Lemma eglRefs_app d cs cs' : eglRefs d (cs ++ cs') = eglRefs d cs + eglRefs d cs'.
Proof. induction cs as [| c cs IH]; cbn [eglRefs app]; [reflexivity | rewrite IH; lia]. Qed.

(** X10. Counting an [eglInitialize] of a display as one reference and an
    [eglTerminate] as one less, [createIfNeeded] changes the count of
    every display by the change in what the image object holds on it (one
    when it holds an image of that display, none otherwise), and the
    destructor gives back what the object holds: every image an object
    holds is matched by one initialisation that is not yet terminated. *)
Theorem egl_references_balanced w created (r : ref) dpy crop s img d :
  images s !! r = Some img ->
  (exists e s' img',
     createIfNeeded w created r dpy crop s = Some (e, s') /\
     images s' !! r = Some img' /\
     eglRefs d (calls s') - eglRefs d (calls s) = holds d img' - holds d img) /\
  (exists s',
     EglImage_destructor r s = Some (tt, s') /\
     eglRefs d (calls s') - eglRefs d (calls s) = - holds d img).
Proof.
  intros Hi. split.
  - assert (Hlt : (r < length (images s))%nat) by (apply lookup_lt_is_Some; eauto).
    unfold createIfNeeded, createImage, deref, store. run. rewrite Hi.
    destruct (negb (EglImage.mEglImage img =? EGL_NO_IMAGE_KHR) &&
              (negb (EglImage.mEglDisplay img =? dpy)
               || hasEglAndroidImageCrop w && negb (Rect.eqb (EglImage.mCropRect img) crop)))
      eqn:Hstale; cbn.
    + apply andb_true_iff in Hstale as [Hhave _].
      destruct (created =? EGL_NO_IMAGE_KHR) eqn:Hc; cbn; rewrite Hc;
        (eexists _, _, _; split; [reflexivity |]); cbn;
        (split; [apply list_lookup_insert_eq; exact Hlt |]);
        unfold holds; cbn; rewrite ?eglRefs_app, Hhave, ?Hc; cbn;
        destruct (dpy =? d), (EglImage.mEglDisplay img =? d); cbn; lia.
    + destruct (EglImage.mEglImage img =? EGL_NO_IMAGE_KHR) eqn:Hnone; cbn.
      * destruct (created =? EGL_NO_IMAGE_KHR) eqn:Hc; cbn; rewrite Hc;
          (eexists _, _, _; split; [reflexivity |]); cbn;
          (split; [apply list_lookup_insert_eq; exact Hlt |]);
          unfold holds; cbn; rewrite ?eglRefs_app, Hnone, ?Hc; cbn;
          destruct (dpy =? d); cbn; lia.
      * rewrite Hnone. eexists _, _, _. split; [reflexivity |]. cbn.
        split; [apply list_lookup_insert_eq; exact Hlt |]. lia.
  - unfold EglImage_destructor, deref, holds. run. rewrite Hi.
    destruct (EglImage.mEglImage img =? EGL_NO_IMAGE_KHR); cbn;
      (eexists; split; [reflexivity |]); cbn.
    + lia.
    + rewrite !eglRefs_app. cbn. destruct (EglImage.mEglDisplay img =? d); lia.
Qed.

Lemma egl_references_balanced_witness :
  exists s',
    EglImage_destructor 0%nat example_bound = Some (tt, s') /\
    eglRefs 1 (calls s') - eglRefs 1 (calls example_bound) = -1.
Proof.
  edestruct (egl_references_balanced (example_world (NO_ERROR, example_item 4 8)) 11
               0%nat 1 (Rect.mk 0 0 100 100) example_bound) as [_ (s' & Hrun & Hbalance)];
    [reflexivity |].
  exists s'. split; [exact Hrun | exact Hbalance].
Defined.

(** X11. [doGLFenceWaitLocked] leaks neither the sync object nor the
    duplicated fence descriptor: when it has asked EGL for a sync object
    for a descriptor, it destroys the object EGL returned, or closes the
    descriptor when EGL returned none. [syncForReleaseLocked] destroys
    the sync object it has created whenever EGL returned one. *)
Theorem sync_objects_are_destroyed w dpy s :
  (forall e s',
     doGLFenceWaitLocked w s = Some (e, s') ->
     exists cs,
       calls s' = calls s ++ cs /\
       forall fd, In (eglCreateSyncKHR (eglGetCurrentDisplay w) (Some fd)) cs ->
         if createdWaitSync w =? EGL_NO_SYNC_KHR then In (close fd) cs
         else In (eglDestroySyncKHR (eglGetCurrentDisplay w) (createdWaitSync w)) cs) /\
  (forall e s',
     syncForReleaseLocked w dpy s = Some (e, s') ->
     exists cs,
       calls s' = calls s ++ cs /\
       (In (eglCreateSyncKHR dpy None) cs ->
        createdReleaseSync w <> EGL_NO_SYNC_KHR ->
        In (eglDestroySyncKHR dpy (createdReleaseSync w)) cs)).
Proof.
  split; intros e s'.
  - unfold doGLFenceWaitLocked. run.
    destruct (negb (mEglDisplay s =? eglGetCurrentDisplay w)
              || (mEglDisplay s =? EGL_NO_DISPLAY)).
    { intros [= _ <-]. exists []. rewrite app_nil_r. split; [reflexivity | intros fd []]. }
    destruct (negb (mEglContext s =? eglGetCurrentContext w)
              || (mEglContext s =? EGL_NO_CONTEXT)).
    { intros [= _ <-]. exists []. rewrite app_nil_r. split; [reflexivity | intros fd []]. }
    destruct (Fence_isValid (mCurrentFence (cur s))).
    2:{ intros [= _ <-]. exists []. rewrite app_nil_r. split; [reflexivity | intros fd []]. }
    destruct (useWaitSync w).
    2:{ destruct (negb (waitedForever w =? NO_ERROR)); intros [= _ <-]; cbn;
          (eexists; split; [reflexivity |]);
          intros fd [Hin | []]; discriminate. }
    destruct (dupedFenceFd w =? -1).
    { intros [= _ <-]. cbn. eexists. split; [reflexivity |].
      intros fd [Hin | []]; discriminate. }
    destruct (createdWaitSync w =? EGL_NO_SYNC_KHR) eqn:Hsync.
    + intros [= _ <-]. cbn. rewrite <- !app_assoc. eexists. split; [reflexivity |].
      cbn. intros fd [Hin | [Hin | [Hin | [Hin | []]]]]; try discriminate.
      injection Hin as <-. right; right; left. reflexivity.
    + destruct (negb (waitSyncError w =? EGL_SUCCESS)); intros [= _ <-]; cbn;
        rewrite <- !app_assoc; (eexists; split; [reflexivity |]); cbn;
        intros fd Hin; tauto.
  - unfold syncForReleaseLocked. run.
    destruct (negb (mCurrentTexture (cur s) =? INVALID_BUFFER_SLOT)).
    2:{ intros [= _ <-]. exists []. rewrite app_nil_r. split; [reflexivity | intros []]. }
    destruct (useNativeFenceSync w).
    2:{ intros [= _ <-]. exists []. rewrite app_nil_r. split; [reflexivity | intros []]. }
    destruct (createdReleaseSync w =? EGL_NO_SYNC_KHR) eqn:Hsync.
    { intros [= _ <-]. cbn. rewrite <- !app_assoc. eexists. split; [reflexivity |].
      intros _ Hne. apply Z.eqb_eq in Hsync. contradiction. }
    destruct (dupedNativeFenceFd w =? EGL_NO_NATIVE_FENCE_FD_ANDROID).
    { intros [= _ <-]. cbn. rewrite <- !app_assoc. eexists. split; [reflexivity |].
      intros _ _. cbn. tauto. }
    unfold currentGraphicBuffer, deref. run. cbn.
    destruct (mCurrentTextureImage (cur s)) as [r |]; [| discriminate]. cbn.
    destruct (images s !! r); [| discriminate]. cbn.
    destruct (negb (addedReleaseFence w =? OK)); intros [= _ <-]; cbn;
      rewrite <- !app_assoc; (eexists; split; [reflexivity |]); intros _ _; cbn; tauto.
Qed.

Lemma sync_objects_are_destroyed_witness :
  exists s',
    doGLFenceWaitLocked example_world_wait_sync example_bound = Some (NO_ERROR, s') /\
    In (eglDestroySyncKHR 1 41) (skipn (length (calls example_bound)) (calls s')).
Proof.
  exists (after (doGLFenceWaitLocked example_world_wait_sync) example_bound).
  split; [vm_compute; reflexivity |].
  destruct (proj1 (sync_objects_are_destroyed example_world_wait_sync 1 example_bound)
              NO_ERROR (after (doGLFenceWaitLocked example_world_wait_sync) example_bound))
    as (cs & Hcs & Hdestroyed); [vm_compute; reflexivity |].
  rewrite Hcs, drop_app_length.
  apply (Hdestroyed 31).
  apply (f_equal (skipn (length (calls example_bound)))) in Hcs.
  rewrite drop_app_length in Hcs. rewrite <- Hcs. vm_compute. tauto.
Defined.

(** ** Single operations *)

(** X12. [acquireBufferLocked] of a well-formed consumer, the queue keeping
    its contract, returns the queue's answer, keeps the consumer well
    formed and the binding as it was, and leaves every image object that
    is still referred to as it was. Exactly when the answer is NO_ERROR
    and the item carries a buffer, the item's slot is handed a new image
    object (no image, no display, the empty crop) and the pointer it held
    is dropped: the calls are the one on the base class followed by those
    of the destructor of the object the slot held, when nothing refers to
    that object any more and it holds an image. Otherwise the slots are
    those of before and the call on the base class is the only one. *)
Theorem acquireBufferLocked_fresh_image w s :
  well_formed s = true -> queue_contract_holds w s = true ->
  exists s',
    acquireBufferLocked w s = Some (acquired w, s') /\
    well_formed s' = true /\ cur s' = cur s /\
    (forall (r : ref) img,
       referenced None r s' = true -> images s !! r = Some img ->
       images s' !! r = Some img) /\
    match BufferItem.mGraphicBuffer (snd (acquired w)) with
    | Some buffer =>
        if fst (acquired w) =? NO_ERROR then
          let slot := Z.to_nat (BufferItem.mSlot (snd (acquired w))) in
          exists (r : ref) old,
            images s !! r = None /\ images s' !! r = Some (fresh_EglImage buffer) /\
            mEglSlots s !! slot = Some old /\
            mEglSlots s' = <[slot := Some r]> (mEglSlots s) /\
            calls s' = calls s ++ ConsumerBase_acquireBufferLocked ::
                                  decStrong_calls None old s'
        else mEglSlots s' = mEglSlots s /\
             calls s' = calls s ++ [ConsumerBase_acquireBufferLocked]
    | None => mEglSlots s' = mEglSlots s /\
              calls s' = calls s ++ [ConsumerBase_acquireBufferLocked]
    end.
Proof.
  intros Hwf Hq. apply well_formed_iff in Hwf. apply queue_contract_holds_spec in Hq.
  destruct (acquireBufferLocked_total w s Hwf Hq) as (s' & Hrun & Hwf' & A1 & _ & A4).
  exists s'. rewrite well_formed_iff. split_and!; try assumption.
  - intros r img _ Hr.
    destruct (BufferItem.mGraphicBuffer (snd (acquired w)));
      [destruct (fst (acquired w) =? NO_ERROR) |].
    + destruct A4 as (-> & _). apply lookup_app_l_Some. exact Hr.
    + destruct A4 as (-> & _). exact Hr.
    + destruct A4 as (-> & _). exact Hr.
  - destruct (BufferItem.mGraphicBuffer (snd (acquired w))) as [buffer |];
      [destruct (fst (acquired w) =? NO_ERROR) |]; try tauto.
    destruct A4 as (A5 & A6 & old & Hold & A7).
    exists (length (images s)), old. split_and!; try assumption.
    + apply lookup_ge_None_2. lia.
    + rewrite A5. apply list_lookup_middle. reflexivity.
Qed.

Lemma acquireBufferLocked_fresh_image_witness :
  exists s',
    acquireBufferLocked (example_world (NO_ERROR, example_item 3 9)) example_rebound =
      Some ((NO_ERROR, example_item 3 9), s') /\
    images s' !! 2%nat = Some (fresh_EglImage example_buffer) /\
    mEglSlots s' = <[3%nat := Some 2%nat]> (mEglSlots example_rebound) /\
    calls s' = calls example_rebound ++
      [ConsumerBase_acquireBufferLocked; eglDestroyImageKHR 1 11; eglTerminate 1].
Proof.
  destruct (acquireBufferLocked_fresh_image (example_world (NO_ERROR, example_item 3 9))
              example_rebound eq_refl eq_refl)
    as (s' & Hrun & _ & _ & _ & r & old & Hnew & Hfresh & Hold & Hslots & Hcalls).
  assert (Hr : r = 2%nat).
  { assert (Hlen : length (mEglSlots s') = 64%nat)
      by (rewrite Hslots, length_insert; reflexivity).
    assert (H3 : mEglSlots s' !! 3%nat = Some (Some r)).
    { rewrite Hslots. apply list_lookup_insert_eq. vm_compute. lia. }
    revert Hrun H3. vm_compute. intros [= <-]. cbn. congruence. }
  subst r. injection Hold as <-.
  exists s'. split; [exact Hrun |]. split; [exact Hfresh |]. split; [exact Hslots |].
  rewrite Hcalls. f_equal. f_equal.
  revert Hrun. vm_compute. intros [= <-]. reflexivity.
Defined.

(** X13. With a pending release record, [updateAndReleaseLocked] does not
    release the buffer that was bound: when it commits the frame it makes
    no [releaseBufferLocked] call, and the record it returns is the one
    it was given when no slot was bound, and otherwise names the slot
    that was bound and its buffer and is marked pending. When it fails,
    the record is the one it was given and the frame is dropped. *)
Theorem pending_release_defers_release w item pr s (r : ref) :
  well_formed s = true -> slot_in_bounds (BufferItem.mSlot item) = true ->
  mEglSlots s !! Z.to_nat (BufferItem.mSlot item) = Some (Some r) ->
  exists e p' s',
    updateAndReleaseLocked w item (Some pr) s = Some ((e, p'), s') /\
    ((e <> NO_ERROR /\ p' = Some pr /\ dropped s s') \/
     (e = NO_ERROR /\ committed_to w item r s' /\
      (exists cs, calls s' = calls s ++ cs /\ existsb is_release cs = false) /\
      if mCurrentTexture (cur s) =? INVALID_BUFFER_SLOT then p' = Some pr
      else exists r0 old,
             mCurrentTextureImage (cur s) = Some r0 /\ images s !! r0 = Some old /\
             p' = Some (mkPendingRelease true (mCurrentTexture (cur s))
                          (Some (EglImage.mGraphicBuffer old))))).
Proof.
  intros Hwf Hb Hslot. apply well_formed_iff in Hwf.
  destruct (updateAndReleaseLocked_total w item (Some pr) s r Hwf Hb Hslot)
    as (e & p' & s' & Hrun & _ & Hout).
  exists e, p', s'. split; [exact Hrun |].
  destruct Hout as [(He & Hp & Hd & _) | (Hc & Hh)]; [left; tauto | right].
  assert (Hquiet : forall cs, forallb quiet_ok cs = true -> existsb is_release cs = false).
  { induction cs as [| c cs IH]; [reflexivity |]. cbn. intros H.
    apply andb_true_iff in H as [Hc' H]. rewrite (IH H), orb_false_r.
    destruct c; try reflexivity; discriminate. }
  unfold handed_back in Hh.
  destruct (mCurrentTexture (cur s) =? INVALID_BUFFER_SLOT).
  - destruct Hh as (-> & -> & (cs & E & Hcs)). split_and!; try reflexivity; eauto.
  - destruct Hh as (r0 & old & Hr0 & Hold & -> & -> & (cs & E & Hcs)).
    split_and!; try reflexivity; eauto.
Qed.

Lemma pending_release_defers_release_witness :
  exists e p' s',
    updateAndReleaseLocked (example_world (NO_ERROR, example_item 4 8)) (example_item 4 8)
      (Some (mkPendingRelease false INVALID_BUFFER_SLOT None)) example_acquired =
      Some ((e, p'), s') /\
    (e = NO_ERROR ->
     p' = Some (mkPendingRelease true 3 (Some example_buffer)) /\
     exists cs, calls s' = calls example_acquired ++ cs /\ existsb is_release cs = false).
Proof.
  destruct (pending_release_defers_release (example_world (NO_ERROR, example_item 4 8))
              (example_item 4 8) (mkPendingRelease false INVALID_BUFFER_SLOT None)
              example_acquired 1%nat eq_refl eq_refl eq_refl)
    as (e & p' & s' & Hrun & Hcases).
  exists e, p', s'. split; [exact Hrun |].
  intros He. destruct Hcases as [[Hne _] | (_ & _ & Hcalls & Hrecord)]; [contradiction |].
  split; [| exact Hcalls].
  destruct Hrecord as (r0 & old & Hr0 & Hold & ->).
  injection Hr0 as <-. injection Hold as <-. reflexivity.
Defined.

(** X14. After [freeBufferLocked] of the bound slot the consumer is well
    formed, no slot is bound and the slot holds no image object; from
    then on [setReleaseFence] does nothing, for every fence, while
    [getCurrentBuffer] still returns the buffer that was bound, with the
    invalid slot. *)
Theorem freed_slot_gets_no_fence w s fence :
  well_formed s = true -> mCurrentTexture (cur s) <> INVALID_BUFFER_SLOT ->
  exists s1,
    freeBufferLocked (mCurrentTexture (cur s)) s = Some (tt, s1) /\
    well_formed s1 = true /\
    mCurrentTexture (cur s1) = INVALID_BUFFER_SLOT /\
    mEglSlots s1 !! Z.to_nat (mCurrentTexture (cur s)) = Some None /\
    setReleaseFence w fence s1 = Some (tt, s1) /\
    exists buf,
      getCurrentBuffer s = Some ((Some buf, mCurrentTexture (cur s)), s) /\
      getCurrentBuffer s1 = Some ((Some buf, INVALID_BUFFER_SLOT), s1).
Proof.
  intros Hwf Hbound. apply well_formed_iff in Hwf.
  destruct (wf_current s Hwf Hbound) as (Hb & r & img & Hr & Hi).
  destruct (wf_lookup s _ Hwf Hb) as [x Hx].
  destruct (freeBufferLocked_result None _ s x Hb Hx (wf_ref_ok s _ x Hwf Hx))
    as (s1 & Hrun & F1 & F2 & F3 & F4 & F5).
  rewrite Z.eqb_refl in F5.
  exists s1. split; [exact Hrun |]. split_and!.
  - apply well_formed_iff. eapply (wf_free s s1 _ Hwf F1 F3). right. exact F5.
  - rewrite F5. reflexivity.
  - rewrite F3. apply list_lookup_insert_eq. apply lookup_lt_is_Some. eauto.
  - unfold setReleaseFence. run. rewrite F5. cbn. rewrite andb_false_r. reflexivity.
  - exists (EglImage.mGraphicBuffer img). unfold getCurrentBuffer, deref. run.
    rewrite F5. cbn. rewrite Hr, F1, Hi. split; reflexivity.
Qed.

Lemma freed_slot_gets_no_fence_witness :
  exists s1,
    freeBufferLocked 3 example_bound = Some (tt, s1) /\
    mCurrentTexture (cur s1) = INVALID_BUFFER_SLOT /\
    setReleaseFence (example_world (NO_ERROR, example_item 4 8)) 5 s1 = Some (tt, s1) /\
    getCurrentBuffer s1 = Some ((Some example_buffer, INVALID_BUFFER_SLOT), s1).
Proof.
  destruct (freed_slot_gets_no_fence (example_world (NO_ERROR, example_item 4 8))
              example_bound 5 eq_refl) as (s1 & Hfree & _ & Hslot & _ & Hfence & buf & Hb & Hb1);
    [discriminate |].
  exists s1. split; [exact Hfree | split; [exact Hslot | split; [exact Hfence |]]].
  injection Hb as <-. exact Hb1.
Defined.

(** X15. [setFilteringEnabled] is idempotent: a second call with the same
    value changes nothing. Unless the consumer is abandoned the flag has
    the value afterwards, and a call with the value the flag has changes
    nothing, the matrix included. *)
Theorem setFilteringEnabled_idempotent w enabled s s1 :
  setFilteringEnabled w enabled s = Some (tt, s1) ->
  setFilteringEnabled w enabled s1 = Some (tt, s1) /\
  (mAbandoned s = false -> mFilteringEnabled s1 = enabled) /\
  (mFilteringEnabled s = enabled -> s1 = s).
Proof.
  unfold setFilteringEnabled. run.
  destruct (mAbandoned s) eqn:Hab.
  { intros [= <-]. rewrite Hab. split_and!; try reflexivity. discriminate. }
  destruct (mCurrentTextureImage (cur s)) as [r |] eqn:Hr.
  2:{ intros [= <-]. cbn. rewrite Hab, Hr. cbn.
      split_and!; try reflexivity. intros <-. destruct s; reflexivity. }
  destruct (Bool.eqb (mFilteringEnabled s) enabled) eqn:Heq; cbn [negb].
  - intros [= <-]. cbn. rewrite Hab, Hr. cbn. rewrite Bool.eqb_reflx. cbn.
    split_and!; try reflexivity. intros <-. destruct s; reflexivity.
  - unfold computeCurrentTransformMatrixLocked, deref. run. cbn. rewrite Hr.
    change (images (set_mFilteringEnabled enabled s)) with (images s).
    destruct (images s !! r) as [img |]; cbn; [| discriminate].
    rewrite computeTransformMatrix_pipeline. cbn. intros [= <-]. cbn.
    rewrite Hab. cbn. rewrite Hr. cbn. rewrite Bool.eqb_reflx. cbn.
    split_and!; try reflexivity.
    intros <-. rewrite Bool.eqb_reflx in Heq. discriminate.
Qed.

Lemma setFilteringEnabled_idempotent_witness :
  exists s1,
    setFilteringEnabled (example_world (NO_ERROR, example_item 4 8)) false example_bound =
      Some (tt, s1) /\
    setFilteringEnabled (example_world (NO_ERROR, example_item 4 8)) false s1 =
      Some (tt, s1) /\
    mFilteringEnabled s1 = false.
Proof.
  exists (state_after (setFilteringEnabled (example_world (NO_ERROR, example_item 4 8)) false)
            example_bound).
  destruct (setFilteringEnabled_idempotent (example_world (NO_ERROR, example_item 4 8))
              false example_bound
              (state_after (setFilteringEnabled (example_world (NO_ERROR, example_item 4 8))
                              false) example_bound))
    as (Hagain & Hflag & _); [vm_compute; reflexivity |].
  split; [vm_compute; reflexivity | split; [exact Hagain | exact (Hflag eq_refl)]].
Defined.

(** X16. On a consumer that is not abandoned, [setDefaultBufferSize] returns
    the status of the queue, whatever it is, after handing it the size,
    leaves the binding alone, and the size takes effect at once:
    [getCurrentCrop] then scales a scale-to-crop binding's crop to the new
    size, also when the queue has refused it. *)
Theorem setDefaultBufferSize_takes_effect w width height s :
  mAbandoned s = false ->
  exists s',
    setDefaultBufferSize w width height s = Some (setDefaultBufferSizeStatus w, s') /\
    cur s' = cur s /\
    calls s' = calls s ++ [mConsumer_setDefaultBufferSize width height] /\
    getCurrentCrop s' =
      Some (if mCurrentScalingMode (cur s) =? NATIVE_WINDOW_SCALING_MODE_SCALE_CROP
            then scaleDownCrop (mCurrentCrop (cur s)) width height
            else mCurrentCrop (cur s), s').
Proof.
  intros Hab. unfold setDefaultBufferSize, getCurrentCrop. run. rewrite Hab.
  eexists. split; [reflexivity |]. cbn. split_and!; try reflexivity.
  destruct (mCurrentScalingMode (cur s) =? NATIVE_WINDOW_SCALING_MODE_SCALE_CROP);
    reflexivity.
Qed.

Lemma setDefaultBufferSize_takes_effect_witness :
  exists s',
    setDefaultBufferSize (example_world (NO_ERROR, example_item 4 8)) 1 1 example_scale_crop =
      Some (NO_ERROR, s') /\
    getCurrentCrop s' = Some (Rect.mk 0 0 100 100, s').
Proof.
  destruct (setDefaultBufferSize_takes_effect (example_world (NO_ERROR, example_item 4 8))
              1 1 example_scale_crop eq_refl) as (s' & Hrun & _ & _ & Hcrop).
  exists s'. split; [exact Hrun | exact Hcrop].
Defined.

(** X17. A consumer that is not abandoned and that has a display and a
    context refuses every other current display or context:
    [updateTexImage] and [doGLFenceWaitLocked] return INVALID_OPERATION
    and change nothing, no buffer is acquired and no call is made. *)
Theorem updateTexImage_refuses_another_context w s :
  mAbandoned s = false ->
  mEglDisplay s <> EGL_NO_DISPLAY -> mEglContext s <> EGL_NO_CONTEXT ->
  eglGetCurrentDisplay w <> mEglDisplay s \/ eglGetCurrentContext w <> mEglContext s ->
  updateTexImage w s = Some (INVALID_OPERATION, s) /\
  doGLFenceWaitLocked w s = Some (INVALID_OPERATION, s).
Proof.
  intros Hab Hd Hc Hother.
  apply Z.eqb_neq in Hd as Hd', Hc as Hc'. split.
  - unfold updateTexImage, checkAndUpdateEglStateLocked. run.
    rewrite Hab, Hd'. cbn. rewrite Hc'. cbn.
    destruct (Z.eqb_spec (mEglDisplay s) (eglGetCurrentDisplay w)) as [E1 | E1]; cbn;
      [| reflexivity].
    destruct (eglGetCurrentDisplay w =? EGL_NO_DISPLAY); cbn; [reflexivity |].
    destruct (Z.eqb_spec (mEglContext s) (eglGetCurrentContext w)) as [E2 | E2]; cbn;
      [| reflexivity].
    destruct Hother as [H | H]; congruence.
  - unfold doGLFenceWaitLocked. run.
    destruct (Z.eqb_spec (mEglDisplay s) (eglGetCurrentDisplay w)) as [E1 | E1]; cbn;
      [| reflexivity].
    rewrite Hd'. cbn.
    destruct (Z.eqb_spec (mEglContext s) (eglGetCurrentContext w)) as [E2 | E2]; cbn;
      [| reflexivity].
    destruct Hother as [H | H]; congruence.
Qed.

Lemma updateTexImage_refuses_another_context_witness :
  updateTexImage example_world_other_display example_bound =
    Some (INVALID_OPERATION, example_bound) /\
  doGLFenceWaitLocked example_world_other_display example_bound =
    Some (INVALID_OPERATION, example_bound).
Proof.
  apply (updateTexImage_refuses_another_context example_world_other_display example_bound).
  - reflexivity.
  - discriminate.
  - discriminate.
  - left. discriminate.
Defined.

(** ** Sequences of operations and updates *)

(** X18. Every public operation of a well-formed consumer is defined (no
    null image is dereferenced and no slot outside the array is indexed)
    and leaves the consumer well formed, provided that the queue keeps
    its contract at an update: the slot it hands out is a slot of the
    array, and an item without a buffer is for a slot whose image object
    the consumer holds. *)
Theorem operation_returns_and_keeps_invariant w op s :
  well_formed s = true ->
  (op = op_updateTexImage -> queue_contract_holds w s = true) ->
  exists ret s', perform w op s = Some (ret, s') /\ well_formed s' = true.
Proof.
  intros Hwf Hq. apply well_formed_iff in Hwf.
  destruct (perform_total w op s Hwf) as (ret & s' & Hrun & Hwf').
  { intros Hop. apply queue_contract_holds_spec. auto. }
  exists ret, s'. rewrite well_formed_iff. tauto.
Qed.

Lemma operation_returns_and_keeps_invariant_witness :
  exists ret s',
    perform (example_world (NO_ERROR, example_item 4 8)) op_updateTexImage example_bound =
      Some (ret, s') /\
    well_formed s' = true.
Proof.
  apply (operation_returns_and_keeps_invariant (example_world (NO_ERROR, example_item 4 8))
           op_updateTexImage example_bound).
  - reflexivity.
  - intros _. reflexivity.
Defined.

(** X19. From construction on, every sequence of public operations during
    which the queue keeps its contract runs to its end with defined
    behaviour, returns one result for each operation and leaves the
    consumer well formed. *)
Theorem runs_from_construction_are_defined tex l :
  contract_kept l (BufferLayerConsumer tex) = true ->
  exists rets s,
    performAll l (BufferLayerConsumer tex) = Some (rets, s) /\
    length rets = length l /\ well_formed s = true.
Proof.
  intros Hk.
  assert (Hwf : wf (BufferLayerConsumer tex)) by (apply well_formed_iff; reflexivity).
  destruct (performAll_total (example_world (NO_ERROR, example_item 0 0)) l _ Hwf Hk)
    as (rets & s & Hrun & Hwf' & Hlen & _).
  exists rets, s. rewrite well_formed_iff. tauto.
Qed.

Lemma runs_from_construction_are_defined_witness :
  exists rets s,
    performAll [ (example_world (NO_ERROR, example_item 3 7), op_updateTexImage);
                 (example_world (NO_ERROR, example_item 3 7), op_setReleaseFence 5);
                 (example_world (NO_ERROR, example_item_again 3 8), op_updateTexImage);
                 (example_world (NO_ERROR, example_item 4 9), op_getCurrentBuffer) ]
      (BufferLayerConsumer 7) = Some (rets, s) /\
    length rets = 4%nat /\ well_formed s = true.
Proof.
  apply (runs_from_construction_are_defined 7
           [ (example_world (NO_ERROR, example_item 3 7), op_updateTexImage);
             (example_world (NO_ERROR, example_item 3 7), op_setReleaseFence 5);
             (example_world (NO_ERROR, example_item_again 3 8), op_updateTexImage);
             (example_world (NO_ERROR, example_item 4 9), op_getCurrentBuffer) ]).
  vm_compute. reflexivity.
Defined.

(** X20. The transform matrix is never stale: when the stored matrix of a
    well-formed consumer is the one [computeTransformMatrix] gives for
    the bound buffer, the current crop (the empty rect when the image
    carries the crop), the current transform and the filtering flag, it
    still is after every sequence of public operations, the queue keeping
    its contract and the crop extension being present throughout or
    absent throughout. *)
Theorem transform_matrix_never_stale w0 l s rets s' :
  well_formed s = true -> contract_kept l s = true -> same_extension w0 l ->
  matrix_fresh w0 s -> performAll l s = Some (rets, s') -> matrix_fresh w0 s'.
Proof.
  intros Hwf Hk Hext Hm Hrun. apply well_formed_iff in Hwf.
  destruct (performAll_total w0 l s Hwf Hk) as (rets' & s'' & Hrun' & _ & _ & Hfresh).
  rewrite Hrun in Hrun'. injection Hrun' as <- <-. auto.
Qed.

Lemma transform_matrix_never_stale_witness :
  exists rets s',
    performAll [ (example_world (NO_ERROR, example_item 3 7), op_updateTexImage);
                 (example_world (NO_ERROR, example_item 3 7), op_setFilteringEnabled false) ]
      (BufferLayerConsumer 7) = Some (rets, s') /\
    matrix_fresh (example_world (NO_ERROR, example_item 3 7)) s'.
Proof.
  destruct (performAll
              [ (example_world (NO_ERROR, example_item 3 7), op_updateTexImage);
                (example_world (NO_ERROR, example_item 3 7), op_setFilteringEnabled false) ]
              (BufferLayerConsumer 7)) as [[rets s'] |] eqn:Hrun;
    [| vm_compute in Hrun; discriminate Hrun].
  exists rets, s'. split; [reflexivity |].
  apply (transform_matrix_never_stale (example_world (NO_ERROR, example_item 3 7))
           [ (example_world (NO_ERROR, example_item 3 7), op_updateTexImage);
             (example_world (NO_ERROR, example_item 3 7), op_setFilteringEnabled false) ]
           (BufferLayerConsumer 7) rets s').
  - reflexivity.
  - vm_compute. reflexivity.
  - repeat constructor.
  - intros r Hr. discriminate Hr.
  - exact Hrun.
Defined.

(** X21. No sequence of public operations that returns changes the texture
    name, a display or a context once the consumer has one, or the
    number of slots, and every image object the consumer still refers to
    afterwards wraps the buffer it wrapped before. *)
Theorem operations_keep_what_is_latched l s rets s' :
  performAll l s = Some (rets, s') ->
  mTexName s' = mTexName s /\
  (mEglDisplay s <> EGL_NO_DISPLAY -> mEglDisplay s' = mEglDisplay s) /\
  (mEglContext s <> EGL_NO_CONTEXT -> mEglContext s' = mEglContext s) /\
  length (mEglSlots s') = length (mEglSlots s) /\
  forall (r : ref) img img',
    images s !! r = Some img -> referenced None r s' = true ->
    images s' !! r = Some img' ->
    EglImage.mGraphicBuffer img' = EglImage.mGraphicBuffer img.
Proof.
  intros Hrun.
  destruct (proj1 (framed_performAll l s rets s' Hrun)) as (_ & Hn & Hd & Hc & Hl & Hk).
  split_and!; try assumption.
  intros r img img' Hi _ Hi'. destruct (Hk r img Hi) as (img0 & Hi0 & Hb).
  pose proof (eq_trans (eq_sym Hi') Hi0) as E. injection E as ->. exact Hb.
Qed.

Lemma operations_keep_what_is_latched_witness :
  exists rets s',
    performAll [ (example_world (NO_ERROR, example_item 4 8), op_updateTexImage);
                 (example_world_other_display, op_updateTexImage) ]
      example_bound = Some (rets, s') /\
    mEglDisplay s' = mEglDisplay example_bound /\
    mEglContext s' = mEglContext example_bound.
Proof.
  destruct (performAll
              [ (example_world (NO_ERROR, example_item 4 8), op_updateTexImage);
                (example_world_other_display, op_updateTexImage) ]
              example_bound) as [[rets s'] |] eqn:Hrun;
    [| vm_compute in Hrun; discriminate Hrun].
  exists rets, s'. split; [reflexivity |].
  destruct (operations_keep_what_is_latched
              [ (example_world (NO_ERROR, example_item 4 8), op_updateTexImage);
                (example_world_other_display, op_updateTexImage) ] example_bound rets s' Hrun)
    as (_ & Hd & Hc & _).
  split; [apply Hd | apply Hc]; discriminate.
Defined.

(** X22. The calls of every sequence of public operations that returns are
    added after those of before, every usage handed to the base class
    includes the default usage flags, and a release fence is only ever
    added for a slot, never for the invalid slot. *)
Theorem operations_make_allowed_calls l s rets s' :
  performAll l s = Some (rets, s') ->
  exists cs, calls s' = calls s ++ cs /\ forallb call_ok cs = true.
Proof. intros Hrun. exact (proj2 (framed_performAll l s rets s' Hrun)). Qed.

Lemma operations_make_allowed_calls_witness :
  exists rets s' cs,
    performAll [ (example_world (NO_ERROR, example_item 4 8), op_updateTexImage);
                 (example_world (NO_ERROR, example_item 4 8), op_setReleaseFence 5) ]
      example_bound = Some (rets, s') /\
    calls s' = calls example_bound ++ cs /\ forallb call_ok cs = true.
Proof.
  destruct (performAll
              [ (example_world (NO_ERROR, example_item 4 8), op_updateTexImage);
                (example_world (NO_ERROR, example_item 4 8), op_setReleaseFence 5) ]
              example_bound) as [[rets s'] |] eqn:Hrun;
    [| vm_compute in Hrun; discriminate Hrun].
  destruct (operations_make_allowed_calls
              [ (example_world (NO_ERROR, example_item 4 8), op_updateTexImage);
                (example_world (NO_ERROR, example_item 4 8), op_setReleaseFence 5) ]
              example_bound rets s' Hrun) as (cs & Hcs & Hok).
  exists rets, s', cs. split; [reflexivity | split; [exact Hcs | exact Hok]].
Defined.

(** X23. When [updateTexImage] of a well-formed consumer returns NO_ERROR and
    the queue has handed out an item, the binding is the item's: the
    image object is the one of the item's slot (a new one when the item
    carries a buffer), [getCurrentBuffer] returns its buffer and the
    item's slot, the object holds an EGL image on the current display,
    which is the consumer's, and this update has bound that image to the
    texture target, after it has acquired the item. *)
Theorem updateTexImage_success_binds_acquired_buffer w s item s' :
  well_formed s = true -> queue_contract_holds w s = true ->
  acquired w = (NO_ERROR, item) ->
  updateTexImage w s = Some (NO_ERROR, s') ->
  exists (r : ref) img',
    acquired_image w s r /\ images s' !! r = Some img' /\
    acquired_buffer w s r (EglImage.mGraphicBuffer img') /\
    cur s' = committedBinding w item r (EglImage.mGraphicBuffer img') (mFilteringEnabled s') /\
    getCurrentBuffer s' =
      Some ((Some (EglImage.mGraphicBuffer img'), BufferItem.mSlot item), s') /\
    EglImage.mEglImage img' <> EGL_NO_IMAGE_KHR /\
    EglImage.mEglDisplay img' = eglGetCurrentDisplay w /\
    mEglDisplay s' = eglGetCurrentDisplay w /\
    exists cs,
      calls s' = calls s ++ ConsumerBase_acquireBufferLocked :: cs /\
      In (glEGLImageTargetTexture2DOES sTexTarget (EglImage.mEglImage img')) cs.
Proof.
  intros Hwf Hq Hacq Hrun.
  apply well_formed_iff in Hwf. apply queue_contract_holds_spec in Hq.
  destruct (updateTexImage_total w s Hwf Hq) as (e & s'' & Hrun' & _ & Hout).
  rewrite Hrun in Hrun'. injection Hrun' as <- <-. rewrite Hacq in Hout. cbn [fst snd] in Hout.
  destruct Hout as [(_ & He & _) | [(_ & He & _) | (_ & _ & [(He & _) | Hitem])]];
    try discriminate; try contradiction.
  destruct Hitem as (_ & r & cs & Hr & Hcalls & _ & [(He & _) | Hcommit]); [contradiction |].
  destruct Hcommit as (img' & Hi & Hb & Hc & Hok).
  destruct (Hok eq_refl) as (I1 & I2 & I3 & I4).
  exists r, img'. split_and!; try assumption.
  - unfold getCurrentBuffer, deref. run. rewrite Hc. cbn. rewrite Hi. reflexivity.
  - exists cs. split; [exact Hcalls | exact I4].
Qed.

Lemma updateTexImage_success_binds_acquired_buffer_witness :
  exists (r : ref) img' cs,
    images example_bound !! r = Some img' /\
    getCurrentBuffer example_bound =
      Some ((Some (EglImage.mGraphicBuffer img'), 3), example_bound) /\
    calls example_bound =
      calls (BufferLayerConsumer 7) ++ ConsumerBase_acquireBufferLocked :: cs /\
    In (glEGLImageTargetTexture2DOES sTexTarget (EglImage.mEglImage img')) cs.
Proof.
  destruct (updateTexImage_success_binds_acquired_buffer
              (example_world (NO_ERROR, example_item 3 7)) (BufferLayerConsumer 7)
              (example_item 3 7) example_bound eq_refl eq_refl eq_refl eq_refl)
    as (r & img' & _ & Himg & _ & _ & Hbuffer & _ & _ & _ & cs & Hcalls & Hcall).
  exists r, img', cs. split; [exact Himg | split; [exact Hbuffer | split; assumption]].
Defined.

(** X24. [updateTexImage] commits a frame entirely or not at all: whatever
    it returns, the binding afterwards is the one of before (with the
    bound slot forgotten when the queue has freed it), or the queue has
    handed out an item and the binding is the item's in every field, with
    the matrix computed from it. *)
Theorem updateTexImage_all_or_nothing w s e s' :
  well_formed s = true -> queue_contract_holds w s = true ->
  updateTexImage w s = Some (e, s') ->
  dropped s s' \/
  (fst (acquired w) = NO_ERROR /\
   exists (r : ref) img',
     images s' !! r = Some img' /\
     cur s' = committedBinding w (snd (acquired w)) r (EglImage.mGraphicBuffer img')
                (mFilteringEnabled s')).
Proof.
  intros Hwf Hq Hrun.
  apply well_formed_iff in Hwf. apply queue_contract_holds_spec in Hq.
  destruct (updateTexImage_total w s Hwf Hq) as (e' & s'' & Hrun' & _ & Hout).
  rewrite Hrun in Hrun'. injection Hrun' as <- <-.
  destruct Hout as [(_ & _ & ->) | [(_ & _ & Hcheck) | (_ & _ & [Hnone | Hitem])]].
  - left. left. reflexivity.
  - left. left. exact (proj1 (check_frame _ _ _ _ Hcheck)).
  - left. left. tauto.
  - destruct Hitem as (He & r & cs & _ & _ & _ & [(_ & Hd) | (img' & Hi & _ & Hc & _)]).
    + left. exact Hd.
    + right. split; [exact He |]. eauto.
Qed.

Lemma updateTexImage_all_or_nothing_witness :
  dropped (BufferLayerConsumer 7) example_bound \/
  (fst (acquired (example_world (NO_ERROR, example_item 3 7))) = NO_ERROR /\
   exists (r : ref) img',
     images example_bound !! r = Some img' /\
     cur example_bound =
       committedBinding (example_world (NO_ERROR, example_item 3 7)) (example_item 3 7) r
         (EglImage.mGraphicBuffer img') (mFilteringEnabled example_bound)).
Proof.
  apply (updateTexImage_all_or_nothing (example_world (NO_ERROR, example_item 3 7))
           (BufferLayerConsumer 7) NO_ERROR example_bound); reflexivity.
Defined.

(** X25. [updateTexImage] binds the texture exactly once, with the
    consumer's texture name, whenever it gets as far as the queue and the
    queue hands out an item or has no buffer available, whether the frame
    is then committed or not; in every other case (abandoned, another
    context, another error of the queue) it does not bind it. *)
Theorem updateTexImage_binds_texture_once w s e s' :
  well_formed s = true -> queue_contract_holds w s = true ->
  updateTexImage w s = Some (e, s') ->
  let reaches_the_queue :=
    negb (mAbandoned s) &&
    match checkAndUpdateEglStateLocked w s with
    | Some (err, _) => err =? NO_ERROR
    | None => false
    end in
  let binds :=
    reaches_the_queue &&
    ((fst (acquired w) =? NO_ERROR) || (fst (acquired w) =? NO_BUFFER_AVAILABLE)) in
  exists cs,
    calls s' = calls s ++ cs /\
    List.filter is_glBindTexture cs =
      (if binds then [glBindTexture sTexTarget (mTexName s)] else []).
Proof.
  intros Hwf Hq Hrun. cbv zeta.
  apply well_formed_iff in Hwf. apply queue_contract_holds_spec in Hq.
  destruct (updateTexImage_total w s Hwf Hq) as (e' & s'' & Hrun' & _ & Hout).
  rewrite Hrun in Hrun'. injection Hrun' as <- <-.
  destruct Hout as [(Hab & _ & ->) | [(Hab & He & Hcheck) | (Hab & [s1 Hcheck] & Hrest)]];
    rewrite Hab; cbn [negb andb].
  - exists []. rewrite app_nil_r. split; reflexivity.
  - rewrite Hcheck. apply Z.eqb_neq in He. rewrite He. cbn.
    exists []. rewrite app_nil_r. split; [| reflexivity].
    exact (proj1 (proj2 (check_frame _ _ _ _ Hcheck))).
  - rewrite Hcheck. change (NO_ERROR =? NO_ERROR) with true. cbn [andb].
    destruct Hrest as [(He & _ & _ & _ & _ & Hcalls) | (He & r & cs & _ & Hcalls & Hf & _)].
    + apply Z.eqb_neq in He. rewrite He. cbn [orb].
      eexists. split; [exact Hcalls |].
      destruct (fst (acquired w) =? NO_BUFFER_AVAILABLE); reflexivity.
    + rewrite He. change (NO_ERROR =? NO_ERROR) with true. cbn [orb].
      eexists. split; [exact Hcalls |]. cbn. exact Hf.
Qed.

Lemma updateTexImage_binds_texture_once_witness :
  exists cs,
    calls example_bound = calls (BufferLayerConsumer 7) ++ cs /\
    List.filter is_glBindTexture cs = [glBindTexture sTexTarget 7].
Proof.
  apply (updateTexImage_binds_texture_once (example_world (NO_ERROR, example_item 3 7))
           (BufferLayerConsumer 7) NO_ERROR example_bound); reflexivity.
Defined.

(** ** No pointer to a destroyed object *)

#[local] Instance stays_unreferenced_preorder held r : PreOrder (stays_unreferenced held r).
Proof. split; unfold stays_unreferenced; [intros s; tauto | intros s1 s2 s3; tauto]. Qed.






Section Unreferenced.
Variable held : option ref.
Variable r0 : ref.












End Unreferenced.










